(** * AmbiAttach: word-level complexity, test-time evaluation, training
      schedule and result aggregation

    A shallow embedding of the parts of [main.py] and [compile_results.py]
    that decide the properties stated at the end of the file.

    Number model.  Tensor entries and Python floats that go through
    [exp], [log] and [softmax] are modelled as exact real numbers extended
    with the IEEE special values ([ereal]); rounding and signed zeros are
    not modelled, the overflow of the float32 exponential of a surprisal
    is ([eexp32]).  Validation losses, learning rates and the surprisals
    read back from result files only meet comparisons, sums and divisions
    and are modelled as rationals ([Q]), which keeps those parts
    executable. *)

From Stdlib Require Import String Ascii DecimalString.
From Stdlib Require Import Reals Lra Lia Bool Arith ZArith QArith List.
From Stdlib Require Import Permutation Sorted.
Import ListNotations.

(** ** Exceptions and results *)

Inductive exn : Type :=
| RuntimeError | IndexError | ValueError | ZeroDivisionError
| TypeError | NameError | StatisticsError.

Inductive outcome (A : Type) : Type :=
| Ret (a : A)
| Raise (e : exn).
Arguments Ret {A} a.
Arguments Raise {A} e.

Definition obind {A B} (m : outcome A) (k : A -> outcome B) : outcome B :=
  match m with
  | Ret a => k a
  | Raise e => Raise e
  end.

Notation "x <-! m ;; k" := (obind m (fun x => k))
  (at level 61, m at next level, right associativity).

Fixpoint mapM {A B} (f : A -> outcome B) (l : list A) : outcome (list B) :=
  match l with
  | [] => Ret []
  | a :: l' => b <-! f a ;; bs <-! mapM f l' ;; Ret (b :: bs)
  end.

Definition raises {A} (m : outcome A) : Prop :=
  match m with Raise _ => True | Ret _ => False end.

(** ** Extended reals: the values a float tensor entry can take *)

Module Ereal.

Local Open Scope R_scope.

Inductive ereal : Type :=
| Fin (r : R)
| PInf
| NInf
| NaN.

Definition is_nan (x : ereal) : bool :=
  match x with NaN => true | _ => false end.

Definition is_fin (x : ereal) : bool :=
  match x with Fin _ => true | _ => false end.

Definition eneg (x : ereal) : ereal :=
  match x with
  | Fin r => Fin (- r)
  | PInf => NInf
  | NInf => PInf
  | NaN => NaN
  end.

Definition eadd (x y : ereal) : ereal :=
  match x, y with
  | NaN, _ | _, NaN => NaN
  | Fin a, Fin b => Fin (a + b)
  | PInf, NInf | NInf, PInf => NaN
  | PInf, _ | _, PInf => PInf
  | NInf, _ | _, NInf => NInf
  end.

Definition esub (x y : ereal) : ereal := eadd x (eneg y).

(** Sign of an infinite product with a finite factor [r]. *)
Definition inf_times (pos : bool) (r : R) : ereal :=
  if Rlt_dec 0 r then (if pos then PInf else NInf)
  else if Rlt_dec r 0 then (if pos then NInf else PInf)
  else NaN.

Definition emul (x y : ereal) : ereal :=
  match x, y with
  | NaN, _ | _, NaN => NaN
  | Fin a, Fin b => Fin (a * b)
  | Fin a, PInf | PInf, Fin a => inf_times true a
  | Fin a, NInf | NInf, Fin a => inf_times false a
  | PInf, PInf | NInf, NInf => PInf
  | PInf, NInf | NInf, PInf => NaN
  end.

(** The exponential where it cannot overflow: [math.exp] of a
    log-probability (at most 0), and [torch.exp] of an entropy (an entropy
    over [V] classes is at most [ln V], so its exponential is at most [V],
    far below the largest float for any vocabulary that can be stored). *)
Definition eexp (x : ereal) : ereal :=
  match x with
  | Fin r => Fin (exp r)
  | PInf => PInf
  | NInf => Fin 0
  | NaN => NaN
  end.

(** The largest finite value of a float32 tensor entry,
    [(2 - 2^-23) * 2^127]. *)
Definition float_max : R := (2 - / 2 ^ 23) * 2 ^ 127.

(** [torch.exp] on a float32 tensor: a result above the largest float is
    [inf] (from about 88.72 on). *)
Definition eexp32 (x : ereal) : ereal :=
  match x with
  | Fin r => if Rlt_dec float_max (exp r) then PInf else Fin (exp r)
  | PInf => PInf
  | NInf => Fin 0
  | NaN => NaN
  end.

(** [torch.log2] *)
Definition elog2 (x : ereal) : ereal :=
  match x with
  | Fin r => if Rlt_dec 0 r then Fin (ln r / ln 2)
             else if Rlt_dec r 0 then NaN else NInf
  | PInf => PInf
  | NInf => NaN
  | NaN => NaN
  end.

(** Python's [x > y] on floats; any comparison with NaN is false. *)
Definition egt (x y : ereal) : bool :=
  match x, y with
  | NaN, _ | _, NaN => false
  | Fin a, Fin b => if Rlt_dec b a then true else false
  | PInf, PInf => false
  | PInf, _ => true
  | _, PInf => false
  | NInf, _ => false
  | Fin _, NInf => true
  end.

End Ereal.
Import Ereal.

(** ** Command-line arguments ([args]) *)

Record Args : Type := mkArgs {
  adapt : bool;
  words : bool;
  nocheader : bool;
  csep : string;
  guess : bool;
  guessn : Z;
  guessscores : bool;
  guessratios : bool;
  guessprobs : bool;
  complexn : Z;
  softcliptopk : bool;
  view_layer : Z;
  view_hidden : bool;
  interact : bool;
  multisentence_test : bool;
  nopp : bool;
  clip : R
}.

Definition set_complexn (a : Args) (k : Z) : Args :=
  mkArgs (adapt a) (words a) (nocheader a) (csep a) (guess a) (guessn a)
         (guessscores a) (guessratios a) (guessprobs a) k (softcliptopk a)
         (view_layer a) (view_hidden a) (interact a) (multisentence_test a)
         (nopp a) (clip a).

Definition set_guessn (a : Args) (k : Z) : Args :=
  mkArgs (adapt a) (words a) (nocheader a) (csep a) (guess a) k
         (guessscores a) (guessratios a) (guessprobs a) (complexn a)
         (softcliptopk a) (view_layer a) (view_hidden a) (interact a)
         (multisentence_test a) (nopp a) (clip a).

(** ** Tensor primitives used by the complexity measures *)

Module Torch.

Local Open Scope R_scope.

Definition Rsum (l : list R) : R := fold_right Rplus 0 l.

Definition enumerate {A} (l : list A) : list (A * nat) :=
  combine l (seq 0 (length l)).

(** Insertion into a list sorted by decreasing score; among equal scores
    the entry inserted last (the one with the smaller index, see
    [sort_desc]) comes first. *)
Fixpoint insert_desc (x : R * nat) (l : list (R * nat)) : list (R * nat) :=
  match l with
  | [] => [x]
  | y :: l' => if Rlt_dec (fst x) (fst y) then y :: insert_desc x l' else x :: l
  end.

Definition sort_desc (l : list (R * nat)) : list (R * nat) :=
  fold_right insert_desc [] l.

(** [torch.topk(v, k, 0)]: the [k] largest entries in decreasing order with
    their indices; raises when [k] is out of range.  Which of several equal
    scores torch keeps, and in which order, is not specified; the model
    keeps the smaller index, and the statements about a selection are made
    for any selection of [k] classes that no class outside it outscores. *)
Definition topk (v : list R) (k : Z) : outcome (list R * list nat) :=
  if ((k <? 0) || (Z.of_nat (length v) <? k))%Z then Raise RuntimeError
  else let s := firstn (Z.to_nat k) (sort_desc (enumerate v)) in
       Ret (map fst s, map snd s).

Fixpoint upd {A} (l : list A) (i : nat) (a : A) : list A :=
  match l, i with
  | [], _ => []
  | _ :: t, O => a :: t
  | h :: t, S j => h :: upd t j a
  end.

(** [base.scatter(0, ix, vals)]: [out[ix[j]] = vals[j]]. *)
Fixpoint scatter {A} (base : list A) (ix : list nat) (vals : list A) : list A :=
  match ix, vals with
  | i :: ix', v :: vals' => scatter (upd base i v) ix' vals'
  | _, _ => base
  end.

(** Weight [exp x] of a score in the partition sum; [exp(-inf) = 0]. *)
Definition exp_w (x : ereal) : R :=
  match x with Fin r => exp r | _ => 0 end.

Definition partition (beam : list ereal) : R := Rsum (map exp_w beam).

Definition scored (x : ereal) : bool :=
  match x with Fin _ | NInf => true | _ => false end.

(** The softmax of a vector is a distribution when every score is finite or
    [-inf] and at least one is finite; otherwise every entry is NaN. *)
Definition proper (beam : list ereal) : bool :=
  forallb scored beam && existsb is_fin beam.

(** [nn.functional.softmax(beam, dim=0)] *)
Definition softmax (beam : list ereal) : list ereal :=
  if proper beam
  then map (fun x => Fin (exp_w x / partition beam)) beam
  else map (fun _ => NaN) beam.

(** [nn.functional.log_softmax(beam, dim=0)] *)
Definition log_softmax (beam : list ereal) : list ereal :=
  if proper beam
  then map (fun x => match x with
                     | Fin r => Fin (r - ln (partition beam))
                     | _ => NInf
                     end) beam
  else map (fun _ => NaN) beam.

(** Elementwise product of two vectors of the same length. *)
Definition vmul (a b : list ereal) : list ereal :=
  map (fun p => emul (fst p) (snd p)) (combine a b).

(** [torch.sum(prod[prod == prod])]: the sum of the entries that are not NaN. *)
Definition sum_not_nan (l : list ereal) : ereal :=
  fold_right eadd (Fin 0) (filter (fun x => negb (is_nan x)) l).

End Torch.
Import Torch.

(** ** Complexity measures ([main.py], "Complexity measures") *)

Section Measures.

Variable args : Args.

(** The restricted score vector shared by [get_entropy] and [get_surps]
    (the two functions start with the same lines). *)
Definition beam_of (state : list R) : outcome (list ereal) :=
  if (complexn args =? 0)%Z then Ret (map Fin state)
  else
    r <-! topk state (complexn args) ;;
    let '(beamk, beamix) := r in
    if softcliptopk args
    then Ret (scatter (repeat (Fin 0%R) (length state)) beamix (map Fin beamk))
    else Ret (scatter (repeat NInf (length state)) beamix (map Fin beamk)).

(** [get_entropy]: entropy (in nats) of the restricted distribution. *)
Definition get_entropy (state : list R) : outcome ereal :=
  beam <-! beam_of state ;;
  let probs := softmax beam in
  let logprobs := log_softmax beam in
  let prod := vmul probs logprobs in
  Ret (emul (Fin (-1)%R) (sum_not_nan prod)).

(** [get_surps]: surprisal (in nats) of every class. *)
Definition get_surps (state : list R) : outcome (list ereal) :=
  beam <-! beam_of state ;;
  let logprobs := log_softmax beam in
  Ret (map (emul (Fin (-1)%R)) logprobs).

(** [get_guesses(state)], as called with [scores=False]: the indices of
    the top [guessn] classes; and [get_guessscores(state)], which is
    [get_guesses(state, True)]: their scores. *)
Definition get_guesses (state : list R) : outcome (list nat) :=
  r <-! topk state (guessn args) ;; Ret (snd r).

Definition get_guessscores (state : list R) : outcome (list R) :=
  r <-! topk state (guessn args) ;; Ret (fst r).

End Measures.

(** ** Python values that reach the output *)

(** [str(i)] for a Python int. *)
Definition str_Z (z : Z) : string := NilZero.string_of_int (Z.to_int z).

Definition str_nat (n : nat) : string := str_Z (Z.of_nat n).

(** A Python number: [max(0, x)] on a float [x] is the int [0] or [x]. *)
Inductive pynum : Type :=
| PyInt (z : Z)
| PyFloat (x : ereal).

(** The numeric value of a Python number. *)
Definition num_value (v : pynum) : ereal :=
  match v with
  | PyInt z => Fin (IZR z)
  | PyFloat x => x
  end.

(** [max(0, x)]: starts from [0] and moves to [x] only when [x > 0]. *)
Definition py_max0 (x : ereal) : pynum :=
  if egt x (Fin 0%R) then PyFloat x else PyInt 0.

(** [len(word)]: a word is kept as its UTF-8 bytes, and Python counts
    characters, that is the bytes that do not continue a character (the
    bytes outside [0x80..0xBF]). *)
Definition continues_char (c : ascii) : bool :=
  let n := nat_of_ascii c in ((128 <=? n) && (n <? 192))%nat.

Fixpoint py_len (s : string) : nat :=
  match s with
  | EmptyString => O
  | String c s' => if continues_char c then py_len s' else S (py_len s')
  end.

(** [l[i]] on a list or along the first dimension of a tensor. *)
Definition index {A} (l : list A) (i : nat) : outcome A :=
  match nth_error l i with
  | Some a => Ret a
  | None => Raise IndexError
  end.

(** ** Word-level complexity output ([get_complexity]) *)

(** One output row, before it is turned into text. *)
Record crow : Type := mkRow {
  c_word : string;
  c_sentid : nat;
  c_sentpos : nat;
  c_wlen : nat;
  c_surp : ereal;
  c_entropy : ereal;
  c_entred : pynum;
  c_guesses : option string
}.

Section Complexity.

(** [str(x)] and ["{:.3f}".format(x)] on a float: the language runtime's
    number formatting, not part of the repository. *)
Variable float_repr : ereal -> string.
Variable fmt3 : ereal -> string.

Variable args : Args.

(** [corpus.dictionary.idx2word] *)
Variable idx2word : list string.

Definition str_pynum (v : pynum) : string :=
  match v with
  | PyInt z => str_Z z
  | PyFloat x => float_repr x
  end.

(** The list handed to [args.csep.join] for a row. *)
Definition row_fields (r : crow) : list string :=
  [c_word r; str_nat (c_sentid r); str_nat (c_sentpos r); str_nat (c_wlen r);
   float_repr (c_surp r); float_repr (c_entropy r); str_pynum (c_entred r)]
  ++ match c_guesses r with
     | Some g => [g]
     | None => []
     end.

Definition row_line (r : crow) : string :=
  String.concat (csep args) (row_fields r).

(** [Hs] is [torch.squeeze] of an [n x 1] tensor: with a single row it is a
    0-dim tensor, which cannot be indexed. *)
Definition Hs_at (Hs : list ereal) (i : nat) : outcome ereal :=
  match Hs with
  | [_] => Raise IndexError
  | _ => index Hs i
  end.

(** The optional score printed after a guess. *)
Definition guess_score (gsc : list R) (guess_ix : nat) : outcome (list string) :=
  if guessscores args then
    s <-! index gsc guess_ix ;; Ret [fmt3 (Fin s)]
  else if guessratios args then
    s <-! index gsc guess_ix ;;
    s0 <-! index gsc 0 ;;
    if Req_dec_T s0 0 then Raise ZeroDivisionError
    else Ret [fmt3 (Fin (s / s0))]
  else if guessprobs args then
    p <-! index (log_softmax (map Fin gsc)) guess_ix ;;
    Ret [fmt3 (eexp p)]
  else Ret [].

(** The inner loop [for guess_ix in range(args.guessn)]. *)
Fixpoint guess_fields (gix : list nat) (gsc : list R) (ixs : list nat)
  : outcome (list string) :=
  match ixs with
  | [] => Ret []
  | guess_ix :: rest =>
      g <-! index gix guess_ix ;;
      w <-! index idx2word g ;;
      sc <-! guess_score gsc guess_ix ;;
      tl <-! guess_fields gix gsc rest ;;
      Ret (w :: sc ++ tl)
  end.

Definition output_guesses (guesses : option (list (list nat) * list (list R)))
  (corpuspos : nat) : outcome (option string) :=
  match guesses with
  | None => Ret None
  | Some (gixs, gscs) =>
      gix <-! index gixs corpuspos ;;
      gsc <-! index gscs corpuspos ;;
      fs <-! guess_fields gix gsc (seq 0 (Z.to_nat (guessn args))) ;;
      Ret (Some (String.concat (csep args) fs))
  end.

(** The row printed for target [targ] (word [word]) at [corpuspos]. *)
Definition make_row (Hs : list ereal) (surps : list (list ereal))
  (guesses : option (list (list nat) * list (list R)))
  (sentid corpuspos targ : nat) (word : string) : outcome crow :=
  srow <-! index surps corpuspos ;;
  surp <-! index srow targ ;;
  og <-! output_guesses guesses corpuspos ;;
  h <-! Hs_at Hs corpuspos ;;
  hprev <-! Hs_at Hs (Z.to_nat (Z.max (Z.of_nat corpuspos - 1) 0)) ;;
  Ret (mkRow word sentid corpuspos (py_len word) surp h
             (py_max0 (esub hprev h)) og).

(** The loop [for corpuspos, targ in enumerate(obs)]: the rows printed, and
    whether the loop ended normally or by an exception. *)
Fixpoint complexity_loop (Hs : list ereal) (surps : list (list ereal))
  (guesses : option (list (list nat) * list (list R)))
  (sentid corpuspos : nat) (obs : list nat) : list crow * outcome unit :=
  match obs with
  | [] => ([], Ret tt)
  | targ :: obs' =>
      match index idx2word targ with
      | Raise e => ([], Raise e)
      | Ret word =>
          if String.eqb word "<eos>"
          then complexity_loop Hs surps guesses sentid (S corpuspos) obs'
          else
            match make_row Hs surps guesses sentid corpuspos targ word with
            | Raise e => ([], Raise e)
            | Ret r =>
                let rest :=
                  complexity_loop Hs surps guesses sentid (S corpuspos) obs' in
                (r :: fst rest, snd rest)
            end
      end
  end.

(** [apply(func, state)]: [func] on every row, then [torch.stack], which
    refuses an empty list of tensors. *)
Definition apply {B} (func : list R -> outcome B) (state : list (list R))
  : outcome (list B) :=
  match state with
  | [] => Raise RuntimeError
  | _ => mapM func state
  end.

(** [torch.log2(torch.exp(x))], nats to bits: of an entropy, where the
    exponential stays in range, and of a surprisal, where it overflows for
    a surprisal above the logarithm of the largest float. *)
Definition nats_to_bits (x : ereal) : ereal := elog2 (eexp x).

Definition surp_to_bits (x : ereal) : ereal := elog2 (eexp32 x).

(** The tensors computed before the loop. *)
Definition complexity_tensors (state : list (list R))
  : outcome (list ereal * list (list ereal)
             * option (list (list nat) * list (list R))) :=
  hs <-! apply (get_entropy args) state ;;
  ss <-! apply (get_surps args) state ;;
  g <-! (if guess args then
           gi <-! apply (get_guesses args) state ;;
           gs <-! apply (get_guessscores args) state ;;
           Ret (Some (gi, gs))
         else Ret None) ;;
  Ret (map nats_to_bits hs, map (map surp_to_bits) ss, g).

(** [get_complexity(state, obs, sentid)] *)
Definition get_complexity (state : list (list R)) (obs : list nat) (sentid : nat)
  : list crow * outcome unit :=
  match complexity_tensors state with
  | Raise e => ([], Raise e)
  | Ret (Hs, surps, guesses) => complexity_loop Hs surps guesses sentid 0 obs
  end.

End Complexity.

(** ** The network as the evaluation loop sees it *)

Definition tensor : Type := list R.

Module Net.

Local Open Scope R_scope.

(** [output.view(-1, ntokens)]: rows of [ntokens] entries; raises when the
    number of entries is not a multiple of [ntokens]. *)
Fixpoint chunk_rows (rows n : nat) (l : list R) : list (list R) :=
  match rows with
  | O => []
  | S r => firstn n l :: chunk_rows r n (skipn n l)
  end.

Definition view_rows (output : list R) (ntokens : nat) : outcome (list (list R)) :=
  if (ntokens =? 0)%nat || negb (List.length output mod ntokens =? 0)%nat
  then Raise RuntimeError
  else Ret (chunk_rows (List.length output / ntokens) ntokens output).

(** [nn.CrossEntropyLoss()]: the mean over the rows of the negative
    log-probability of the row's target. *)
Definition criterion (output_flat : list (list R)) (targets : list nat)
  : outcome ereal :=
  if (List.length output_flat =? List.length targets)%nat then
    ls <-! mapM (fun p => index (log_softmax (map Fin (fst p))) (snd p))
                (combine output_flat targets) ;;
    match ls with
    | [] => Ret NaN
    | _ => Ret (emul (Fin (/ INR (List.length ls)))
                     (fold_right eadd (Fin 0) (map eneg ls)))
    end
  else Raise ValueError.

(** A parameter of the network with its [.grad] ([None] until a backward
    pass reaches it). *)
Definition param : Type := (tensor * option tensor)%type.

(** [loss.backward()] adds the new gradient to the one already stored;
    [news k] is the gradient of the loss for parameter number [k]. *)
Fixpoint vadd (a b : tensor) : tensor :=
  match a, b with
  | x :: a', y :: b' => (x + y) :: vadd a' b'
  | _, _ => a
  end.

Definition accumulate (old new : option tensor) : option tensor :=
  match new, old with
  | None, _ => old
  | Some g, None => Some g
  | Some g, Some o => Some (vadd o g)
  end.

Definition backward (net : list param) (news : nat -> option tensor) : list param :=
  map (fun q => (fst (fst q), accumulate (snd (fst q)) (news (snd q))))
      (enumerate net).

(** [model.zero_grad()] *)
Definition zero_grad (net : list param) : list param :=
  map (fun q => (fst q, option_map (map (fun _ => 0)) (snd q))) net.

(** [torch.nn.utils.clip_grad_norm(parameters, max_norm)] *)
Definition sq_norm (q : param) : R :=
  match snd q with
  | Some t => Rsum (map (fun x => x * x) t)
  | None => 0
  end.

Definition total_norm (net : list param) : R :=
  sqrt (Rsum (map sq_norm net)).

Definition clip_grad_norm (net : list param) (max_norm : R) : list param :=
  let clip_coef := max_norm / (total_norm net + / 1000000) in
  if Rlt_dec clip_coef 1
  then map (fun q => (fst q, option_map (map (fun x => x * clip_coef)) (snd q))) net
  else net.

(** [param.data.add_(-lr, param.grad.data)]: [p + a * g], entry by entry. *)
Fixpoint add_scaled (p : tensor) (a : R) (g : tensor) : tensor :=
  match p, g with
  | x :: p', y :: g' => (x + a * y) :: add_scaled p' a g'
  | _, _ => p
  end.

(** The update loop over [model.parameters()]: only the parameters that
    have a gradient move. *)
Definition sgd_step (lr : R) (net : list param) : list param :=
  map (fun q => match snd q with
                | Some g => (add_scaled (fst q) (- lr) g, snd q)
                | None => q
                end) net.

End Net.
Import Net.

(** ** Test-time evaluation ([test_evaluate]) *)

Record World : Type := mkWorld {
  w_args : Args;
  w_net : list param;
  w_stdout : list string;
  w_stderr : list string
}.

(** [model.parameters()], the values only. *)
Definition w_params (w : World) : list tensor := map fst (w_net w).

Definition print (lines : list string) (w : World) : World :=
  mkWorld (w_args w) (w_net w) (w_stdout w ++ lines) (w_stderr w).

Definition write_err (line : string) (w : World) : World :=
  mkWorld (w_args w) (w_net w) (w_stdout w) (w_stderr w ++ [line]).

Definition with_args (a : Args) (w : World) : World :=
  mkWorld a (w_net w) (w_stdout w) (w_stderr w).

Definition with_net (net : list param) (w : World) : World :=
  mkWorld (w_args w) net (w_stdout w) (w_stderr w).

Definition vocabulary_warning : string :=
  "Vocabulary Error! Most likely there weren't unks in training and unks are now needed for testing".

(** [test_get_batch(source)] *)
Definition test_get_batch (source : list nat) : list nat * list nat :=
  (removelast source, tl source).

(** The beam-size bookkeeping at the start of [test_evaluate]. *)
Definition normalize_beam (ntokens : nat) (w : World) : World :=
  let a := w_args w in
  if ((complexn a >? Z.of_nat ntokens) || (complexn a <=? 0))%Z then
    let a1 := set_complexn a (Z.of_nat ntokens) in
    let a2 := if (guessn a1 >? Z.of_nat ntokens)%Z
              then set_guessn a1 (Z.of_nat ntokens) else a1 in
    write_err ("Using beamsize: " ++ str_nat ntokens) (with_args a2 w)
  else
    write_err ("Using beamsize: " ++ str_Z (complexn a)) w.

(** The header, as the successive [print(..., end='')] calls build it. *)
Definition header_base (a : Args) (ntokens : nat) : string :=
  let c := csep a in
  (if (complexn a =? Z.of_nat ntokens)%Z
   then "word" ++ c ++ "sentid" ++ c ++ "sentpos" ++ c ++ "wlen" ++ c
        ++ "surp" ++ c ++ "entropy" ++ c ++ "entred"
   else let n := str_Z (complexn a) in
        "word" ++ c ++ "sentid" ++ c ++ "sentpos" ++ c ++ "wlen" ++ c
        ++ "surp" ++ n ++ c ++ "entropy" ++ n ++ c ++ "entred" ++ n)%string.

Definition header_guess (a : Args) (i : nat) : string :=
  let c := csep a in
  ((c ++ "guess") ++ str_nat i
   ++ (if guessscores a then (c ++ "gscore") ++ str_nat i
       else if guessprobs a then (c ++ "gprob") ++ str_nat i
       else if guessratios a then (c ++ "gratio") ++ str_nat i
       else ""))%string.

Definition header_text (a : Args) (ntokens : nat) : string :=
  (header_base a ntokens
   ++ (if guess a
       then String.concat "" (map (header_guess a) (seq 0 (Z.to_nat (guessn a))))
       else ""))%string.

Definition print_header (ntokens : nat) (w : World) : World :=
  let a := w_args w in
  if words a && negb (nocheader a) then print [header_text a ntokens] w else w.

Section Evaluation.

Variable float_repr : ereal -> string.
Variable fmt3 : ereal -> string.

(** The recurrent network: its hidden state, [model.init_hidden(1)], the
    forward pass [model(data, hidden)] (the output flattened) and the
    gradient of the loss with respect to parameter number [k] ([None] for
    a parameter without gradient).  The architecture lives in [model.py]. *)
Variable Hidden : Type.
Variable init_hidden : list tensor -> Hidden.
Variable forward : list tensor -> list nat -> Hidden -> list R * Hidden.
Variable loss_grad :
  list tensor -> list nat -> Hidden -> list nat -> nat -> option tensor.

(** The text printed for [hidden[0][layer]] or [hidden[1][layer]]. *)
Variable show_hidden : Hidden -> Z -> bool -> string.

(** The global [lr] and the dictionary [corpus.dictionary.idx2word]. *)
Variable lr : R.
Variable idx2word : list string.

Definition ntokens : nat := List.length idx2word.

(** The running totals [total_loss] and [nwords]. *)
Definition totals : Type := (ereal * nat)%type.

(** The word-by-word branch ([args.view_layer >= 0]). *)
Fixpoint view_words (data targets : list nat) (hidden : Hidden)
  (t : totals) (w : World) : outcome (Hidden * totals) * World :=
  match data with
  | [] => (Ret (hidden, t), w)
  | word_input :: data' =>
      let w := with_net (zero_grad (w_net w)) w in
      match targets with
      | [] => (Raise IndexError, w)
      | target :: targets' =>
          let '(output, hidden) := forward (w_params w) [word_input] hidden in
          match view_rows output ntokens with
          | Raise e => (Raise e, w)
          | Ret output_flat =>
              match criterion output_flat [target] with
              | Raise e => (Raise e, w)
              | Ret loss =>
                  match index idx2word target with
                  | Raise e => (Raise e, w)
                  | Ret targ_word =>
                      let t := (eadd (fst t) loss, S (snd t)) in
                      let w :=
                        if String.eqb targ_word "<eos>" then w
                        else print [show_hidden hidden (view_layer (w_args w))
                                                (view_hidden (w_args w))] w in
                      view_words data' targets' hidden t w
                  end
              end
          end
      end
  end.

(** The reshape with its handler: the warning is printed and the exception
    raised again. *)
Definition reshape_output (output : list R) (w : World)
  : outcome (list (list R)) * World :=
  match view_rows output ntokens with
  | Ret output_flat => (Ret output_flat, w)
  | Raise RuntimeError => (Raise RuntimeError, print [vocabulary_warning] w)
  | Raise e => (Raise e, w)
  end.

(** The adaptation step at the end of a sentence. *)
Definition adapt_step (data targets : list nat) (hidden0 : Hidden) (w : World)
  : World :=
  let net := backward (w_net w)
                      (loss_grad (w_params w) data hidden0 targets) in
  let net := clip_grad_norm net (clip (w_args w)) in
  with_net (sgd_step lr net) w.

(** The sentence-level branch. *)
Definition whole_sentence (test_sentences : list string) (i : nat)
  (sent : string) (data targets : list nat) (hidden0 : Hidden)
  (t : totals) (w : World) : outcome totals * World :=
  let '(output, hidden) := forward (w_params w) data hidden0 in
  match reshape_output output w with
  | (Raise e, w) => (Raise e, w)
  | (Ret output_flat, w) =>
      match criterion output_flat targets with
      | Raise e => (Raise e, w)
      | Ret loss =>
          let t := (eadd (fst t) loss, snd t) in
          let '(res, w) :=
            if words (w_args w) then
              let '(rows, res) :=
                get_complexity fmt3 (w_args w) idx2word output_flat targets i in
              (res, print (map (row_line float_repr (w_args w)) rows) w)
            else
              match test_sentences with
              | [] => (Ret tt, print [float_repr loss] w)
              | _ => (Ret tt, print [(sent ++ ":" ++ float_repr loss)%string] w)
              end in
          match res with
          | Raise e => (Raise e, w)
          | Ret _ =>
              if adapt (w_args w)
              then (Ret t, adapt_step data targets hidden0 w)
              else (Ret t, w)
          end
      end
  end.

(** The loop over [data_source], from sentence number [i] on. *)
Fixpoint eval_sentences (test_sentences : list string) (i : nat)
  (data_source : list (list nat)) (t : totals) (w : World)
  : outcome totals * World :=
  match data_source with
  | [] => (Ret t, w)
  | sent_ids :: rest =>
      match (match test_sentences with
             | [] => Ret EmptyString
             | _ => index test_sentences i
             end) with
      | Raise e => (Raise e, w)
      | Ret sent =>
          let hidden := init_hidden (w_params w) in
          let '(data, targets) := test_get_batch sent_ids in
          let '(res, w) :=
            if (view_layer (w_args w) >=? 0)%Z then
              match view_words data targets hidden t w with
              | (Ret (_, t), w) => (Ret t, w)
              | (Raise e, w) => (Raise e, w)
              end
            else whole_sentence test_sentences i sent data targets hidden t w in
          match res with
          | Raise e => (Raise e, w)
          | Ret t => eval_sentences test_sentences (S i) rest t w
          end
      end
  end.

(** [total / n] with a Python int divisor. *)
Definition mean_loss (total : ereal) (n : nat) : outcome ereal :=
  match n with
  | O => Raise ZeroDivisionError
  | _ => Ret (emul total (Fin (/ INR n)))
  end.

(** [test_evaluate(test_sentences, data_source)].  The switches that do
    not reach the output or the parameters (cuDNN, [model.eval()], the
    progress bar) are left out. *)
Definition test_evaluate (test_sentences : list string)
  (data_source : list (list nat)) (w : World) : outcome ereal * World :=
  let w := normalize_beam ntokens w in
  let w := print_header ntokens w in
  match eval_sentences test_sentences 0 data_source (Fin 0%R, O) w with
  | (Raise e, w) => (Raise e, w)
  | (Ret (total_loss, nwords), w) =>
      if (view_layer (w_args w) >=? 0)%Z
      then (mean_loss total_loss nwords, w)
      else (mean_loss total_loss (List.length data_source), w)
  end.

(** One round of the interactive loop: any exception of [test_evaluate] is
    caught and reported, and the loop goes on (reading the sentence and
    saving the adapted model are left out).  The second [print] of the
    handler writes two lines; its string keeps the blanks that start the
    continuation lines of the source. *)
Definition interact_message : list string :=
  ["RuntimeError: Most likely one of the input words was out-of-vocabulary.";
   "    Retrain the model with                            A) explicit '<unk>'s in the training set";
   "                                or B) words in validation that aren't present in training."]%string.

Definition interact_round (test_sents : list string) (test_data : list (list nat))
  (w : World) : outcome unit * World :=
  match test_evaluate test_sents test_data w with
  | (Raise _, w) => (Ret tt, print interact_message w)
  | (Ret _, w) => (Ret tt, w)
  end.

(** The batch run: [test_evaluate] on the test data, exceptions propagate. *)
Definition run_test (test_sents : list string) (test_data : list (list nat))
  (w : World) : outcome ereal * World :=
  test_evaluate test_sents test_data w.

End Evaluation.

(** ** The training schedule ([main.py], "Loop over epochs")

    Validation losses and the learning rate are Python floats; the loop
    only compares and divides them, and they are modelled as rationals
    (no NaN). *)

Module Training.

Local Open Scope Q_scope.

(** Python's [not x] on [best_val_loss]: true for [None] and for a zero. *)
Definition py_not (x : option Q) : bool :=
  match x with
  | None => true
  | Some q => Qeq_bool q 0
  end.

(** [a < b] on floats. *)
Definition Qltb (a b : Q) : bool := negb (Qle_bool b a).

(** What one epoch did. *)
Record EpochLog : Type := mkLog {
  e_epoch : nat;
  e_val : Q;
  e_saved : bool;
  e_lr_before : Q;
  e_lr_after : Q;
  e_break : bool
}.

Section Loop.

(** The network, one epoch of [train()] at a learning rate, and
    [evaluate(val_data)]. *)
Variable Model : Type.
Variable train : Model -> Q -> nat -> Model.
Variable evaluate : Model -> Q.

Record TrainState : Type := mkTrain {
  t_model : Model;
  t_lr : Q;
  best_val_loss : option Q;
  no_improvement : nat;
  model_file : option Model
}.

(** The state before the first epoch; [model_file] holds nothing yet. *)
Definition initial (m : Model) (lr : Q) : TrainState :=
  mkTrain m lr None 0 None.

(** The body of the loop for one epoch. *)
Definition epoch_step (epoch : nat) (st : TrainState) : EpochLog * TrainState :=
  let m := train (t_model st) (t_lr st) epoch in
  let val_loss := evaluate m in
  if py_not (best_val_loss st)
     || match best_val_loss st with
        | Some best => Qltb val_loss best
        | None => false
        end
  then
    (mkLog epoch val_loss true (t_lr st) (t_lr st) false,
     mkTrain m (t_lr st) (Some val_loss) 0 (Some m))
  else
    let n := S (no_improvement st) in
    if (3 <=? n)%nat
    then (mkLog epoch val_loss false (t_lr st) (t_lr st) true,
          mkTrain m (t_lr st) (best_val_loss st) n (model_file st))
    else (mkLog epoch val_loss false (t_lr st) (t_lr st / 4) false,
          mkTrain m (t_lr st / 4) (best_val_loss st) n (model_file st)).

(** [for epoch in range(first, first + count)], with the [break]. *)
Fixpoint epochs_from (count first : nat) (st : TrainState)
  : list EpochLog * TrainState :=
  match count with
  | O => ([], st)
  | S count' =>
      let '(log, st') := epoch_step first st in
      if e_break log then ([log], st')
      else let '(logs, st'') := epochs_from count' (S first) st' in
           (log :: logs, st'')
  end.

(** [for epoch in range(1, args.epochs+1)] from the initial state, for a
    run that is left alone: [train()] and [evaluate()] return.  Ctrl+C,
    which the handler around the loop catches, or an exception of
    [train()] or [evaluate()] ends a run after the epochs made so far;
    such a run has made the first epochs of this one. *)
Definition training (epochs : nat) (m : Model) (lr : Q)
  : list EpochLog * TrainState :=
  epochs_from epochs 1 (initial m lr).

End Loop.

Arguments mkTrain {Model}.
Arguments t_model {Model}.
Arguments t_lr {Model}.
Arguments best_val_loss {Model}.
Arguments no_improvement {Model}.
Arguments model_file {Model}.
Arguments initial {Model}.
Arguments epoch_step {Model}.
Arguments epochs_from {Model}.
Arguments training {Model}.

End Training.

(** ** Result aggregation ([compile_results.py])

    A row of a result file after [line.strip().split()], reduced to the two
    fields the script reads: [line[1]] through [int] and [line[4]] through
    [float].  Surprisals and their means are rationals. *)

Module Compile.

Local Open Scope Q_scope.

Record Line : Type := mkLine {
  l_sentid : Z;
  l_surp : Q
}.

(** A result file: its path and its rows after the header line. *)
Record ResultFile : Type := mkFile {
  f_path : string;
  f_rows : list Line
}.

(** [class Entry] *)
Record Entry : Type := mkEntry {
  high_sg : Q;
  low_sg : Q;
  low_pl : Q;
  high_pl : Q
}.

(** [Entry(surps)] *)
Definition new_entry (surps : list Q) : outcome Entry :=
  match surps with
  | a :: b :: c :: d :: _ => Ret (mkEntry a b c d)
  | _ => Raise IndexError
  end.

(** The variables of the file loop.  [surp] is a module-level name: it
    keeps its value from one file to the next and is unbound ([None])
    until its first assignment. *)
Record Vars : Type := mkVars {
  sentID : Z;
  last_line : option Line;
  surps : list Q;
  entries : list Entry;
  surp : option Q
}.

(** [surps.append(x)] followed by [if len(surps) == 4: ...]; the flag says
    whether [surps] is emptied afterwards (it is inside the loop, not
    after it). *)
Definition append_surp (x : Q) (reset : bool) (v : Vars) : outcome Vars :=
  let s := (surps v ++ [x])%list in
  if (List.length s =? 4)%nat then
    e <-! new_entry s ;;
    Ret (mkVars (sentID v) (last_line v) (if reset then [] else s)
                (entries v ++ [e])%list (surp v))
  else Ret (mkVars (sentID v) (last_line v) s (entries v) (surp v)).

(** The body of [for line in data]. *)
Definition line_step (line : Line) (v : Vars) : outcome Vars :=
  let cur_ID := l_sentid line in
  v' <-! (if negb (cur_ID =? sentID v)%Z then
            match last_line v with
            | None => Raise TypeError
            | Some ll =>
                append_surp (l_surp ll) true
                  (mkVars cur_ID (last_line v) (surps v) (entries v)
                          (Some (l_surp ll)))
            end
          else Ret v) ;;
  Ret (mkVars (sentID v') (Some line) (surps v') (entries v') (surp v')).

Fixpoint line_loop (rows : list Line) (v : Vars) : outcome Vars :=
  match rows with
  | [] => Ret v
  | line :: rest => v' <-! line_step line v ;; line_loop rest v'
  end.

(** One file: the loop, then [surps.append(surp)] with whatever [surp]
    holds. *)
Definition file_step (f : ResultFile) (ents : list Entry) (sp : option Q)
  : outcome (list Entry * option Q) :=
  v <-! line_loop (f_rows f) (mkVars 0 None [] ents sp) ;;
  match surp v with
  | None => Raise NameError
  | Some x =>
      v' <-! append_surp x false v ;;
      Ret (entries v', surp v')
  end.

Fixpoint file_loop (files : list ResultFile) (ents : list Entry) (sp : option Q)
  : outcome (list Entry * option Q) :=
  match files with
  | [] => Ret (ents, sp)
  | f :: rest =>
      r <-! file_step f ents sp ;;
      file_loop rest (fst r) (snd r)
  end.

(** [statistics.mean] *)
Definition mean (l : list Q) : outcome Q :=
  match l with
  | [] => Raise StatisticsError
  | _ => Ret (fold_right Qplus 0 l / inject_Z (Z.of_nat (List.length l)))
  end.

(** The four means printed for an experiment. *)
Record Report : Type := mkReport {
  HIGH_SG : Q;
  LOW_SG : Q;
  HIGH_PL : Q;
  LOW_PL : Q
}.

(** [exp in x] on strings. *)
Definition contains (sub s : string) : bool :=
  match String.index 0 sub s with
  | Some _ => true
  | None => false
  end.

(** [list(filter(lambda x: exp in x, files))] *)
Definition red_files (exp : string) (files : list ResultFile) : list ResultFile :=
  filter (fun f => contains exp (f_path f)) files.

(** The body of [for exp in exps]. *)
Definition experiment (exp : string) (files : list ResultFile) (sp : option Q)
  : outcome (Report * option Q) :=
  r <-! file_loop (red_files exp files) [] sp ;;
  let ents := fst r in
  hs <-! mean (map high_sg ents) ;;
  ls <-! mean (map low_sg ents) ;;
  hp <-! mean (map high_pl ents) ;;
  lp <-! mean (map low_pl ents) ;;
  Ret (mkReport hs ls hp lp, snd r).

Definition en_exps : list string := ["replication"; "extension"; "ic"; "rc"]%string.
Definition es_exps : list string := ["replication"; "extension"]%string.

Fixpoint experiments (exps : list string) (files : list ResultFile)
  (sp : option Q) : outcome (list Report * option Q) :=
  match exps with
  | [] => Ret ([], sp)
  | exp :: rest =>
      r <-! experiment exp files sp ;;
      rs <-! experiments rest files (snd r) ;;
      Ret (fst r :: fst rs, snd rs)
  end.

(** The script: the English files, then the Spanish ones. *)
Definition script (en_files es_files : list ResultFile)
  : outcome (list Report * list Report) :=
  en <-! experiments en_exps en_files None ;;
  es <-! experiments es_exps es_files (snd en) ;;
  Ret (fst en, fst es).

End Compile.

(** ** Vocabulary of the statements *)

(** The sign of a float as Python's comparison with [0] sees it. *)
Definition nonneg (x : ereal) : Prop :=
  match x with
  | Fin r => (0 <= r)%R
  | PInf => True
  | _ => False
  end.

(** Decreasing order of scores. *)
Definition desc (a b : R * nat) : Prop := (fst b <= fst a)%R.

(** Membership of an index in a list of indices. *)
Definition mem (i : nat) (top : list nat) : bool := existsb (Nat.eqb i) top.

(** The score vector with every class outside [top] replaced by [fill]. *)
Definition masked (fill : ereal) (top : list nat) (state : list R) : list ereal :=
  map (fun p => if mem (snd p) top then Fin (fst p) else fill) (enumerate state).

(** Base-2 logarithm. *)
Definition log2 (x : R) : R := (ln x / ln 2)%R.

(** The surprisal of a word of probability [q] as the output shows it:
    [-log2 q], and [inf] when [q] is below [1 / float_max] (so also for
    [q = 0]), where the exponential of the surprisal, [1 / q], is above
    the largest float. *)
Definition shown_surprisal (q : R) : ereal :=
  if Rlt_dec q (/ float_max) then PInf else Fin (- log2 q)%R.

(** The softmax distribution of a score vector over the whole vocabulary. *)
Definition softmax_dist (row : list R) : list R :=
  map (fun x => (exp x / Rsum (map exp row))%R) row.

(** Shannon entropy in bits, with [0 * log 0 = 0]. *)
Definition shannon_bits (p : list R) : R :=
  (- Rsum (map (fun q => q * log2 q) p))%R.

(** The distribution limited to the classes in [top]: probability zero
    outside [top], and inside it the softmax weights divided by their sum
    over [top]. *)
Definition topk_weight (top : list nat) (p : R * nat) : R :=
  if mem (snd p) top then exp (fst p) else 0%R.

Definition topk_mass (top : list nat) (row : list R) : R :=
  Rsum (map (topk_weight top) (enumerate row)).

Definition topk_dist (top : list nat) (row : list R) : list R :=
  map (fun p => (topk_weight top p / topk_mass top row)%R) (enumerate row).

(** Entries of the restricted score vector, of its log-softmax and of the
    entropy sum, as the proofs name them. *)
Local Open Scope R_scope.

Definition mask_entry (top : list nat) (p : R * nat) : ereal :=
  if mem (snd p) top then Fin (fst p) else NInf.

Definition log_entry (z : R) (x : ereal) : ereal :=
  match x with
  | Fin r => Fin (r - ln z)
  | _ => NInf
  end.

(** One term of the entropy sum, in nats. *)
Definition entropy_term (top : list nat) (z : R) (p : R * nat) : R :=
  if mem (snd p) top then exp (fst p) / z * (fst p - ln z) else 0.

Local Close Scope R_scope.

(** [Hs[p]]: the entropy of a row of scores, in bits. *)
Definition entropy_bits (args : Args) (row : list R) : outcome ereal :=
  h <-! get_entropy args row ;; Ret (nats_to_bits h).

(** ** A small run used to exercise the statements

    Two words, two positions; the scores of the first position favour the
    first word three to one, those of the second position are even. *)

Definition ex_args : Args :=
  mkArgs false true false " " false 1 false false false 2 false (-1) false
         false false false (1 / 4)%R.

Definition ex_vocab : list string := ["a"; "b"]%string.

Definition ex_state : list (list R) := [[ln 3; 0]; [0; 0]]%R.

Definition ex_obs : list nat := [0; 1]%nat.

Definition ex_fmt (x : ereal) : string := "x"%string.

Definition ex_rows : list crow :=
  fst (get_complexity ex_fmt ex_args ex_vocab ex_state ex_obs 0).

(** The entropy at position [p - 1] minus the entropy at position [p]; at
    position 0 the position itself stands in for its predecessor. *)
Definition entropy_drop (args : Args) (state : list (list R)) (p : nat)
  : outcome ereal :=
  rowprev <-! index state (p - 1) ;;
  row <-! index state p ;;
  a <-! entropy_bits args rowprev ;;
  b <-! entropy_bits args row ;;
  Ret (esub a b).

(** A run in which the first position all but excludes the second word:
    the scores are 100 against 0, and the second word is the one
    observed. *)
Definition ex_state_steep : list (list R) := [[100; 0]; [0; 0]]%R.

Definition ex_obs_steep : list nat := [1; 0]%nat.

(** The same run with the beam limited to the best class. *)
Definition ex_args_top1 : Args := set_complexn ex_args 1.

Definition ex_rows_top1 : list crow :=
  fst (get_complexity ex_fmt ex_args_top1 ex_vocab ex_state ex_obs 0).

Definition ex_world_top1 : World := mkWorld ex_args_top1 [] [] [].

(** [w'] has the parameters and the arguments of [w]. *)
Definition same_model (w w' : World) : Prop :=
  w_params w' = w_params w /\ w_args w' = w_args w.

(** ** A small network used to exercise the evaluation loop

    One parameter, no hidden state; the forward pass gives [width] scores,
    all zero, for every input word. *)

Definition ex_forward (width : nat) (_ : list tensor) (data : list nat) (_ : unit)
  : list R * unit :=
  (flat_map (fun _ => repeat 0%R width) data, tt).

Definition ex_init_hidden (_ : list tensor) : unit := tt.

Definition ex_loss_grad (_ : list tensor) (_ : list nat) (_ : unit)
  (_ : list nat) (_ : nat) : option tensor := None.

Definition ex_show_hidden (_ : unit) (_ : Z) (_ : bool) : string := "h"%string.

Definition ex_world : World := mkWorld ex_args [([1; 2]%R, None)] [] [].

(** A test set of one sentence, [a b a]. *)
Definition ex_data : list (list nat) := [[0; 1; 0]%nat].

(** The reshape of the network's output for one sentence, before the
    handler. *)
Definition sentence_reshape (Hidden : Type) (init_hidden : list tensor -> Hidden)
  (forward : list tensor -> list nat -> Hidden -> list R * Hidden)
  (idx2word : list string) (w : World) (sent_ids : list nat)
  : outcome (list (list R)) :=
  view_rows (fst (forward (w_params w) (fst (test_get_batch sent_ids))
                          (init_hidden (w_params w))))
            (ntokens idx2word).

(** A test set of one two-word sentence, [a b]. *)
Definition ex_short_data : list (list nat) := [[0; 1]%nat].

(** The column names of the header, in the order they are printed. *)
Definition header_guess_names (a : Args) (i : nat) : list string :=
  ("guess" ++ str_nat i)%string ::
  (if guessscores a then [("gscore" ++ str_nat i)%string]
   else if guessprobs a then [("gprob" ++ str_nat i)%string]
   else if guessratios a then [("gratio" ++ str_nat i)%string]
   else []).

Definition header_base_names (a : Args) (ntokens : nat) : list string :=
  (if (complexn a =? Z.of_nat ntokens)%Z
   then ["word"; "sentid"; "sentpos"; "wlen"; "surp"; "entropy"; "entred"]
   else ["word"; "sentid"; "sentpos"; "wlen";
         "surp" ++ str_Z (complexn a); "entropy" ++ str_Z (complexn a);
         "entred" ++ str_Z (complexn a)])%string.

Definition header_names (a : Args) (ntokens : nat) : list string :=
  header_base_names a ntokens
  ++ (if guess a
      then flat_map (header_guess_names a) (seq 0 (Z.to_nat (guessn a)))
      else []).

(** A run with two guesses per word and both [--guessratios] and
    [--guessprobs] set, and the same run with [--guessprobs] alone. *)
Definition ex_args_guess : Args :=
  mkArgs false true false " " true 2 false true true 2 false (-1) false
         false false false (1 / 4)%R.

Definition ex_args_gprob : Args :=
  mkArgs false true false " " true 2 false false true 2 false (-1) false
         false false false (1 / 4)%R.

Definition ex_state_guess : list (list R) := [[2; 1]; [2; 1]]%R.

(** ** Vocabulary for the training schedule *)

(** The number of epochs without a save at the start of a list, and at the
    end of a list of epochs. *)
Fixpoint leading_unsaved (logs : list Training.EpochLog) : nat :=
  match logs with
  | [] => 0
  | l :: rest => if Training.e_saved l then 0 else S (leading_unsaved rest)
  end.

Definition trailing_unsaved (logs : list Training.EpochLog) : nat :=
  leading_unsaved (rev logs).


(** Runs of the schedule on a network that is just a count of the epochs
    trained: a validation loss that stays at 1, one that stays at 0, and
    one that falls and then stalls. *)
Definition ex_train (m : nat) (_ : Q) (_ : nat) : nat := S m.


Definition ex_zero_loss (_ : nat) : Q := 0%Q.




Definition ex_zero_trace : list Training.EpochLog :=
  fst (Training.training ex_train ex_zero_loss 3 0%nat 20%Q).




(** ** Vocabulary for the aggregation *)

(** The surprisal of the last row carrying each sentence id, in the order
    of the sentences. *)
Fixpoint final_surps (rows : list Compile.Line) : list Q :=
  match rows with
  | [] => []
  | l :: rest =>
      match rest with
      | [] => [Compile.l_surp l]
      | l' :: _ =>
          if (Compile.l_sentid l' =? Compile.l_sentid l)%Z
          then final_surps rest
          else Compile.l_surp l :: final_surps rest
      end
  end.

(** Consecutive groups of four sentences: high_sg, low_sg, low_pl, high_pl. *)
Fixpoint groups_of_four (s : list Q) : list Compile.Entry :=
  match s with
  | a :: b :: c :: d :: rest => Compile.mkEntry a b c d :: groups_of_four rest
  | _ => []
  end.

(** The report the claim describes for a set of result files. *)
Definition described_report (files : list Compile.ResultFile)
  : outcome Compile.Report :=
  let ents := flat_map (fun f => groups_of_four (final_surps (Compile.f_rows f)))
                       files in
  hs <-! Compile.mean (map Compile.high_sg ents) ;;
  ls <-! Compile.mean (map Compile.low_sg ents) ;;
  hp <-! Compile.mean (map Compile.high_pl ents) ;;
  lp <-! Compile.mean (map Compile.low_pl ents) ;;
  Ret (Compile.mkReport hs ls hp lp).

(** One result file of the replication experiment: four sentences of two
    words each, whose final words have surprisal 1, 2, 3 and 4. *)
Definition ex_result_rows : list Compile.Line :=
  [Compile.mkLine 0 5; Compile.mkLine 0 1;
   Compile.mkLine 1 5; Compile.mkLine 1 2;
   Compile.mkLine 2 5; Compile.mkLine 2 3;
   Compile.mkLine 3 5; Compile.mkLine 3 4]%Q.

Definition ex_results : list Compile.ResultFile :=
  [Compile.mkFile "results/EN/en_0_replication_measures" ex_result_rows].

(** The English result files of one model for two of the experiments. *)
Definition ex_two_experiments : list Compile.ResultFile :=
  [Compile.mkFile "results/EN/en_0_replication_measures" ex_result_rows;
   Compile.mkFile "results/EN/en_0_ic_measures" ex_result_rows].

(** ** Tactics *)

(** Decide the comparisons of concrete reals met while running the model. *)
Ltac rdec :=
  repeat match goal with
  | |- context [Rlt_dec ?a ?b] =>
      destruct (Rlt_dec a b); [try (exfalso; lra) | try (exfalso; lra)]
  | |- context [Req_dec_T ?a ?b] =>
      destruct (Req_dec_T a b); [try (exfalso; lra) | try (exfalso; lra)]
  end.

Ltac run_complexity :=
  unfold get_complexity, complexity_tensors, apply, get_entropy,
    get_surps, get_guesses, get_guessscores, beam_of, topk;
  simpl; unfold sort_desc, enumerate; simpl; rdec; simpl;
  repeat (progress (unfold make_row, output_guesses, guess_score, index, Hs_at;
                    simpl; rdec)).

(** A run with [--guess] and no guess to show. *)
Definition ex_args_noguess : Args :=
  mkArgs false true false " " true 0 false false false 2 false (-1) false
         false false false (1 / 4)%R.

(** * Further code of the repository *)

(** ** Vocabulary for the aggregation of a file *)

(** The variables of the file loop that the rest of the script reads:
    everything but [last_line]. *)
Definition vars_core (v : Compile.Vars)
  : Z * list Q * list Compile.Entry * option Q :=
  (Compile.sentID v, Compile.surps v, Compile.entries v, Compile.surp v).

(** When [surps] holds something, its last item is the value of [surp]. *)
Definition surp_is_last (v : Compile.Vars) : Prop :=
  match Compile.surps v with
  | [] => True
  | _ => Compile.surp v = Some (last (Compile.surps v) 0%Q)
  end.

(** ** Vocabulary for the checkpoint *)


(** The counter of epochs without improvement counts the epochs since the
    last save, and the loop runs on only while it is below 3. *)
Definition counter_inv {Model : Type}
  (pre : list Training.EpochLog) (st : Training.TrainState Model) : Prop :=
  Training.no_improvement st = trailing_unsaved pre /\
  (Training.no_improvement st < 3)%nat.

(** The epochs of a run that Ctrl+C, or an exception of [train()] or
    [evaluate()], ends after [n] complete epochs: the first [n] epochs of
    the run that is left alone (all of them when [n] is its length or
    more). *)
Definition run_cut_after {Model : Type} (train : Model -> Q -> nat -> Model)
  (evaluate : Model -> Q) (epochs : nat) (m : Model) (lr : Q) (n : nat)
  : list Training.EpochLog :=
  firstn n (fst (Training.training train evaluate epochs m lr)).

(** ** Running the test suites ([run_test.py])

    A call of [subprocess.run] is the list of its arguments; its result is
    not looked at by the script.  The model number is the integer read
    from the command line. *)

Module RunTest.

Local Open Scope string_scope.

(** The chain of [if]s that binds [modelFile]; [None] is a name that was
    never bound. *)
Definition bind_if (cond : bool) (value : string) (name : option string)
  : option string :=
  if cond then Some value else name.

Definition model_file_for (lang : string) (modelNUM : Z) : option string :=
  let modelFile := None in
  let modelFile :=
    if lang =? "en" then
      let modelFile :=
        bind_if (modelNUM =? 0)%Z
          "models/en_models/hidden650_batch128_dropout0.2_lr20.0.pt" modelFile in
      let modelFile :=
        bind_if (modelNUM =? 1)%Z
          "models/en_models/en_hidden650_batch128_dropout0.2_lr20_1.pt" modelFile in
      let modelFile :=
        bind_if (modelNUM =? 2)%Z
          "models/en_models/en_hidden650_batch128_dropout0.2_lr20_2.pt" modelFile in
      let modelFile :=
        bind_if (modelNUM =? 3)%Z
          "models/en_models/en_hidden650_batch128_dropout0.2_lr20_3.pt" modelFile in
      bind_if (modelNUM =? 4)%Z
        "models/en_models/en_hidden650_batch128_dropout0.2_lr20_4.pt" modelFile
    else modelFile in
  if lang =? "es" then
    let modelFile :=
      bind_if (modelNUM =? 0)%Z
        "models/es_models/es_hidden650_batch64_dropout0.2_lr20_0.pt" modelFile in
    let modelFile :=
      bind_if (modelNUM =? 1)%Z
        "models/es_models/es_hidden650_batch64_dropout0.2_lr20_1.pt" modelFile in
    let modelFile :=
      bind_if (modelNUM =? 2)%Z
        "models/es_models/es_hidden650_batch64_dropout0.2_lr20_2.pt" modelFile in
    let modelFile :=
      bind_if (modelNUM =? 3)%Z
        "models/es_models/es_hidden650_batch64_dropout0.2_lr20_3.pt" modelFile in
    bind_if (modelNUM =? 4)%Z
      "models/es_models/es_hidden650_batch64_dropout0.2_lr20_4.pt" modelFile
  else modelFile.

(** [generate_results(sentsFile, dataFile, lang, modelNUM)]: the command
    that is run; using [modelFile] unbound raises an UnboundLocalError, a
    NameError. *)
Definition generate_results (sentsFile dataFile lang : string) (modelNUM : Z)
  : outcome (list string) :=
  match model_file_for lang modelNUM with
  | None => Raise NameError
  | Some modelFile =>
      Ret ["./test_results.sh"; modelFile; sentsFile; lang; dataFile]
  end.

(** The experiments of a language, as (stimuli file, results file). *)
Definition en_runs (model_num : Z) : list (string * string) :=
  [("stimuli/en_replication_stimuli",
    "results/EN/en_" ++ str_Z model_num ++ "_replication_measures");
   ("stimuli/en_extension_stimuli",
    "results/EN/en_" ++ str_Z model_num ++ "_extension_measures");
   ("stimuli/en_ic_stimuli",
    "results/EN/en_" ++ str_Z model_num ++ "_ic_measures");
   ("stimuli/en_rc_stimuli",
    "results/EN/en_" ++ str_Z model_num ++ "_rc_measures")].

Definition es_runs (model_num : Z) : list (string * string) :=
  [("stimuli/es_replication_stimuli",
    "results/ES/es_" ++ str_Z model_num ++ "_replication_measures");
   ("stimuli/es_extension_stimuli",
    "results/ES/es_" ++ str_Z model_num ++ "_extension_measures")].

(** The calls of [generate_results] one after the other; the first
    exception ends the script. *)
Definition run_all (runs : list (string * string)) (lang : string)
  (model_num : Z) : outcome (list (list string)) :=
  mapM (fun r => generate_results (fst r) (snd r) lang model_num) runs.

(** The body of the script after the arguments are read. *)
Definition main (lang : string) (model_num : Z) : outcome (list (list string)) :=
  en <-! (if lang =? "en" then run_all (en_runs model_num) lang model_num
          else Ret []) ;;
  es <-! (if lang =? "es" then run_all (es_runs model_num) lang model_num
          else Ret []) ;;
  Ret (en ++ es)%list.

End RunTest.

(** The experiment names of [compile_results.py] for a language of
    [run_test.py], and the directory its result files are read from. *)
Definition exps_of (lang : string) : list string :=
  if (lang =? "en")%string then Compile.en_exps else Compile.es_exps.

Definition results_dir (lang : string) : string :=
  if (lang =? "en")%string then "results/EN/"%string else "results/ES/"%string.

(** ** Batches for training and validation ([batchify], [get_batch],
    [evaluate])

    A two-dimensional tensor of token ids is the list of its rows. *)

Module Batches.

Definition Matrix : Type := list (list nat).

(** [t.view(rows, -1)] on a tensor of [rows * n] entries *)
Fixpoint rows_of {A} (rows n : nat) (l : list A) : list (list A) :=
  match rows with
  | O => []
  | S r => firstn n l :: rows_of r n (skipn n l)
  end.

(** [m.t()] for [m] with [cols] columns *)
Definition transpose {A} (d : A) (cols : nat) (m : list (list A)) : list (list A) :=
  map (fun i => map (fun row => nth i row d) m) (seq 0 cols).

(** [batchify(data, bsz)].  A negative [bsz] fails in [narrow] or in
    [view], with a RuntimeError either way. *)
Definition batchify (data : list nat) (bsz : Z) : outcome Matrix :=
  if (bsz =? 0)%Z then Raise ZeroDivisionError
  else
    let nbatch := (Z.of_nat (List.length data) / bsz)%Z in
    if (bsz <? 0)%Z then Raise RuntimeError
    else
      let data := firstn (Z.to_nat (nbatch * bsz)) data in
      Ret (transpose 0%nat (Z.to_nat nbatch)
                     (rows_of (Z.to_nat bsz) (Z.to_nat nbatch) data)).

(** [l[start:stop]]: negative bounds count from the end, and both are
    clipped to the length. *)
Definition slice_bound (n i : Z) : Z :=
  if (i <? 0)%Z then Z.max 0 (i + n) else Z.min i n.

Definition py_slice {A} (l : list A) (start stop : Z) : list A :=
  let n := Z.of_nat (List.length l) in
  let a := slice_bound n start in
  let b := slice_bound n stop in
  firstn (Z.to_nat (b - a)) (skipn (Z.to_nat a) l).

(** [range(start, stop, step)] *)
Definition py_range (start stop step : Z) : outcome (list Z) :=
  if (step =? 0)%Z then Raise ValueError
  else
    let n := if (0 <? step)%Z then ((stop - start + step - 1) / step)%Z
             else ((start - stop - step - 1) / (- step))%Z in
    Ret (map (fun k => (start + Z.of_nat k * step)%Z) (seq 0 (Z.to_nat n))).

(** [get_batch(source, i)] *)
Definition get_batch (bptt : Z) (source : Matrix) (i : Z) : Matrix * list nat :=
  let seq_len := Z.min bptt (Z.of_nat (List.length source) - 1 - i) in
  let data := py_slice source i (i + seq_len) in
  let target := concat (py_slice source (i + 1) (i + 1 + seq_len)) in
  (data, target).

Section Evaluate.

(** The network on a batch: [model.init_hidden(args.batch_size)] and
    [model(data, hidden)] with the output flattened. *)
Variable Hidden : Type.
Variable init_hidden : list tensor -> Z -> Hidden.
Variable forward : list tensor -> Matrix -> Hidden -> list R * Hidden.

(** [args.bptt], [args.batch_size], [len(corpus.dictionary)] and the
    parameters of the model. *)
Variable bptt batch_size : Z.
Variable ntokens : nat.
Variable params : list tensor.

Fixpoint evaluate_loop (data_source : Matrix) (idxs : list Z) (hidden : Hidden)
  (total_loss : ereal) : outcome ereal :=
  match idxs with
  | [] => Ret total_loss
  | i :: rest =>
      let '(data, targets) := get_batch bptt data_source i in
      let '(output, hidden) := forward params data hidden in
      output_flat <-! view_rows output ntokens ;;
      loss <-! criterion output_flat targets ;;
      evaluate_loop data_source rest hidden
        (eadd total_loss (emul (Fin (INR (List.length data))) loss))
  end.

(** [evaluate(data_source)] *)
Definition evaluate (data_source : Matrix) : outcome ereal :=
  let hidden := init_hidden params batch_size in
  idxs <-! py_range 0 (Z.of_nat (List.length data_source) - 1) bptt ;;
  total_loss <-! evaluate_loop data_source idxs hidden (Fin 0%R) ;;
  mean_loss total_loss (List.length data_source).

End Evaluate.

End Batches.

(** ** Further runs used to exercise the statements *)

(** Three guesses asked of a vocabulary of two words. *)
Definition ex_world_guess3 : World :=
  mkWorld (set_guessn ex_args_guess 3) [] [] [].

(** An adapting run that asks for the hidden states of layer 0, and a
    gradient that is never zero. *)
Definition ex_args_view : Args :=
  mkArgs true true false " " false 1 false false false 2 false 0 false
         false false false (1 / 4)%R.

Definition ex_world_view : World := mkWorld ex_args_view [([1; 2]%R, None)] [] [].

Definition ex_steep_grad (_ : list tensor) (_ : list nat) (_ : unit)
  (_ : list nat) (_ : nat) : option tensor := Some [3; 4]%R.

Definition ex_world_adapt : World :=
  mkWorld (mkArgs true true false " " false 1 false false false 2 false (-1)
                  false false false false (1 / 4)%R)
          [([1; 2]%R, None)] [] [].

(** The loss of one batch, as the loop of [evaluate] computes it. *)
Definition batch_loss {Hidden : Type}
  (forward : list tensor -> Batches.Matrix -> Hidden -> list R * Hidden)
  (params : list tensor) (ntokens : nat)
  (data : Batches.Matrix) (targets : list nat) (hidden : Hidden)
  : outcome ereal :=
  output_flat <-! view_rows (fst (forward params data hidden)) ntokens ;;
  criterion output_flat targets.

(** A network that scores two classes evenly for every token of a
    batch. *)
Definition ex_even_forward (_ : list tensor) (data : Batches.Matrix) (h : unit)
  : list R * unit :=
  (flat_map (fun row => flat_map (fun _ => [0; 0]%R) row) data, h).

Definition ex_source : Batches.Matrix := [[0]; [1]; [0]]%nat.

(** * Properties *)

(** ** Facts about [topk] and [scatter] *)

Section TopkFacts.

Local Open Scope R_scope.


Lemma insert_desc_perm x l : Permutation (insert_desc x l) (x :: l).
Proof.
  induction l as [|y l IH]; simpl.
  - apply Permutation_refl.
  - destruct (Rlt_dec (fst x) (fst y)).
    + eapply perm_trans; [apply perm_skip, IH | apply perm_swap].
    + apply Permutation_refl.
Qed.

Lemma sort_desc_perm l : Permutation (sort_desc l) l.
Proof.
  induction l as [|x l IH]; simpl.
  - apply perm_nil.
  - eapply perm_trans; [apply insert_desc_perm | apply perm_skip, IH].
Qed.

Lemma insert_desc_sorted x l :
  StronglySorted desc l -> StronglySorted desc (insert_desc x l).
Proof.
  induction l as [|y l IH]; simpl; intros Hs.
  - constructor; constructor.
  - inversion Hs as [|? ? Hl Hall]; subst.
    destruct (Rlt_dec (fst x) (fst y)) as [Hlt|Hge].
    + constructor; [apply IH, Hl|].
      rewrite Forall_forall in *. intros z Hz.
      apply (Permutation_in _ (insert_desc_perm x l)) in Hz.
      destruct Hz as [<-|Hz]; [unfold desc; lra | apply Hall, Hz].
    + constructor; [exact Hs|].
      constructor; [unfold desc; lra|].
      rewrite Forall_forall in *. intros z Hz.
      specialize (Hall z Hz). unfold desc in *. lra.
Qed.

Lemma sort_desc_sorted l : StronglySorted desc (sort_desc l).
Proof.
  induction l as [|x l IH]; simpl.
  - constructor.
  - apply insert_desc_sorted, IH.
Qed.

(** In a sorted list every entry of a prefix dominates every later entry. *)
Lemma sorted_prefix_dominates l :
  StronglySorted desc l ->
  forall k a b, In a (firstn k l) -> In b (skipn k l) -> fst b <= fst a.
Proof.
  induction 1 as [|x l Hs IH Hall]; intros k a b Ha Hb.
  - destruct k; simpl in Ha; contradiction.
  - destruct k as [|k]; simpl in Ha, Hb; [contradiction|].
    destruct Ha as [<-|Ha].
    + rewrite Forall_forall in Hall. apply (Hall b).
      rewrite <- (firstn_skipn k l). apply in_or_app. right. exact Hb.
    + exact (IH k a b Ha Hb).
Qed.

Lemma enumerate_from_In {A} (v : list A) : forall start x i,
  In (x, i) (combine v (seq start (List.length v))) <->
  (start <= i)%nat /\ nth_error v (i - start) = Some x.
Proof.
  induction v as [|a v IH]; intros start x i; simpl.
  - split; [contradiction|]. intros [_ H]. destruct (i - start)%nat; discriminate.
  - rewrite IH. split.
    + intros [H|[Hle Hn]].
      * injection H as <- <-. rewrite Nat.sub_diag. split; [lia | reflexivity].
      * split; [lia|]. replace (i - start)%nat with (S (i - S start)) by lia.
        exact Hn.
    + intros [Hle Hn]. destruct (Nat.eq_dec i start) as [->|Hne].
      * rewrite Nat.sub_diag in Hn. simpl in Hn. injection Hn as ->. left. reflexivity.
      * right. split; [lia|].
        replace (i - start)%nat with (S (i - S start)) in Hn by lia. exact Hn.
Qed.

Lemma enumerate_In {A} (v : list A) x i :
  In (x, i) (enumerate v) <-> nth_error v i = Some x.
Proof.
  unfold enumerate. rewrite enumerate_from_In, Nat.sub_0_r.
  split; [intros [_ H]; exact H | intros H; split; [lia | exact H]].
Qed.

Lemma enumerate_snd {A} (v : list A) :
  map snd (enumerate v) = seq 0 (List.length v).
Proof.
  unfold enumerate. generalize 0%nat. induction v as [|a v IH]; intros s; simpl.
  - reflexivity.
  - f_equal. apply IH.
Qed.

Lemma enumerate_length {A} (v : list A) :
  List.length (enumerate v) = List.length v.
Proof.
  unfold enumerate. rewrite length_combine, length_seq. apply Nat.min_id.
Qed.


Lemma mem_In i top : mem i top = true <-> In i top.
Proof.
  unfold mem. rewrite existsb_exists. split.
  - intros (j & Hj & He). apply Nat.eqb_eq in He. subst. exact Hj.
  - intros H. exists i. split; [exact H | apply Nat.eqb_refl].
Qed.

(** What [topk] returns. *)
Lemma topk_ret v k vals ixs :
  topk v k = Ret (vals, ixs) ->
  (0 <= k <= Z.of_nat (List.length v))%Z /\
  List.length ixs = Z.to_nat k /\ List.length vals = Z.to_nat k /\
  NoDup ixs /\
  (forall j i, nth_error ixs j = Some i ->
               exists x, nth_error vals j = Some x /\ nth_error v i = Some x) /\
  (forall i j x y, In i ixs -> ~ In j ixs ->
                   nth_error v i = Some x -> nth_error v j = Some y -> y <= x).
Proof.
  unfold topk.
  destruct ((k <? 0)%Z || (Z.of_nat (List.length v) <? k)%Z) eqn:Hk; [discriminate|].
  apply orb_false_iff in Hk. destruct Hk as [Hk1 Hk2].
  apply Z.ltb_ge in Hk1. apply Z.ltb_ge in Hk2.
  set (srt := sort_desc (enumerate v)).
  set (s := firstn (Z.to_nat k) srt).
  intros H. injection H as <- <-.
  assert (Hperm : Permutation srt (enumerate v)) by apply sort_desc_perm.
  assert (Hlen : List.length s = Z.to_nat k).
  { unfold s. rewrite length_firstn, (Permutation_length Hperm), enumerate_length. lia. }
  assert (Hnd : NoDup (map snd srt)).
  { eapply Permutation_NoDup; [apply Permutation_map, Permutation_sym, Hperm|].
    rewrite enumerate_snd. apply seq_NoDup. }
  assert (Hin : forall p, In p srt -> nth_error v (snd p) = Some (fst p)).
  { intros [x i] Hp. apply enumerate_In. eapply Permutation_in; eauto. }
  split; [lia|]. split; [now rewrite length_map|]. split; [now rewrite length_map|].
  split; [|split].
  - rewrite <- (firstn_skipn (Z.to_nat k) srt), map_app in Hnd.
    apply NoDup_app_remove_r in Hnd. exact Hnd.
  - intros j i Hj. rewrite nth_error_map in Hj.
    destruct (nth_error s j) as [p|] eqn:Hp; [|discriminate].
    injection Hj as <-. exists (fst p). rewrite nth_error_map, Hp. split; [reflexivity|].
    apply Hin. apply nth_error_In in Hp. unfold s in Hp.
    rewrite <- (firstn_skipn (Z.to_nat k) srt). apply in_or_app. left. exact Hp.
  - intros i j x y Hi Hj Hx Hy.
    apply in_map_iff in Hi. destruct Hi as (p & <- & Hp).
    assert (Hq : In (y, j) srt).
    { eapply Permutation_in; [apply Permutation_sym, Hperm | apply enumerate_In, Hy]. }
    rewrite <- (firstn_skipn (Z.to_nat k) srt) in Hq.
    apply in_app_or in Hq. destruct Hq as [Hq|Hq].
    + exfalso. apply Hj. apply in_map_iff. exists (y, j). split; [reflexivity | exact Hq].
    + assert (Hfx : fst p = x).
      { assert (Hp' : In p srt).
        { rewrite <- (firstn_skipn (Z.to_nat k) srt). apply in_or_app. left. exact Hp. }
        apply Hin in Hp'. rewrite Hx in Hp'. injection Hp' as ->. reflexivity. }
      rewrite <- Hfx.
      apply (sorted_prefix_dominates _ (sort_desc_sorted (enumerate v)) (Z.to_nat k) p (y, j) Hp Hq).
Qed.

End TopkFacts.

(** ** The restricted score vector *)

Section BeamFacts.

Lemma upd_length {A} (l : list A) : forall i a,
  List.length (upd l i a) = List.length l.
Proof.
  induction l as [|h t IH]; intros [|i] a; simpl; auto.
Qed.

Lemma upd_same {A} (l : list A) : forall i a,
  (i < List.length l)%nat -> nth_error (upd l i a) i = Some a.
Proof.
  induction l as [|h t IH]; intros [|i] a Hlt; simpl in *; try lia.
  - reflexivity.
  - apply IH. lia.
Qed.

Lemma upd_other {A} (l : list A) : forall i j a,
  i <> j -> nth_error (upd l i a) j = nth_error l j.
Proof.
  induction l as [|h t IH]; intros [|i] [|j] a Hne; simpl; auto.
  - contradiction.
Qed.

Lemma scatter_length {A} (ix : list nat) : forall (vals base : list A),
  List.length (scatter base ix vals) = List.length base.
Proof.
  induction ix as [|i ix IH]; intros [|v vals] base; simpl; auto.
  rewrite IH. apply upd_length.
Qed.

Lemma scatter_outside {A} (ix : list nat) : forall (vals base : list A) i,
  ~ In i ix -> nth_error (scatter base ix vals) i = nth_error base i.
Proof.
  induction ix as [|i0 ix IH]; intros [|v vals] base i Hni; simpl; auto.
  rewrite IH.
  - apply upd_other. intros ->. apply Hni. left. reflexivity.
  - intros H. apply Hni. right. exact H.
Qed.

Lemma scatter_inside {A} (ix : list nat) : forall (vals base : list A) j i,
  NoDup ix -> List.length ix = List.length vals ->
  (forall i', In i' ix -> (i' < List.length base)%nat) ->
  nth_error ix j = Some i ->
  nth_error (scatter base ix vals) i = nth_error vals j.
Proof.
  induction ix as [|i0 ix IH]; intros [|v vals] base j i Hnd Hlen Hlt Hj;
    simpl in *; try discriminate.
  - destruct j; discriminate.
  - inversion Hnd as [|? ? Hni Hnd']; subst.
    destruct j as [|j]; simpl in *.
    + injection Hj as ->. rewrite scatter_outside by exact Hni.
      apply upd_same. apply Hlt. left. reflexivity.
    + apply IH; auto.
      intros i' Hi'. rewrite upd_length. apply Hlt. right. exact Hi'.
Qed.

Lemma nth_error_enumerate_from {A} (v : list A) : forall start i,
  nth_error (combine v (seq start (List.length v))) i =
  option_map (fun x => (x, (start + i)%nat)) (nth_error v i).
Proof.
  induction v as [|a v IH]; intros start [|i]; simpl; auto.
  - rewrite Nat.add_0_r. reflexivity.
  - rewrite IH. rewrite Nat.add_succ_r. reflexivity.
Qed.

Lemma nth_error_enumerate {A} (v : list A) i :
  nth_error (enumerate v) i = option_map (fun x => (x, i)) (nth_error v i).
Proof. apply (nth_error_enumerate_from v 0 i). Qed.

Lemma nth_error_masked fill top state i :
  nth_error (masked fill top state) i =
  option_map (fun x => if mem i top then Fin x else fill) (nth_error state i).
Proof.
  unfold masked. rewrite nth_error_map, nth_error_enumerate.
  destruct (nth_error state i); reflexivity.
Qed.

(** After [topk] and [scatter] the vector is the masked score vector. *)
Lemma scatter_topk_masked fill state k vals ixs :
  topk state k = Ret (vals, ixs) ->
  scatter (repeat fill (List.length state)) ixs (map Fin vals)
  = masked fill ixs state.
Proof.
  intros Htop. apply topk_ret in Htop.
  destruct Htop as (_ & Hl1 & Hl2 & Hnd & Hval & _).
  assert (Hlt : forall i, In i ixs -> (i < List.length state)%nat).
  { intros i Hi. apply In_nth_error in Hi. destruct Hi as (j & Hj).
    destruct (Hval _ _ Hj) as (x & _ & Hx).
    apply nth_error_Some. rewrite Hx. discriminate. }
  apply nth_error_ext. intros i. rewrite nth_error_masked.
  destruct (mem i ixs) eqn:Hm.
  - apply mem_In in Hm. destruct (In_nth_error _ _ Hm) as (j & Hj).
    rewrite (scatter_inside ixs (map Fin vals) (repeat fill (List.length state)) j i Hnd).
    + destruct (Hval _ _ Hj) as (x & Hv & Hx).
      rewrite nth_error_map, Hv, Hx. reflexivity.
    + rewrite length_map. congruence.
    + intros i' Hi'. rewrite repeat_length. apply Hlt, Hi'.
    + exact Hj.
  - assert (Hni : ~ In i ixs).
    { intros H. apply mem_In in H. congruence. }
    rewrite scatter_outside by exact Hni.
    destruct (nth_error state i) as [x|] eqn:Hx; simpl.
    + apply nth_error_repeat. apply nth_error_Some. rewrite Hx. discriminate.
    + apply nth_error_None. rewrite repeat_length. apply nth_error_None. exact Hx.
Qed.

(** With [k] the length of the vector, [topk] selects every class. *)
Lemma topk_full state vals ixs i :
  topk state (Z.of_nat (List.length state)) = Ret (vals, ixs) ->
  (i < List.length state)%nat -> mem i ixs = true.
Proof.
  intros Htop Hi. apply topk_ret in Htop.
  destruct Htop as (_ & Hl1 & _ & Hnd & Hval & _).
  rewrite Nat2Z.id in Hl1.
  apply mem_In.
  apply (NoDup_length_incl Hnd (l' := seq 0 (List.length state))).
  - rewrite length_seq. lia.
  - intros i' Hi'. apply In_nth_error in Hi'. destruct Hi' as (j & Hj).
    destruct (Hval _ _ Hj) as (x & _ & Hx).
    apply in_seq. split; [lia|]. simpl. apply nth_error_Some. rewrite Hx. discriminate.
  - apply in_seq. lia.
Qed.

Lemma masked_full fill top state :
  (forall i, (i < List.length state)%nat -> mem i top = true) ->
  masked fill top state = map Fin state.
Proof.
  intros Hall. apply nth_error_ext. intros i.
  rewrite nth_error_masked, nth_error_map.
  destruct (nth_error state i) as [x|] eqn:Hx; simpl; [|reflexivity].
  rewrite Hall; [reflexivity|]. apply nth_error_Some. rewrite Hx. discriminate.
Qed.

Lemma topk_total state k :
  (0 <= k <= Z.of_nat (List.length state))%Z ->
  exists vals ixs, topk state k = Ret (vals, ixs).
Proof.
  intros Hk. unfold topk.
  destruct ((k <? 0)%Z || (Z.of_nat (List.length state) <? k)%Z) eqn:E.
  - apply orb_true_iff in E. destruct E as [E|E]; apply Z.ltb_lt in E; lia.
  - eexists. eexists. reflexivity.
Qed.

End BeamFacts.

(** ** Softmax, log-softmax and entropy of a restricted score vector *)

Section SoftmaxFacts.

Local Open Scope R_scope.

Lemma Rsum_nonneg l : (forall x, In x l -> 0 <= x) -> 0 <= Rsum l.
Proof.
  induction l as [|a l IH]; simpl; intros H; [lra|].
  assert (0 <= a) by (apply H; left; reflexivity).
  assert (0 <= Rsum l) by (apply IH; intros x Hx; apply H; right; exact Hx).
  lra.
Qed.

Lemma Rsum_pos l x :
  (forall y, In y l -> 0 <= y) -> In x l -> 0 < x -> 0 < Rsum l.
Proof.
  induction l as [|a l IH]; simpl; intros Hnn Hin Hx; [contradiction|].
  assert (0 <= a) by (apply Hnn; left; reflexivity).
  assert (0 <= Rsum l) by (apply Rsum_nonneg; intros y Hy; apply Hnn; right; exact Hy).
  destruct Hin as [->|Hin]; [lra|].
  assert (0 < Rsum l) by (apply IH; auto). lra.
Qed.

Lemma Rsum_scale {A} (f : A -> R) c l :
  Rsum (map (fun a => f a * c) l) = Rsum (map f l) * c.
Proof.
  induction l as [|a l IH]; simpl; [lra|]. rewrite IH. lra.
Qed.

Lemma topk_weight_nonneg top p : 0 <= topk_weight top p.
Proof.
  unfold topk_weight. destruct (mem (snd p) top); [left; apply exp_pos | lra].
Qed.

(** The mass kept by a non-empty selection is positive. *)
Lemma topk_mass_pos top row i :
  (i < List.length row)%nat -> mem i top = true -> 0 < topk_mass top row.
Proof.
  intros Hi Hm. apply nth_error_Some in Hi.
  destruct (nth_error row i) as [x|] eqn:Hx; [|contradiction].
  unfold topk_mass. apply (Rsum_pos _ (topk_weight top (x, i))).
  - intros y Hy. apply in_map_iff in Hy. destruct Hy as (p & <- & _).
    apply topk_weight_nonneg.
  - apply in_map. apply enumerate_In. exact Hx.
  - unfold topk_weight. simpl. rewrite Hm. apply exp_pos.
Qed.

Lemma masked_map top row : masked NInf top row = map (mask_entry top) (enumerate row).
Proof. reflexivity. Qed.

Lemma exp_w_mask top p : exp_w (mask_entry top p) = topk_weight top p.
Proof.
  unfold mask_entry, topk_weight. destruct (mem (snd p) top); reflexivity.
Qed.

Lemma partition_masked top row : partition (masked NInf top row) = topk_mass top row.
Proof.
  unfold partition, topk_mass. rewrite masked_map, map_map.
  f_equal. apply map_ext. intros p. apply exp_w_mask.
Qed.

Lemma proper_masked top row i :
  (i < List.length row)%nat -> mem i top = true ->
  proper (masked NInf top row) = true.
Proof.
  intros Hi Hm. unfold proper. apply andb_true_iff. split.
  - apply forallb_forall. intros x Hx. rewrite masked_map in Hx.
    apply in_map_iff in Hx. destruct Hx as (p & <- & _).
    unfold mask_entry. destruct (mem (snd p) top); reflexivity.
  - apply existsb_exists. apply nth_error_Some in Hi.
    destruct (nth_error row i) as [x|] eqn:Hx; [|contradiction].
    exists (Fin x). split; [|reflexivity].
    rewrite masked_map. apply in_map_iff. exists (x, i). split.
    + unfold mask_entry. simpl. rewrite Hm. reflexivity.
    + apply enumerate_In. exact Hx.
Qed.

(** The softmax of the restricted vector is the restricted distribution. *)
Lemma softmax_masked top row i :
  (i < List.length row)%nat -> mem i top = true ->
  softmax (masked NInf top row) = map Fin (topk_dist top row).
Proof.
  intros Hi Hm. unfold softmax. rewrite (proper_masked _ _ _ Hi Hm).
  rewrite partition_masked. unfold topk_dist.
  rewrite masked_map, !map_map. apply map_ext. intros p.
  rewrite exp_w_mask. reflexivity.
Qed.

Lemma log_softmax_masked top row i :
  (i < List.length row)%nat -> mem i top = true ->
  log_softmax (masked NInf top row)
  = map (fun p => log_entry (topk_mass top row) (mask_entry top p)) (enumerate row).
Proof.
  intros Hi Hm. unfold log_softmax. rewrite (proper_masked _ _ _ Hi Hm).
  rewrite partition_masked, masked_map, map_map. reflexivity.
Qed.

Lemma vmul_map {A} (f g : A -> ereal) (l : list A) :
  vmul (map f l) (map g l) = map (fun a => emul (f a) (g a)) l.
Proof.
  unfold vmul. induction l as [|a l IH]; simpl; [reflexivity|].
  rewrite IH. reflexivity.
Qed.

Lemma entropy_product top z p :
  emul (Fin (topk_weight top p / z)) (log_entry z (mask_entry top p))
  = if mem (snd p) top then Fin (entropy_term top z p) else NaN.
Proof.
  unfold topk_weight, mask_entry, entropy_term.
  destruct (mem (snd p) top); simpl; [reflexivity|].
  unfold inf_times.
  destruct (Rlt_dec 0 (0 / z)) as [H|_]; [unfold Rdiv in H; lra|].
  destruct (Rlt_dec (0 / z) 0) as [H|_]; [unfold Rdiv in H; lra|].
  reflexivity.
Qed.

Lemma entropy_term_outside top z p :
  mem (snd p) top = false -> entropy_term top z p = 0.
Proof. unfold entropy_term. intros ->. reflexivity. Qed.

Lemma sum_not_nan_terms top z (l : list (R * nat)) :
  sum_not_nan
    (vmul (map (fun p => Fin (topk_weight top p / z)) l)
          (map (fun p => log_entry z (mask_entry top p)) l))
  = Fin (Rsum (map (entropy_term top z) l)).
Proof.
  rewrite vmul_map. unfold sum_not_nan.
  induction l as [|p l IH]; [reflexivity|].
  cbn [map filter]. rewrite entropy_product.
  change (Rsum (map (entropy_term top z) (p :: l)))
    with (entropy_term top z p + Rsum (map (entropy_term top z) l)).
  destruct (mem (snd p) top) eqn:Hm; cbn [is_nan negb fold_right].
  - rewrite IH. reflexivity.
  - rewrite IH, (entropy_term_outside _ _ _ Hm). f_equal.
    unfold Rsum. simpl. lra.
Qed.

Lemma float_max_pos : 0 < float_max.
Proof.
  unfold float_max. apply Rmult_lt_0_compat.
  - assert (/ 2 ^ 23 <= 1); [|lra].
    rewrite <- Rinv_1. apply Rinv_le_contravar; [lra|].
    apply pow_R1_Rle. lra.
  - apply pow_lt. lra.
Qed.

(** The bits shown for the surprisal [-ln q] of a word of probability
    [q]. *)
Lemma surp_to_bits_prob q :
  0 < q -> surp_to_bits (Fin (- ln q)) = shown_surprisal q.
Proof.
  intros Hq. assert (Hm := float_max_pos).
  unfold surp_to_bits, shown_surprisal, eexp32.
  rewrite exp_Ropp, exp_ln by exact Hq.
  assert (Hiq : 0 < / q) by (apply Rinv_0_lt_compat, Hq).
  destruct (Rlt_dec float_max (/ q)) as [Ho|Ho];
    destruct (Rlt_dec q (/ float_max)) as [Hs|Hs].
  - reflexivity.
  - exfalso. apply Hs. rewrite <- (Rinv_inv q).
    apply Rinv_lt_contravar; [apply Rmult_lt_0_compat; assumption | exact Ho].
  - exfalso. apply Ho. rewrite <- (Rinv_inv float_max).
    apply Rinv_lt_contravar; [|exact Hs].
    apply Rmult_lt_0_compat; [exact Hq | apply Rinv_0_lt_compat, Hm].
  - unfold elog2. destruct (Rlt_dec 0 (/ q)) as [_|Hn]; [|contradiction].
    f_equal. rewrite ln_Rinv by exact Hq. unfold log2, Rdiv. ring.
Qed.

Lemma shown_surprisal_zero : shown_surprisal 0 = PInf.
Proof.
  unfold shown_surprisal.
  destruct (Rlt_dec 0 (/ float_max)) as [_|Hn]; [reflexivity|].
  exfalso. apply Hn. apply Rinv_0_lt_compat, float_max_pos.
Qed.

(** A probability that float32 can invert is shown with its surprisal. *)
Lemma shown_surprisal_in_range q :
  / float_max <= q -> shown_surprisal q = Fin (- log2 q).
Proof.
  intros Hq. unfold shown_surprisal.
  destruct (Rlt_dec q (/ float_max)); [lra | reflexivity].
Qed.

Lemma nats_to_bits_fin h : nats_to_bits (Fin h) = Fin (h / ln 2).
Proof.
  unfold nats_to_bits. simpl.
  destruct (Rlt_dec 0 (exp h)) as [_|H]; [|exfalso; apply H, exp_pos].
  rewrite ln_exp. reflexivity.
Qed.

Lemma ln2_pos : 0 < ln 2.
Proof. rewrite <- ln_1. apply ln_increasing; lra. Qed.

(** The entropy terms are those of Shannon's formula. *)
Lemma entropy_terms_shannon top row :
  0 < topk_mass top row ->
  - Rsum (map (entropy_term top (topk_mass top row)) (enumerate row)) / ln 2
  = shannon_bits (topk_dist top row).
Proof.
  intros Hz. unfold shannon_bits, topk_dist. rewrite map_map.
  set (z := topk_mass top row) in *.
  assert (E : Rsum (map (fun p => topk_weight top p / z
                                  * log2 (topk_weight top p / z)) (enumerate row))
              = Rsum (map (entropy_term top z) (enumerate row)) * / ln 2).
  { rewrite <- Rsum_scale. f_equal. apply map_ext. intros p.
    unfold entropy_term, topk_weight, log2.
    destruct (mem (snd p) top).
    - unfold Rdiv.
      rewrite ln_mult; [|apply exp_pos|apply Rinv_0_lt_compat, Hz].
      rewrite ln_exp, ln_Rinv by exact Hz. ring.
    - unfold Rdiv. ring. }
  rewrite E. unfold Rdiv. ring.
Qed.

Lemma emul_neg1 x : emul (Fin (-1)) x = eneg x.
Proof.
  destruct x as [r| | |]; simpl; try reflexivity.
  - f_equal. lra.
  - unfold inf_times. destruct (Rlt_dec 0 (-1)); [lra|].
    destruct (Rlt_dec (-1) 0); [reflexivity | lra].
  - unfold inf_times. destruct (Rlt_dec 0 (-1)); [lra|].
    destruct (Rlt_dec (-1) 0); [reflexivity | lra].
Qed.

End SoftmaxFacts.

(** ** The restricted distribution *)

Section DistFacts.

Local Open Scope R_scope.

Lemma enumerate_fst {A} (v : list A) : map fst (enumerate v) = v.
Proof.
  unfold enumerate. generalize 0%nat. induction v as [|a v IH]; intros s; simpl.
  - reflexivity.
  - f_equal. apply IH.
Qed.

Lemma topk_dist_outside top row j :
  (j < List.length row)%nat -> mem j top = false ->
  nth_error (topk_dist top row) j = Some 0.
Proof.
  intros Hj Hm. unfold topk_dist. rewrite nth_error_map, nth_error_enumerate.
  apply nth_error_Some in Hj.
  destruct (nth_error row j) as [x|]; [|contradiction].
  simpl. unfold topk_weight. simpl. rewrite Hm. f_equal. unfold Rdiv. ring.
Qed.

Lemma topk_dist_inside top row i x :
  mem i top = true -> nth_error row i = Some x ->
  nth_error (topk_dist top row) i = Some (exp x / topk_mass top row).
Proof.
  intros Hm Hx. unfold topk_dist. rewrite nth_error_map, nth_error_enumerate, Hx.
  simpl. unfold topk_weight. simpl. rewrite Hm. reflexivity.
Qed.

(** The restricted distribution sums to one: it is renormalized. *)
Lemma topk_dist_total top row :
  0 < topk_mass top row -> Rsum (topk_dist top row) = 1.
Proof.
  intros Hz. unfold topk_dist.
  change (fun p => topk_weight top p / topk_mass top row)
    with (fun p => topk_weight top p * / topk_mass top row).
  rewrite Rsum_scale. fold (topk_mass top row). field. lra.
Qed.

(** Selecting every class gives back the softmax distribution. *)
Lemma topk_dist_full top row :
  (forall i, (i < List.length row)%nat -> mem i top = true) ->
  topk_dist top row = softmax_dist row.
Proof.
  intros Hall.
  assert (Hw : forall p, In p (enumerate row) -> topk_weight top p = exp (fst p)).
  { intros [x i] Hp. apply enumerate_In in Hp. unfold topk_weight. simpl.
    rewrite Hall; [reflexivity|]. apply nth_error_Some. rewrite Hp. discriminate. }
  assert (Hz : topk_mass top row = Rsum (map exp row)).
  { unfold topk_mass. rewrite (map_ext_in _ _ _ Hw).
    rewrite <- (map_map fst exp), enumerate_fst. reflexivity. }
  unfold topk_dist, softmax_dist. rewrite Hz.
  transitivity (map (fun x => exp x / Rsum (map exp row)) (map fst (enumerate row))).
  - rewrite map_map. apply map_ext_in. intros p Hp. rewrite (Hw p Hp). reflexivity.
  - rewrite enumerate_fst. reflexivity.
Qed.

End DistFacts.

(** ** [get_entropy] and [get_surps] on a restricted vector *)

Section MeasureFacts.

Local Open Scope R_scope.

Variable args : Args.

Lemma beam_of_masked state vals top :
  complexn args <> 0%Z ->
  softcliptopk args = false \/
  (forall i, (i < List.length state)%nat -> mem i top = true) ->
  topk state (complexn args) = Ret (vals, top) ->
  beam_of args state = Ret (masked NInf top state).
Proof.
  intros Hk Hsoft Htop. unfold beam_of.
  destruct (complexn args =? 0)%Z eqn:E; [apply Z.eqb_eq in E; contradiction|].
  rewrite Htop. simpl.
  rewrite !(scatter_topk_masked _ _ _ _ _ Htop).
  destruct (softcliptopk args) eqn:Es; [|reflexivity].
  destruct Hsoft as [Hsoft|Hall]; [discriminate|].
  rewrite !(masked_full _ _ _ Hall). reflexivity.
Qed.

(** A selection of [k > 0] classes contains a class of the vector. *)
Lemma topk_nonempty state k vals top :
  (0 < k)%Z -> topk state k = Ret (vals, top) ->
  exists i, (i < List.length state)%nat /\ mem i top = true.
Proof.
  intros Hk Htop. apply topk_ret in Htop.
  destruct Htop as (_ & Hl & _ & _ & Hval & _).
  destruct top as [|i top]; [simpl in Hl; lia|].
  exists i. destruct (Hval 0%nat i eq_refl) as (x & _ & Hx). split.
  - apply nth_error_Some. rewrite Hx. discriminate.
  - apply mem_In. left. reflexivity.
Qed.

Lemma get_entropy_topk state vals top :
  (0 < complexn args)%Z ->
  softcliptopk args = false \/
  (forall i, (i < List.length state)%nat -> mem i top = true) ->
  topk state (complexn args) = Ret (vals, top) ->
  exists h, get_entropy args state = Ret (Fin h) /\
            nats_to_bits (Fin h) = Fin (shannon_bits (topk_dist top state)).
Proof.
  intros Hk Hsoft Htop.
  destruct (topk_nonempty _ _ _ _ Hk Htop) as (i & Hi & Hm).
  assert (E : get_entropy args state
              = Ret (Fin (-1 * Rsum (map (entropy_term top (topk_mass top state))
                                         (enumerate state))))).
  { unfold get_entropy.
    rewrite (beam_of_masked _ _ _ (Z.neq_sym _ _ (Z.lt_neq _ _ Hk)) Hsoft Htop).
    simpl.
    rewrite (softmax_masked _ _ _ Hi Hm), (log_softmax_masked _ _ _ Hi Hm).
    unfold topk_dist. rewrite map_map.
    rewrite (sum_not_nan_terms top (topk_mass top state) (enumerate state)).
    reflexivity. }
  eexists. split; [exact E|].
  rewrite nats_to_bits_fin. f_equal.
  rewrite <- (entropy_terms_shannon top state (topk_mass_pos _ _ _ Hi Hm)).
  unfold Rdiv. ring.
Qed.

Lemma get_surps_topk state vals top :
  (0 < complexn args)%Z ->
  softcliptopk args = false \/
  (forall i, (i < List.length state)%nat -> mem i top = true) ->
  topk state (complexn args) = Ret (vals, top) ->
  exists ss, get_surps args state = Ret ss /\
    List.length ss = List.length state /\
    forall targ s, nth_error ss targ = Some s ->
      surp_to_bits s = shown_surprisal (nth targ (topk_dist top state) 0).
Proof.
  intros Hk Hsoft Htop.
  destruct (topk_nonempty _ _ _ _ Hk Htop) as (i & Hi & Hm).
  unfold get_surps. rewrite (beam_of_masked _ _ _ (Z.neq_sym _ _ (Z.lt_neq _ _ Hk)) Hsoft Htop).
  simpl. rewrite (log_softmax_masked _ _ _ Hi Hm).
  eexists. split; [reflexivity|]. split.
  { rewrite !length_map. apply enumerate_length. }
  intros targ s Hs. rewrite !nth_error_map, nth_error_enumerate in Hs.
  destruct (nth_error state targ) as [x|] eqn:Hx; [|discriminate].
  simpl in Hs. injection Hs as <-.
  assert (Hz := topk_mass_pos _ _ _ Hi Hm).
  unfold mask_entry. simpl. destruct (mem targ top) eqn:Hmt; simpl.
  - rewrite (nth_error_nth _ _ 0 (topk_dist_inside _ _ _ _ Hmt Hx)).
    assert (Hq : 0 < exp x / topk_mass top state).
    { apply Rmult_lt_0_compat; [apply exp_pos | apply Rinv_0_lt_compat, Hz]. }
    rewrite <- (surp_to_bits_prob _ Hq). f_equal. f_equal.
    unfold Rdiv.
    rewrite ln_mult; [|apply exp_pos|apply Rinv_0_lt_compat, Hz].
    rewrite ln_exp, ln_Rinv by exact Hz. ring.
  - assert (Hj : (targ < List.length state)%nat)
      by (apply nth_error_Some; rewrite Hx; discriminate).
    rewrite (nth_error_nth _ _ 0 (topk_dist_outside _ _ _ Hj Hmt)).
    rewrite shown_surprisal_zero.
    unfold inf_times.
    destruct (Rlt_dec 0 (-1)); [lra|].
    destruct (Rlt_dec (-1) 0); [reflexivity | lra].
Qed.

End MeasureFacts.


(** ** Rows of the complexity output *)

Section RowFacts.

Variable fmt3 : ereal -> string.
Variable args : Args.
Variable idx2word : list string.

Lemma obind_ret {A B} (m : outcome A) (k : A -> outcome B) (b : B) :
  obind m k = Ret b -> exists a, m = Ret a /\ k a = Ret b.
Proof.
  destruct m as [a|e]; simpl; intros H.
  - exists a; split; [reflexivity | exact H].
  - discriminate H.
Qed.

(** Every printed row is the row made for some non-[<eos>] target of [obs]. *)
Lemma complexity_loop_rows Hs surps guesses sentid :
  forall obs pos r,
    In r (fst (complexity_loop fmt3 args idx2word Hs surps guesses sentid pos obs)) ->
    exists p targ word,
      (pos <= p)%nat /\ nth_error obs (p - pos) = Some targ /\
      nth_error idx2word targ = Some word /\ word <> "<eos>"%string /\
      make_row fmt3 args idx2word Hs surps guesses sentid p targ word = Ret r.
Proof.
  induction obs as [|targ obs IH]; intros pos r Hin; simpl in Hin.
  - contradiction.
  - unfold index in Hin.
    destruct (nth_error idx2word targ) as [word|] eqn:Hw; [|contradiction].
    destruct (String.eqb word "<eos>") eqn:Heos.
    + destruct (IH _ _ Hin) as (p & t & wd & Hle & Hn & Hrest).
      exists p, t, wd. split; [lia|]. split; [|exact Hrest].
      replace (p - pos)%nat with (S (p - S pos)) by lia. exact Hn.
    + destruct (make_row fmt3 args idx2word Hs surps guesses sentid pos targ word)
        as [r0|e] eqn:Hrow; [|contradiction].
      simpl in Hin. destruct Hin as [<-|Hin].
      * exists pos, targ, word. rewrite Nat.sub_diag. simpl.
        repeat split; auto.
        intros ->. rewrite String.eqb_refl in Heos. discriminate.
      * destruct (IH _ _ Hin) as (p & t & wd & Hle & Hn & Hrest).
        exists p, t, wd. split; [lia|]. split; [|exact Hrest].
        replace (p - pos)%nat with (S (p - S pos)) by lia. exact Hn.
Qed.

(** What [make_row] puts into a row. *)
Lemma make_row_fields Hs surps guesses sentid p targ word r :
  make_row fmt3 args idx2word Hs surps guesses sentid p targ word = Ret r ->
  exists srow h hprev,
    nth_error surps p = Some srow /\ nth_error srow targ = Some (c_surp r) /\
    Hs_at Hs p = Ret h /\ Hs_at Hs (p - 1) = Ret hprev /\
    c_word r = word /\ c_sentid r = sentid /\ c_sentpos r = p /\
    c_wlen r = py_len word /\ c_entropy r = h /\
    c_entred r = py_max0 (esub hprev h) /\
    output_guesses fmt3 args idx2word guesses p = Ret (c_guesses r).
Proof.
  unfold make_row. intros H.
  apply obind_ret in H. destruct H as (srow & Hs1 & H).
  apply obind_ret in H. destruct H as (surp & Hs2 & H).
  apply obind_ret in H. destruct H as (og & Hg & H).
  apply obind_ret in H. destruct H as (h & Hh & H).
  apply obind_ret in H. destruct H as (hprev & Hp & H).
  injection H as <-. simpl.
  exists srow, h, hprev.
  replace (Z.to_nat (Z.max (Z.of_nat p - 1) 0)) with (p - 1)%nat in Hp by lia.
  unfold index in Hs1, Hs2.
  destruct (nth_error surps p); [|discriminate]. injection Hs1 as ->.
  destruct (nth_error srow targ); [|discriminate]. injection Hs2 as ->.
  repeat split; auto.
Qed.

End RowFacts.


Lemma py_max0_nonneg x : nonneg (num_value (py_max0 x)).
Proof.
  unfold py_max0. destruct x as [r| | |]; simpl.
  - destruct (Rlt_dec 0 r); simpl; lra.
  - exact I.
  - lra.
  - lra.
Qed.

Lemma py_max0_self x : py_max0 (esub x x) = PyInt 0.
Proof.
  unfold py_max0, esub. destruct x as [r| | |]; simpl; try reflexivity.
  destruct (Rlt_dec 0 (r + - r)); [lra | reflexivity].
Qed.

(** ** Printed rows in terms of the score matrix *)

Section PrintedRows.

Variable fmt3 : ereal -> string.
Variable args : Args.
Variable idx2word : list string.

Lemma mapM_nth {A B} (f : A -> outcome B) : forall l ys,
  mapM f l = Ret ys ->
  forall i y, nth_error ys i = Some y ->
              exists x, nth_error l i = Some x /\ f x = Ret y.
Proof.
  induction l as [|a l IH]; simpl; intros ys H i y Hy.
  - injection H as <-. destruct i; discriminate.
  - apply obind_ret in H. destruct H as (b & Hb & H).
    apply obind_ret in H. destruct H as (bs & Hbs & H).
    injection H as <-. destruct i as [|i]; simpl in *.
    + injection Hy as <-. exists a. split; [reflexivity | exact Hb].
    + exact (IH bs Hbs i y Hy).
Qed.

Lemma apply_nth {B} (f : list R -> outcome B) state ys :
  apply f state = Ret ys ->
  forall i y, nth_error ys i = Some y ->
              exists row, nth_error state i = Some row /\ f row = Ret y.
Proof.
  unfold apply. destruct state as [|row0 state]; [discriminate|].
  apply mapM_nth.
Qed.

Lemma Hs_at_nth Hs i h : Hs_at Hs i = Ret h -> nth_error Hs i = Some h.
Proof.
  unfold Hs_at, index. destruct Hs as [|a [|b Hs]]; try discriminate;
    destruct (nth_error _ i); congruence.
Qed.

Lemma complexity_tensors_ret state Hs surps guesses :
  complexity_tensors args state = Ret (Hs, surps, guesses) ->
  exists hs ss,
    apply (get_entropy args) state = Ret hs /\
    apply (get_surps args) state = Ret ss /\
    Hs = map nats_to_bits hs /\ surps = map (map surp_to_bits) ss.
Proof.
  unfold complexity_tensors. intros H.
  apply obind_ret in H. destruct H as (hs & Hhs & H).
  apply obind_ret in H. destruct H as (ss & Hss & H).
  apply obind_ret in H. destruct H as (g & _ & H).
  injection H as <- <- _. exists hs, ss. auto.
Qed.

(** The numeric fields of a printed row: the position [p] of the row, its
    target, and the measures of row [p] and of row [p - 1] of the score
    matrix. *)
Lemma printed_row state obs sentid r :
  In r (fst (get_complexity fmt3 args idx2word state obs sentid)) ->
  exists targ row h ss s rowprev hprev,
    nth_error obs (c_sentpos r) = Some targ /\
    nth_error idx2word targ = Some (c_word r) /\
    c_word r <> "<eos>"%string /\
    c_sentid r = sentid /\
    c_wlen r = py_len (c_word r) /\
    nth_error state (c_sentpos r) = Some row /\
    get_entropy args row = Ret h /\ c_entropy r = nats_to_bits h /\
    get_surps args row = Ret ss /\ nth_error ss targ = Some s /\
    c_surp r = surp_to_bits s /\
    nth_error state (c_sentpos r - 1) = Some rowprev /\
    get_entropy args rowprev = Ret hprev /\
    c_entred r = py_max0 (esub (nats_to_bits hprev) (nats_to_bits h)).
Proof.
  unfold get_complexity. intros Hin.
  destruct (complexity_tensors args state) as [[[Hs surps] g]|e] eqn:Ht;
    [|contradiction].
  apply complexity_tensors_ret in Ht.
  destruct Ht as (hs & ss0 & Hhs & Hss & -> & ->).
  apply complexity_loop_rows in Hin.
  destruct Hin as (p & targ & word & _ & Hobs & Hword & Hneos & Hrow).
  rewrite Nat.sub_0_r in Hobs.
  apply make_row_fields in Hrow.
  destruct Hrow as (srow & h & hprev & Hs1 & Hs2 & Hh & Hp & Hw & Hsid & Hpos
                    & Hlen & Hent & Hred & _).
  apply Hs_at_nth in Hh. apply Hs_at_nth in Hp.
  rewrite nth_error_map in Hh, Hp, Hs1.
  destruct (nth_error hs p) as [h0|] eqn:Hh0; [|discriminate].
  destruct (nth_error hs (p - 1)) as [hp0|] eqn:Hp0; [|discriminate].
  destruct (nth_error ss0 p) as [ss|] eqn:Hss0; [|discriminate].
  simpl in Hh, Hp, Hs1. injection Hh as <-. injection Hp as <-. injection Hs1 as <-.
  rewrite nth_error_map in Hs2.
  destruct (nth_error ss targ) as [s|] eqn:Hs; [|discriminate].
  simpl in Hs2. injection Hs2 as Hs2.
  destruct (apply_nth _ _ _ Hhs _ _ Hh0) as (row & Hrow & Hrh).
  destruct (apply_nth _ _ _ Hhs _ _ Hp0) as (rowprev & Hrp & Hrph).
  destruct (apply_nth _ _ _ Hss _ _ Hss0) as (row' & Hrow' & Hrs).
  rewrite Hrow in Hrow'. injection Hrow' as <-.
  exists targ, row, h0, ss, s, rowprev, hp0.
  rewrite Hpos, Hw. repeat split; auto; congruence.
Qed.

End PrintedRows.

(** ** The measures of a printed row *)

Section RowMeasures.

Local Open Scope R_scope.

Variable fmt3 : ereal -> string.
Variable args : Args.
Variable idx2word : list string.

(** With a beam of [k] classes, the fields of a printed row in terms of the
    restricted distributions of its own row and of the row before it. *)
Lemma printed_row_topk state obs sentid r :
  (0 < complexn args <= Z.of_nat (List.length idx2word))%Z ->
  softcliptopk args = false \/ complexn args = Z.of_nat (List.length idx2word) ->
  (forall row, In row state -> List.length row = List.length idx2word) ->
  In r (fst (get_complexity fmt3 args idx2word state obs sentid)) ->
  exists targ row vals top rowprev valsp topp,
    nth_error obs (c_sentpos r) = Some targ /\
    nth_error idx2word targ = Some (c_word r) /\
    nth_error state (c_sentpos r) = Some row /\
    topk row (complexn args) = Ret (vals, top) /\
    nth_error state (c_sentpos r - 1) = Some rowprev /\
    topk rowprev (complexn args) = Ret (valsp, topp) /\
    c_entropy r = Fin (shannon_bits (topk_dist top row)) /\
    c_surp r = shown_surprisal (nth targ (topk_dist top row) 0) /\
    c_entred r = py_max0 (esub (Fin (shannon_bits (topk_dist topp rowprev)))
                               (Fin (shannon_bits (topk_dist top row)))).
Proof.
  intros Hk Hfill Hlen Hin.
  apply printed_row in Hin.
  destruct Hin as (targ & row & h & ss & s & rowprev & hprev & Hobs & Hword & _ & _
                   & _ & Hrow & Hh & Hent & Hss & Hs & Hsurp & Hprev & Hhp & Hred).
  assert (Hlr : List.length row = List.length idx2word)
    by (apply Hlen; eapply nth_error_In; eauto).
  assert (Hlp : List.length rowprev = List.length idx2word)
    by (apply Hlen; eapply nth_error_In; eauto).
  destruct (topk_total row (complexn args)) as (vals & top & Htop); [lia|].
  destruct (topk_total rowprev (complexn args)) as (valsp & topp & Htopp); [lia|].
  assert (Hf : forall st vs tp, List.length st = List.length idx2word ->
             topk st (complexn args) = Ret (vs, tp) ->
             softcliptopk args = false \/
             (forall i, (i < List.length st)%nat -> mem i tp = true)).
  { intros st vs tp Hl Ht. destruct Hfill as [Hf|Hf]; [left; exact Hf|].
    right. intros i Hi. rewrite Hf, <- Hl in Ht. exact (topk_full _ _ _ _ Ht Hi). }
  destruct (get_entropy_topk args row vals top (proj1 Hk) (Hf _ _ _ Hlr Htop) Htop)
    as (h0 & Eh & Bh).
  destruct (get_entropy_topk args rowprev valsp topp (proj1 Hk) (Hf _ _ _ Hlp Htopp) Htopp)
    as (hp0 & Ehp & Bhp).
  destruct (get_surps_topk args row vals top (proj1 Hk) (Hf _ _ _ Hlr Htop) Htop)
    as (ss' & Ess & _ & Bss).
  rewrite Hh in Eh. injection Eh as ->.
  rewrite Hhp in Ehp. injection Ehp as ->.
  rewrite Hss in Ess. injection Ess as <-.
  exists targ, row, vals, top, rowprev, valsp, topp.
  repeat split; auto.
  - rewrite Hent. exact Bh.
  - rewrite Hsurp. exact (Bss _ _ Hs).
  - rewrite Hred, Bh, Bhp. reflexivity.
Qed.

(** Over the full vocabulary the restricted distribution is the softmax
    distribution itself. *)
Lemma printed_row_full state obs sentid r :
  complexn args = Z.of_nat (List.length idx2word) ->
  (forall row, In row state -> List.length row = List.length idx2word) ->
  In r (fst (get_complexity fmt3 args idx2word state obs sentid)) ->
  exists targ row rowprev,
    nth_error obs (c_sentpos r) = Some targ /\
    nth_error idx2word targ = Some (c_word r) /\
    nth_error state (c_sentpos r) = Some row /\
    nth_error state (c_sentpos r - 1) = Some rowprev /\
    c_entropy r = Fin (shannon_bits (softmax_dist row)) /\
    c_surp r = shown_surprisal (nth targ (softmax_dist row) 0) /\
    c_entred r = py_max0 (esub (Fin (shannon_bits (softmax_dist rowprev)))
                               (Fin (shannon_bits (softmax_dist row)))).
Proof.
  intros Hk Hlen Hin.
  assert (Hin' := Hin). apply printed_row in Hin'.
  destruct Hin' as (targ0 & _ & _ & _ & _ & _ & _ & _ & Hword0 & _).
  assert (Hpos : (0 < List.length idx2word)%nat).
  { assert (targ0 < List.length idx2word)%nat; [|lia].
    apply nth_error_Some. rewrite Hword0. discriminate. }
  destruct (printed_row_topk state obs sentid r) as
    (targ & row & vals & top & rowprev & valsp & topp & Hobs & Hword & Hrow & Htop
     & Hprev & Htopp & Hent & Hsurp & Hred); auto; [lia|].
  assert (Hlr : List.length row = List.length idx2word)
    by (apply Hlen; eapply nth_error_In; eauto).
  assert (Hlp : List.length rowprev = List.length idx2word)
    by (apply Hlen; eapply nth_error_In; eauto).
  rewrite Hk, <- Hlr in Htop. rewrite Hk, <- Hlp in Htopp.
  assert (Hall := fun i => topk_full row vals top i Htop).
  assert (Hallp := fun i => topk_full rowprev valsp topp i Htopp).
  rewrite (topk_dist_full _ _ Hall) in Hent, Hsurp, Hred.
  rewrite (topk_dist_full _ _ Hallp) in Hred.
  exists targ, row, rowprev. repeat split; auto.
Qed.

End RowMeasures.

(** ** Rows are printed *)

Section Progress.

Variable fmt3 : ereal -> string.
Variable args : Args.
Variable idx2word : list string.

Lemma mapM_total {A B} (f : A -> outcome B) (P : B -> Prop) : forall l,
  (forall x, In x l -> exists y, f x = Ret y /\ P y) ->
  exists ys, mapM f l = Ret ys /\ List.length ys = List.length l /\
             forall y, In y ys -> P y.
Proof.
  induction l as [|a l IH]; intros H; simpl.
  - exists []. repeat split. intros y [].
  - destruct (H a (or_introl eq_refl)) as (b & Hb & Pb).
    destruct IH as (bs & Hbs & Hl & Pbs); [intros x Hx; apply H; right; exact Hx|].
    exists (b :: bs). rewrite Hb, Hbs. simpl. repeat split; [congruence|].
    intros y [<-|Hy]; auto.
Qed.

Hypothesis Hguess : guess args = false.
Hypothesis Hk : (0 < complexn args <= Z.of_nat (List.length idx2word))%Z.
Hypothesis Hfill :
  softcliptopk args = false \/ complexn args = Z.of_nat (List.length idx2word).

Lemma measures_total row :
  List.length row = List.length idx2word ->
  (exists h, get_entropy args row = Ret h) /\
  (exists ss, get_surps args row = Ret ss /\
              List.length ss = List.length idx2word).
Proof.
  intros Hl.
  destruct (topk_total row (complexn args)) as (vals & top & Htop); [lia|].
  assert (Hf : softcliptopk args = false \/
               (forall i, (i < List.length row)%nat -> mem i top = true)).
  { destruct Hfill as [Hf|Hf]; [left; exact Hf|].
    right. intros i Hi. rewrite Hf, <- Hl in Htop. exact (topk_full _ _ _ _ Htop Hi). }
  split.
  - destruct (get_entropy_topk args row vals top (proj1 Hk) Hf Htop) as (h & E & _).
    exists (Fin h). exact E.
  - destruct (get_surps_topk args row vals top (proj1 Hk) Hf Htop) as (ss & E & L & _).
    exists ss. split; [exact E | congruence].
Qed.

Lemma complexity_tensors_total state :
  state <> [] ->
  (forall row, In row state -> List.length row = List.length idx2word) ->
  exists Hs surps,
    complexity_tensors args state = Ret (Hs, surps, None) /\
    List.length Hs = List.length state /\
    List.length surps = List.length state /\
    forall srow, In srow surps -> List.length srow = List.length idx2word.
Proof.
  intros Hne Hlen. unfold complexity_tensors, apply.
  destruct state as [|row0 state]; [contradiction|].
  set (st := row0 :: state) in *.
  destruct (mapM_total (get_entropy args) (fun _ => True) st) as (hs & E1 & L1 & _).
  { intros x Hx. destruct (measures_total x (Hlen x Hx)) as [(h & Hh) _].
    exists h. split; [exact Hh | exact I]. }
  destruct (mapM_total (get_surps args)
              (fun ss => List.length ss = List.length idx2word) st)
    as (ss & E2 & L2 & P2).
  { intros x Hx. destruct (measures_total x (Hlen x Hx)) as [_ Hs]. exact Hs. }
  rewrite E1, E2, Hguess. simpl.
  eexists. eexists. split; [reflexivity|].
  rewrite !length_map. repeat split; auto.
  intros srow Hin. apply in_map_iff in Hin. destruct Hin as (s0 & <- & Hs0).
  rewrite length_map. apply P2, Hs0.
Qed.

Lemma Hs_at_total Hs i :
  List.length Hs <> 1%nat -> (i < List.length Hs)%nat ->
  exists h, Hs_at Hs i = Ret h.
Proof.
  intros H1 Hi. unfold Hs_at, index.
  apply nth_error_Some in Hi.
  destruct (nth_error Hs i) as [h|] eqn:E; [|contradiction].
  destruct Hs as [|a [|b Hs]]; simpl in H1; try lia; exists h; reflexivity.
Qed.

Lemma complexity_loop_total Hs surps sentid :
  List.length Hs <> 1%nat ->
  List.length surps = List.length Hs ->
  (forall srow, In srow surps -> List.length srow = List.length idx2word) ->
  forall obs pos,
    (pos + List.length obs <= List.length Hs)%nat ->
    (forall t, In t obs -> (t < List.length idx2word)%nat) ->
    snd (complexity_loop fmt3 args idx2word Hs surps None sentid pos obs) = Ret tt /\
    forall p targ word,
      nth_error obs p = Some targ -> nth_error idx2word targ = Some word ->
      word <> "<eos>"%string ->
      exists r,
        In r (fst (complexity_loop fmt3 args idx2word Hs surps None sentid pos obs))
        /\ c_sentpos r = (pos + p)%nat.
Proof.
  intros H1 Hls Hrows. induction obs as [|targ obs IH]; intros pos Hpos Hobs.
  - simpl. split; [reflexivity|]. intros [|p]; discriminate.
  - simpl in Hpos.
    assert (Ht : (targ < List.length idx2word)%nat) by (apply Hobs; left; reflexivity).
    destruct (IH (S pos)) as (IHres & IHrows);
      [lia | intros t Hin; apply Hobs; right; exact Hin|].
    apply nth_error_Some in Ht.
    destruct (nth_error idx2word targ) as [word|] eqn:Hw; [|contradiction].
    assert (Hix : index idx2word targ = Ret word) by (unfold index; now rewrite Hw).
    cbn [complexity_loop]. rewrite Hix.
    destruct (String.eqb word "<eos>") eqn:Heos.
    + split; [exact IHres|]. intros [|p] t wd Hn Hwd Hne; simpl in Hn.
      * injection Hn as <-. rewrite Hw in Hwd. injection Hwd as <-.
        apply String.eqb_eq in Heos. contradiction.
      * destruct (IHrows p t wd Hn Hwd Hne) as (r & Hr & Hp).
        exists r. split; [exact Hr | lia].
    + assert (Hrow : exists r, make_row fmt3 args idx2word Hs surps None sentid
                                 pos targ word = Ret r /\ c_sentpos r = pos).
      { unfold make_row, index.
        assert (Hps : (pos < List.length surps)%nat) by lia.
        apply nth_error_Some in Hps.
        destruct (nth_error surps pos) as [srow|] eqn:Es; [|contradiction].
        simpl.
        assert (Hsl : (targ < List.length srow)%nat).
        { rewrite (Hrows srow (nth_error_In _ _ Es)).
          apply nth_error_Some. rewrite Hw. discriminate. }
        apply nth_error_Some in Hsl.
        destruct (nth_error srow targ) as [surp|]; [|contradiction].
        simpl.
        destruct (Hs_at_total Hs pos H1) as (h & Hh); [lia|].
        destruct (Hs_at_total Hs (Z.to_nat (Z.max (Z.of_nat pos - 1) 0)) H1)
          as (hp & Hhp); [lia|].
        rewrite Hh, Hhp. simpl. eexists. split; reflexivity. }
      destruct Hrow as (r0 & Hr0 & Hp0). rewrite Hr0. simpl.
      split; [exact IHres|]. intros [|p] t wd Hn Hwd Hne; simpl in Hn.
      * exists r0. split; [left; reflexivity | lia].
      * destruct (IHrows p t wd Hn Hwd Hne) as (r & Hr & Hp).
        exists r. split; [right; exact Hr | lia].
Qed.

(** On a sentence of at least two targets whose rows range over the
    vocabulary, [get_complexity] ends normally and prints a row for every
    target that is not [<eos>]. *)
Lemma get_complexity_total state obs sentid :
  (forall row, In row state -> List.length row = List.length idx2word) ->
  List.length state = List.length obs -> (2 <= List.length state)%nat ->
  (forall t, In t obs -> (t < List.length idx2word)%nat) ->
  snd (get_complexity fmt3 args idx2word state obs sentid) = Ret tt /\
  forall p targ word,
    nth_error obs p = Some targ -> nth_error idx2word targ = Some word ->
    word <> "<eos>"%string ->
    exists r, In r (fst (get_complexity fmt3 args idx2word state obs sentid))
              /\ c_sentpos r = p.
Proof.
  intros Hlen Hlo H2 Hobs. unfold get_complexity.
  destruct (complexity_tensors_total state) as (Hs & surps & E & L1 & L2 & Hrows);
    [destruct state; simpl in H2; [lia | discriminate] | exact Hlen |].
  rewrite E.
  apply (complexity_loop_total Hs surps sentid); auto; try lia.
Qed.

End Progress.

(** ** The example run *)

Section ExampleRun.

Local Open Scope R_scope.

Lemma entropy_bits_full args row :
  complexn args = Z.of_nat (List.length row) -> (0 < List.length row)%nat ->
  entropy_bits args row = Ret (Fin (shannon_bits (softmax_dist row))).
Proof.
  intros Hk Hpos.
  destruct (topk_total row (complexn args)) as (vals & top & Htop); [lia|].
  assert (Hall : forall i, (i < List.length row)%nat -> mem i top = true).
  { intros i Hi. rewrite Hk in Htop. exact (topk_full _ _ _ _ Htop Hi). }
  destruct (get_entropy_topk args row vals top) as (h & E & B); auto; [lia|].
  unfold entropy_bits. rewrite E. simpl. rewrite B, (topk_dist_full _ _ Hall).
  reflexivity.
Qed.

Lemma ex_softmax_first : softmax_dist [ln 3; 0] = [3 / 4; 1 / 4].
Proof.
  unfold softmax_dist, Rsum. simpl.
  rewrite exp_ln by lra. rewrite exp_0.
  f_equal; [lra|]. f_equal. lra.
Qed.

Lemma ex_softmax_second : softmax_dist [0; 0] = [1 / 2; 1 / 2].
Proof.
  unfold softmax_dist, Rsum. simpl. rewrite exp_0.
  f_equal; [lra|]. f_equal. lra.
Qed.

Lemma ln_4 : ln 4 = 2 * ln 2.
Proof. replace 4 with (2 * 2) by lra. rewrite ln_mult by lra. lra. Qed.

Lemma ex_entropy_first :
  shannon_bits (softmax_dist [ln 3; 0]) = 2 - 3 / 4 * (ln 3 / ln 2).
Proof.
  rewrite ex_softmax_first. unfold shannon_bits, log2, Rsum. simpl.
  assert (H2 := ln2_pos).
  assert (L34 : ln (3 / 4) = ln 3 - 2 * ln 2).
  { unfold Rdiv. rewrite ln_mult by lra. rewrite ln_Rinv by lra.
    rewrite ln_4. lra. }
  assert (L14 : ln (1 / 4) = - (2 * ln 2)).
  { unfold Rdiv. rewrite Rmult_1_l, ln_Rinv by lra. rewrite ln_4. lra. }
  rewrite L34, L14. field. lra.
Qed.

Lemma ex_entropy_second : shannon_bits (softmax_dist [0; 0]) = 1.
Proof.
  rewrite ex_softmax_second. unfold shannon_bits, log2, Rsum. simpl.
  assert (H2 := ln2_pos).
  assert (L12 : ln (1 / 2) = - ln 2).
  { unfold Rdiv. rewrite Rmult_1_l, ln_Rinv by lra. reflexivity. }
  rewrite L12. field. lra.
Qed.

Lemma ex_entropy_increases :
  shannon_bits (softmax_dist [ln 3; 0]) < shannon_bits (softmax_dist [0; 0]).
Proof.
  rewrite ex_entropy_first, ex_entropy_second.
  assert (H2 := ln2_pos).
  assert (H : 4 * ln 2 < 3 * ln 3).
  { assert (E16 : 4 * ln 2 = ln 16).
    { replace 16 with (4 * 4) by lra. rewrite ln_mult by lra. rewrite ln_4. lra. }
    assert (E27 : 3 * ln 3 = ln 27).
    { replace 27 with (3 * (3 * 3)) by lra. rewrite !ln_mult by lra. lra. }
    rewrite E16, E27. apply ln_increasing; lra. }
  assert (H1 : 1 < 3 / 4 * (ln 3 / ln 2)).
  { apply (Rmult_lt_reg_r (ln 2)); [exact H2|]. field_simplify; lra. }
  lra.
Qed.

Lemma ex_state_rows row : In row ex_state -> List.length row = List.length ex_vocab.
Proof. intros [<-|[<-|[]]]; reflexivity. Qed.

Lemma ex_obs_in_vocab t : In t ex_obs -> (t < List.length ex_vocab)%nat.
Proof. intros [<-|[<-|[]]]; simpl; lia. Qed.

(** Both positions of the example are printed, with either beam. *)
Lemma ex_rows_printed p :
  (p < 2)%nat -> exists r, In r ex_rows /\ c_sentpos r = p.
Proof.
  intros Hp.
  destruct (get_complexity_total ex_fmt ex_args ex_vocab eq_refl) with
    (state := ex_state) (obs := ex_obs) (sentid := 0%nat) as (_ & Hrows).
  - simpl. lia.
  - right. reflexivity.
  - exact ex_state_rows.
  - reflexivity.
  - simpl. lia.
  - exact ex_obs_in_vocab.
  - destruct p as [|[|p]]; [| |lia].
    + apply (Hrows 0%nat 0%nat "a"%string); [reflexivity | reflexivity | discriminate].
    + apply (Hrows 1%nat 1%nat "b"%string); [reflexivity | reflexivity | discriminate].
Qed.

Lemma ex_rows_top1_printed p :
  (p < 2)%nat -> exists r, In r ex_rows_top1 /\ c_sentpos r = p.
Proof.
  intros Hp.
  destruct (get_complexity_total ex_fmt ex_args_top1 ex_vocab eq_refl) with
    (state := ex_state) (obs := ex_obs) (sentid := 0%nat) as (_ & Hrows).
  - simpl. lia.
  - left. reflexivity.
  - exact ex_state_rows.
  - reflexivity.
  - simpl. lia.
  - exact ex_obs_in_vocab.
  - destruct p as [|[|p]]; [| |lia].
    + apply (Hrows 0%nat 0%nat "a"%string); [reflexivity | reflexivity | discriminate].
    + apply (Hrows 1%nat 1%nat "b"%string); [reflexivity | reflexivity | discriminate].
Qed.

End ExampleRun.

(** ** Statements about the complexity rows *)

Lemma printed_entred fmt3 args idx2word state obs sentid r :
  In r (fst (get_complexity fmt3 args idx2word state obs sentid)) ->
  exists d, entropy_drop args state (c_sentpos r) = Ret d /\
            c_entred r = py_max0 d.
Proof.
  intros Hin. apply printed_row in Hin.
  destruct Hin as (targ & row & h & ss & s & rowprev & hprev & _ & _ & _ & _
                   & _ & Hrow & Hh & _ & _ & _ & _ & Hprev & Hhp & Hred).
  exists (esub (nats_to_bits hprev) (nats_to_bits h)). split; [|exact Hred].
  unfold entropy_drop, index, entropy_bits.
  rewrite Hprev, Hrow. simpl. rewrite Hhp, Hh. reflexivity.
Qed.

(** C1 (as amended): in every printed row at position [p], the entred field
    is the entropy at position [p - 1] minus the entropy at position [p]
    when that difference is greater than zero, and the integer 0 otherwise;
    at position 0 the position itself stands in for [p - 1]. *)
Theorem entred_is_clamped_entropy_drop :
  forall fmt3 args idx2word state obs sentid r,
    In r (fst (get_complexity fmt3 args idx2word state obs sentid)) ->
    exists d,
      entropy_drop args state (c_sentpos r) = Ret d /\
      ((egt d (Fin 0%R) = true /\ c_entred r = PyFloat d) \/
       (egt d (Fin 0%R) = false /\ c_entred r = PyInt 0)).
Proof.
  intros fmt3 args idx2word state obs sentid r Hin.
  destruct (printed_entred _ _ _ _ _ _ _ Hin) as (d & Hd & Hred).
  exists d. split; [exact Hd|].
  rewrite Hred. unfold py_max0.
  destruct (egt d (Fin 0%R)); [left | right]; split; reflexivity.
Qed.

Lemma entred_is_clamped_entropy_drop_witness :
  exists r d,
    In r ex_rows /\ c_sentpos r = 1%nat /\
    entropy_drop ex_args ex_state (c_sentpos r) = Ret d /\
    ((egt d (Fin 0%R) = true /\ c_entred r = PyFloat d) \/
     (egt d (Fin 0%R) = false /\ c_entred r = PyInt 0)).
Proof.
  destruct (ex_rows_printed 1) as (r & Hin & Hpos); [lia|].
  destruct (entred_is_clamped_entropy_drop ex_fmt ex_args ex_vocab ex_state
              ex_obs 0 r Hin) as (d & Hd & Hcase).
  exists r, d. repeat split; assumption.
Defined.

(** The drop of the example at position 1 is negative: the entropy rises. *)
Lemma ex_entropy_drop :
  exists a b, (a < b)%R /\
    entropy_drop ex_args ex_state 1 = Ret (Fin (a + - b)).
Proof.
  exists (shannon_bits (softmax_dist [ln 3; 0]%R)),
         (shannon_bits (softmax_dist [0; 0]%R)).
  split; [exact ex_entropy_increases|].
  change (entropy_drop ex_args ex_state 1)
    with (a0 <-! entropy_bits ex_args [ln 3; 0]%R ;;
          b0 <-! entropy_bits ex_args [0; 0]%R ;; Ret (esub a0 b0)).
  rewrite (entropy_bits_full ex_args [ln 3; 0]%R eq_refl) by (simpl; lia).
  rewrite (entropy_bits_full ex_args [0; 0]%R eq_refl) by (simpl; lia).
  reflexivity.
Qed.

(** C1 (as stated) fails: in the example the entropy rises from position 0
    to position 1, the difference is negative, and the row shows 0. *)
Lemma entred_is_not_entropy_difference :
  ~ (forall r, In r ex_rows ->
               entropy_drop ex_args ex_state (c_sentpos r)
               = Ret (num_value (c_entred r))).
Proof.
  intros Hclaim.
  destruct (ex_rows_printed 1) as (r & Hin & Hpos); [lia|].
  specialize (Hclaim r Hin).
  destruct (printed_entred _ _ _ _ _ _ _ Hin) as (d & Hd & Hred).
  destruct ex_entropy_drop as (a & b & Hlt & Hdrop).
  rewrite Hpos in Hclaim, Hd. rewrite Hdrop in Hclaim, Hd.
  injection Hd as <-. rewrite Hred in Hclaim.
  unfold py_max0 in Hclaim. simpl in Hclaim.
  destruct (Rlt_dec 0 (a + - b)) as [H|_]; [lra|].
  simpl in Hclaim. injection Hclaim as Hclaim. lra.
Qed.

Section Overflow.

Local Open Scope R_scope.

Lemma exp_nat_power x : forall n : nat, exp (x * INR n) = exp x ^ n.
Proof.
  induction n as [|n IH].
  - simpl. rewrite Rmult_0_r. apply exp_0.
  - rewrite S_INR, Rmult_plus_distr_l, Rmult_1_r, exp_plus, IH. simpl. ring.
Qed.

Lemma float_max_below_power : float_max < 2 ^ 128.
Proof.
  unfold float_max. change (2 ^ 128) with (2 * 2 ^ 127).
  assert (H : 0 < 2 ^ 127) by (apply pow_lt; lra).
  assert (Hi : 0 < / 2 ^ 23) by (apply Rinv_0_lt_compat, pow_lt; lra).
  nra.
Qed.

(** A surprisal of 100 nats is out of the range of the float32
    exponential. *)
Lemma exp_100_overflows : float_max < exp 100.
Proof.
  apply Rlt_le_trans with (2 ^ 128); [apply float_max_below_power|].
  replace 100 with (25 / 128 * INR 512)
    by (rewrite INR_IZR_INZ; change (Z.of_nat 512) with 512%Z; lra).
  rewrite exp_nat_power.
  change 512%nat with (4 * 128)%nat. rewrite pow_mult.
  apply pow_incr. split; [lra|].
  apply Rle_trans with ((153 / 128) ^ 4); [simpl; lra|].
  apply pow_incr. split; [lra|].
  left. replace (153 / 128) with (1 + 25 / 128) by lra.
  apply exp_ineq1. lra.
Qed.

End Overflow.

(** Over the full vocabulary the surp field of a printed row is the
    surprisal of the observed word as the output shows it; it is the
    negative base-2 logarithm of the word's softmax probability when that
    probability is at least [1 / float_max]. *)
Lemma surp_in_range_is_neg_log2_prob :
  forall fmt3 args idx2word state obs sentid r,
    complexn args = Z.of_nat (List.length idx2word) ->
    (forall row, In row state -> List.length row = List.length idx2word) ->
    In r (fst (get_complexity fmt3 args idx2word state obs sentid)) ->
    exists targ row,
      nth_error obs (c_sentpos r) = Some targ /\
      nth_error idx2word targ = Some (c_word r) /\
      nth_error state (c_sentpos r) = Some row /\
      c_surp r = shown_surprisal (nth targ (softmax_dist row) 0%R) /\
      ((/ float_max <= nth targ (softmax_dist row) 0)%R ->
       c_surp r = Fin (- log2 (nth targ (softmax_dist row) 0%R))).
Proof.
  intros fmt3 args idx2word state obs sentid r Hk Hlen Hin.
  destruct (printed_row_full fmt3 args idx2word state obs sentid r Hk Hlen Hin)
    as (targ & row & rowprev & Hobs & Hword & Hrow & _ & _ & Hsurp & _).
  exists targ, row. repeat split; auto.
  intros Hq. rewrite Hsurp. apply shown_surprisal_in_range, Hq.
Qed.

Lemma ex_state_steep_rows row :
  In row ex_state_steep -> List.length row = List.length ex_vocab.
Proof. intros [<-|[<-|[]]]; reflexivity. Qed.

Lemma ex_obs_steep_in_vocab t :
  In t ex_obs_steep -> (t < List.length ex_vocab)%nat.
Proof. intros [<-|[<-|[]]]; simpl; lia. Qed.

(** C2 at its failing input: over the full vocabulary of two words, with
    the scores 100 and 0 the softmax gives the second word the probability
    [q = 1 / (e^100 + 1)], which is positive, so that its negative
    logarithm [-log2 q] (about 144.27 bits) is a finite number; the row
    printed for that word shows [inf] instead, because the conversion to
    bits, [log2(exp(s))] on float32, overflows for the surprisal [s] of
    100 nats.  (For a word whose probability is at least [1 / float_max]
    the row shows [-log2 q]: [printed_row_full],
    [shown_surprisal_in_range].) *)
Theorem improbable_word_surprisal_overflows :
  exists r q,
    In r (fst (get_complexity ex_fmt ex_args ex_vocab ex_state_steep
                              ex_obs_steep 0)) /\
    c_sentpos r = 0%nat /\ c_word r = "b"%string /\
    complexn ex_args = Z.of_nat (List.length ex_vocab) /\
    nth_error (softmax_dist [100; 0]%R) 1 = Some q /\ (0 < q)%R /\
    c_surp r = PInf /\ c_surp r <> Fin (- log2 q)%R.
Proof.
  destruct (get_complexity_total ex_fmt ex_args ex_vocab eq_refl) with
    (state := ex_state_steep) (obs := ex_obs_steep) (sentid := 0%nat)
    as (_ & Hrows).
  - simpl. lia.
  - right. reflexivity.
  - exact ex_state_steep_rows.
  - reflexivity.
  - simpl. lia.
  - exact ex_obs_steep_in_vocab.
  - destruct (Hrows 0%nat 1%nat "b"%string eq_refl eq_refl) as (r & Hin & Hpos);
      [discriminate|].
    destruct (printed_row_full ex_fmt ex_args ex_vocab ex_state_steep
                ex_obs_steep 0 r eq_refl ex_state_steep_rows Hin)
      as (targ & row & rowprev & Hobs & Hword & Hrow & _ & _ & Hsurp & _).
    rewrite Hpos in Hobs, Hrow. simpl in Hobs, Hrow.
    injection Hobs as <-. injection Hrow as <-.
    simpl in Hword. injection Hword as Hword.
    assert (Hq : (0 < exp 0 / (exp 100 + (exp 0 + 0)))%R).
    { apply Rmult_lt_0_compat; [apply exp_pos|].
      apply Rinv_0_lt_compat. pose proof (exp_pos 100). pose proof (exp_pos 0).
      lra. }
    assert (Hinf : c_surp r = PInf).
    { rewrite Hsurp. unfold softmax_dist, Rsum. simpl.
      unfold shown_surprisal.
      destruct (Rlt_dec (exp 0 / (exp 100 + (exp 0 + 0))) (/ float_max))
        as [_|Hn]; [reflexivity|].
      exfalso. apply Hn. rewrite exp_0.
      assert (Hm := float_max_pos). assert (Ho := exp_100_overflows).
      unfold Rdiv. rewrite Rmult_1_l.
      apply Rinv_lt_contravar; [|lra].
      apply Rmult_lt_0_compat; lra. }
    exists r, (exp 0 / (exp 100 + (exp 0 + 0)))%R.
    split; [exact Hin|]. split; [exact Hpos|]. split; [symmetry; exact Hword|].
    split; [reflexivity|]. split; [reflexivity|]. split; [exact Hq|].
    split; [exact Hinf|]. rewrite Hinf. discriminate.
Qed.

(** C3: over the full vocabulary, the entropy field of a printed row is the
    Shannon entropy in bits of the softmax distribution of the row's scores
    over the whole vocabulary. *)
Theorem entropy_is_shannon_bits :
  forall fmt3 args idx2word state obs sentid r,
    complexn args = Z.of_nat (List.length idx2word) ->
    (forall row, In row state -> List.length row = List.length idx2word) ->
    In r (fst (get_complexity fmt3 args idx2word state obs sentid)) ->
    exists row,
      nth_error state (c_sentpos r) = Some row /\
      List.length (softmax_dist row) = List.length idx2word /\
      c_entropy r = Fin (shannon_bits (softmax_dist row)).
Proof.
  intros fmt3 args idx2word state obs sentid r Hk Hlen Hin.
  destruct (printed_row_full fmt3 args idx2word state obs sentid r Hk Hlen Hin)
    as (targ & row & rowprev & _ & _ & Hrow & _ & Hent & _).
  exists row. split; [exact Hrow|]. split; [|exact Hent].
  unfold softmax_dist. rewrite length_map.
  apply Hlen. eapply nth_error_In. exact Hrow.
Qed.

Lemma entropy_is_shannon_bits_witness :
  exists r row,
    In r ex_rows /\ c_sentpos r = 1%nat /\
    nth_error ex_state (c_sentpos r) = Some row /\
    List.length (softmax_dist row) = List.length ex_vocab /\
    c_entropy r = Fin (shannon_bits (softmax_dist row)).
Proof.
  destruct (ex_rows_printed 1) as (r & Hin & Hpos); [lia|].
  destruct (entropy_is_shannon_bits ex_fmt ex_args ex_vocab ex_state ex_obs 0 r
              eq_refl ex_state_rows Hin) as (row & H).
  exists r, row. split; [exact Hin|]. split; [exact Hpos | exact H].
Defined.
(** C10: in every printed row the entropy-reduction field is non-negative,
    and at sentence position 0 it is exactly the integer 0. *)
Theorem entred_nonneg_and_zero_at_start :
  forall fmt3 args idx2word state obs sentid r,
    In r (fst (get_complexity fmt3 args idx2word state obs sentid)) ->
    nonneg (num_value (c_entred r)) /\
    (c_sentpos r = 0%nat -> c_entred r = PyInt 0).
Proof.
  intros fmt3 args idx2word state obs sentid r Hin.
  unfold get_complexity in Hin.
  destruct (complexity_tensors args state) as [[[Hs surps] g]|e]; [|contradiction].
  apply complexity_loop_rows in Hin.
  destruct Hin as (p & targ & word & _ & _ & _ & _ & Hrow).
  apply make_row_fields in Hrow.
  destruct Hrow as (srow & h & hprev & _ & _ & Hh & Hp & _ & _ & Hpos & _ & _ & Hred & _).
  rewrite Hred. split.
  - apply py_max0_nonneg.
  - intros H0. rewrite Hpos in H0. rewrite H0 in Hh, Hp. simpl in Hp.
    rewrite Hh in Hp. injection Hp as <-. apply py_max0_self.
Qed.


Lemma entred_nonneg_and_zero_at_start_witness :
  exists r,
    In r ex_rows /\ c_sentpos r = 0%nat /\
    nonneg (num_value (c_entred r)) /\ c_entred r = PyInt 0.
Proof.
  destruct (ex_rows_printed 0) as (r & Hin & Hpos); [lia|].
  destruct (entred_nonneg_and_zero_at_start ex_fmt ex_args ex_vocab ex_state
              ex_obs 0 r Hin) as (Hnn & Hzero).
  exists r. repeat split; auto.
Defined.

Lemma normalize_beam_in_range ntokens w :
  (0 < complexn (w_args w) <= Z.of_nat ntokens)%Z ->
  w_args (normalize_beam ntokens w) = w_args w.
Proof.
  intros Hk. unfold normalize_beam.
  destruct ((complexn (w_args w) >? Z.of_nat ntokens)%Z
            || (complexn (w_args w) <=? 0)%Z) eqn:E.
  - apply orb_true_iff in E. destruct E as [E|E].
    + apply Z.gtb_lt in E. lia.
    + apply Z.leb_le in E. lia.
  - reflexivity.
Qed.

(** C4: with complexn set to [k], [0 < k <= vocabulary size], and
    softcliptopk not set, [test_evaluate] keeps the beam size [k], and the
    surprisal and entropy of every printed row are those of the
    distribution limited to a set [top] of [k] classes of the row that no
    class outside it outscores (which of several equally scored classes it
    holds is torch's choice): every class outside [top] has probability
    zero, a class inside it has its softmax weight divided by the total
    weight of [top], and the probabilities sum to one.  The entropy is the
    Shannon entropy of that distribution, and the surprisal is the one
    shown for the probability it gives to the observed word ([inf] for a
    word outside [top]). *)
Theorem topk_beam_restricts_distribution :
  forall fmt3 idx2word w state obs sentid r,
    (0 < complexn (w_args w) <= Z.of_nat (List.length idx2word))%Z ->
    softcliptopk (w_args w) = false ->
    (forall row, In row state -> List.length row = List.length idx2word) ->
    In r (fst (get_complexity fmt3 (w_args (normalize_beam (List.length idx2word) w))
                              idx2word state obs sentid)) ->
    complexn (w_args (normalize_beam (List.length idx2word) w))
    = complexn (w_args w) /\
    exists targ row top,
      nth_error obs (c_sentpos r) = Some targ /\
      nth_error state (c_sentpos r) = Some row /\
      List.length top = Z.to_nat (complexn (w_args w)) /\
      NoDup top /\
      (forall i, In i top -> (i < List.length idx2word)%nat) /\
      (forall i j x y, In i top -> ~ In j top ->
         nth_error row i = Some x -> nth_error row j = Some y -> (y <= x)%R) /\
      (forall j, (j < List.length idx2word)%nat -> ~ In j top ->
         nth_error (topk_dist top row) j = Some 0%R) /\
      (forall i x, In i top -> nth_error row i = Some x ->
         nth_error (topk_dist top row) i = Some (exp x / topk_mass top row)%R) /\
      Rsum (topk_dist top row) = 1%R /\
      c_entropy r = Fin (shannon_bits (topk_dist top row)) /\
      c_surp r = shown_surprisal (nth targ (topk_dist top row) 0%R).
Proof.
  intros fmt3 idx2word w state obs sentid r Hk Hsoft Hlen Hin.
  rewrite (normalize_beam_in_range _ _ Hk) in *.
  split; [reflexivity|].
  destruct (printed_row_topk fmt3 (w_args w) idx2word state obs sentid r Hk
              (or_introl Hsoft) Hlen Hin)
    as (targ & row & vals & top & rowprev & valsp & topp & Hobs & Hword & Hrow
        & Htop & _ & _ & Hent & Hsurp & _).
  assert (Hlr : List.length row = List.length idx2word)
    by (apply Hlen; eapply nth_error_In; eauto).
  destruct (topk_nonempty _ _ _ _ (proj1 Hk) Htop) as (i0 & Hi0 & Hm0).
  assert (Hz := topk_mass_pos _ _ _ Hi0 Hm0).
  destruct (topk_ret _ _ _ _ Htop) as (_ & Hl & _ & Hnd & Hval & Hdom).
  exists targ, row, top. repeat split; auto.
  - intros i Hi. apply In_nth_error in Hi. destruct Hi as (j & Hj).
    destruct (Hval _ _ Hj) as (x & _ & Hx). rewrite <- Hlr.
    apply nth_error_Some. rewrite Hx. discriminate.
  - intros j Hj Hni. apply topk_dist_outside; [lia|].
    destruct (mem j top) eqn:E; [|reflexivity].
    apply mem_In in E. contradiction.
  - intros i x Hi Hx. apply topk_dist_inside; [|exact Hx]. apply mem_In, Hi.
  - apply topk_dist_total, Hz.
Qed.

Lemma topk_beam_restricts_distribution_witness :
  exists r targ row top,
    In r ex_rows_top1 /\ c_sentpos r = 0%nat /\
    nth_error ex_obs (c_sentpos r) = Some targ /\
    nth_error ex_state (c_sentpos r) = Some row /\
    List.length top = 1%nat /\
    (forall j, (j < 2)%nat -> ~ In j top ->
       nth_error (topk_dist top row) j = Some 0%R) /\
    Rsum (topk_dist top row) = 1%R /\
    c_entropy r = Fin (shannon_bits (topk_dist top row)) /\
    c_surp r = shown_surprisal (nth targ (topk_dist top row) 0%R).
Proof.
  destruct (ex_rows_top1_printed 0) as (r & Hin & Hpos); [lia|].
  assert (Hk : (0 < complexn (w_args ex_world_top1)
                <= Z.of_nat (List.length ex_vocab))%Z) by (simpl; lia).
  destruct (topk_beam_restricts_distribution ex_fmt ex_vocab ex_world_top1
              ex_state ex_obs 0 r Hk eq_refl ex_state_rows Hin)
    as (_ & targ & row & top & Hobs & Hrow & Hl & _ & _ & _
        & Hout & _ & Hsum & Hent & Hsurp).
  exists r, targ, row, top. repeat split; auto.
Defined.

(** ** Test-time evaluation: what it leaves alone *)

Section EvaluationFrame.

Variable float_repr : ereal -> string.
Variable fmt3 : ereal -> string.
Variable Hidden : Type.
Variable init_hidden : list tensor -> Hidden.
Variable forward : list tensor -> list nat -> Hidden -> list R * Hidden.
Variable loss_grad :
  list tensor -> list nat -> Hidden -> list nat -> nat -> option tensor.
Variable show_hidden : Hidden -> Z -> bool -> string.
Variable lr : R.
Variable idx2word : list string.

Lemma same_model_refl w : same_model w w.
Proof. split; reflexivity. Qed.

Lemma same_model_trans w1 w2 w3 :
  same_model w1 w2 -> same_model w2 w3 -> same_model w1 w3.
Proof. intros [A B] [C D]. split; congruence. Qed.

Lemma same_model_print lines w : same_model w (print lines w).
Proof. split; reflexivity. Qed.

Lemma same_model_zero_grad w :
  same_model w (with_net (zero_grad (w_net w)) w).
Proof.
  split; [|reflexivity]. unfold w_params, zero_grad. simpl.
  rewrite map_map. reflexivity.
Qed.

(** The beam bookkeeping only touches [complexn] and [guessn]. *)
Lemma normalize_beam_frame n w :
  w_net (normalize_beam n w) = w_net w /\
  w_stdout (normalize_beam n w) = w_stdout w /\
  adapt (w_args (normalize_beam n w)) = adapt (w_args w) /\
  view_layer (w_args (normalize_beam n w)) = view_layer (w_args w) /\
  words (w_args (normalize_beam n w)) = words (w_args w) /\
  interact (w_args (normalize_beam n w)) = interact (w_args w).
Proof.
  unfold normalize_beam.
  destruct ((complexn (w_args w) >? Z.of_nat n)%Z || (complexn (w_args w) <=? 0)%Z).
  - destruct (guessn (set_complexn (w_args w) (Z.of_nat n)) >? Z.of_nat n)%Z;
      simpl; repeat split; reflexivity.
  - simpl. repeat split; reflexivity.
Qed.

Lemma print_header_frame n w : same_model w (print_header n w).
Proof.
  unfold print_header.
  destruct (words (w_args w) && negb (nocheader (w_args w)));
    [apply same_model_print | apply same_model_refl].
Qed.

(** The word-by-word branch never writes a parameter. *)
Lemma view_words_frame : forall data targets hidden t w,
  same_model w (snd (view_words Hidden forward show_hidden idx2word
                                data targets hidden t w)).
Proof.
  induction data as [|word_input data IH]; intros targets hidden t w.
  - apply same_model_refl.
  - cbn [view_words].
    assert (H1 := same_model_zero_grad w).
    set (w1 := with_net (zero_grad (w_net w)) w) in *.
    destruct targets as [|target targets]; [exact H1|].
    destruct (forward (w_params w1) [word_input] hidden) as [output hidden'].
    destruct (view_rows output (ntokens idx2word)) as [output_flat|e];
      [|exact H1].
    destruct (criterion output_flat [target]) as [loss|e]; [|exact H1].
    destruct (index idx2word target) as [targ_word|e]; [|exact H1].
    eapply same_model_trans; [|apply IH].
    destruct (String.eqb targ_word "<eos>"); [exact H1|].
    eapply same_model_trans; [exact H1 | apply same_model_print].
Qed.

Lemma reshape_output_frame output w :
  same_model w (snd (reshape_output idx2word output w)).
Proof.
  unfold reshape_output.
  destruct (view_rows output (ntokens idx2word)) as [rows|[]]; simpl;
    try apply same_model_refl.
  apply same_model_print.
Qed.

(** What the sentence-level branch does to the network: nothing without
    [--adapt]; with it, and when the sentence is processed to its end, one
    gradient step on the clipped, accumulated gradients. *)
Lemma whole_sentence_net test_sentences i sent data targets hidden0 t w :
  let res := whole_sentence float_repr fmt3 Hidden forward loss_grad lr idx2word
                            test_sentences i sent data targets hidden0 t w in
  w_args (snd res) = w_args w /\
  (adapt (w_args w) = false -> w_net (snd res) = w_net w) /\
  (adapt (w_args w) = true -> forall t', fst res = Ret t' ->
     w_net (snd res)
     = sgd_step lr
         (clip_grad_norm
            (backward (w_net w) (loss_grad (w_params w) data hidden0 targets))
            (clip (w_args w)))).
Proof.
  unfold whole_sentence.
  destruct (forward (w_params w) data hidden0) as [output hidden].
  unfold reshape_output.
  destruct (view_rows output (ntokens idx2word)) as [output_flat|e].
  2:{ destruct e; simpl; repeat split; auto; intros; discriminate. }
  destruct (criterion output_flat targets) as [loss|e].
  2:{ simpl. repeat split; auto; intros; discriminate. }
  destruct (words (w_args w)) eqn:Hwords.
  - destruct (get_complexity fmt3 (w_args w) idx2word output_flat targets i)
      as [rows res] eqn:Hgc.
    destruct res as [u|e].
    2:{ simpl. repeat split; auto; intros; discriminate. }
    cbn [w_args print]. destruct (adapt (w_args w)) eqn:Ha; simpl.
    + repeat split; auto; intros; discriminate.
    + repeat split; auto; intros; discriminate.
  - destruct test_sentences as [|s0 ts]; cbn [w_args print];
      destruct (adapt (w_args w)) eqn:Ha; simpl;
      repeat split; auto; intros; discriminate.
Qed.

Lemma eval_sentences_frame test_sentences : forall data_source i t w,
  adapt (w_args w) = false ->
  same_model w (snd (eval_sentences float_repr fmt3 Hidden init_hidden forward
                       loss_grad show_hidden lr idx2word
                       test_sentences i data_source t w)).
Proof.
  induction data_source as [|sent_ids rest IH]; intros i t w Ha.
  - apply same_model_refl.
  - cbn [eval_sentences].
    destruct (match test_sentences with
              | [] => Ret EmptyString
              | _ :: _ => index test_sentences i
              end) as [sent|e]; [|apply same_model_refl].
    destruct (test_get_batch sent_ids) as [data targets].
    destruct (view_layer (w_args w) >=? 0)%Z.
    + assert (Hv := view_words_frame data targets (init_hidden (w_params w)) t w).
      destruct (view_words Hidden forward show_hidden idx2word data targets
                           (init_hidden (w_params w)) t w) as [[[h t']|e] w'];
        simpl in Hv; [|exact Hv].
      eapply same_model_trans; [exact Hv|]. apply IH.
      destruct Hv as [_ Hv]. rewrite Hv. exact Ha.
    + destruct (whole_sentence_net test_sentences i sent data targets
                  (init_hidden (w_params w)) t w) as (Hargs & Hnet & _).
      destruct (whole_sentence float_repr fmt3 Hidden forward loss_grad lr idx2word
                  test_sentences i sent data targets (init_hidden (w_params w)) t w)
        as [[t'|e] w']; simpl in Hargs, Hnet; cbn [snd].
      * eapply same_model_trans; [|apply IH; rewrite Hargs; exact Ha].
        split; [unfold w_params; rewrite (Hnet Ha); reflexivity | exact Hargs].
      * split; [unfold w_params; rewrite (Hnet Ha); reflexivity | exact Hargs].
Qed.

Lemma test_evaluate_frame test_sentences data_source w :
  adapt (w_args w) = false ->
  w_params (snd (test_evaluate float_repr fmt3 Hidden init_hidden forward
                   loss_grad show_hidden lr idx2word
                   test_sentences data_source w)) = w_params w.
Proof.
  intros Ha. unfold test_evaluate.
  destruct (normalize_beam_frame (ntokens idx2word) w) as (Hn & _ & Hna & _).
  assert (Hh := print_header_frame (ntokens idx2word)
                  (normalize_beam (ntokens idx2word) w)).
  set (w1 := print_header (ntokens idx2word) (normalize_beam (ntokens idx2word) w))
    in *.
  assert (Ha1 : adapt (w_args w1) = false).
  { destruct Hh as [_ Hh]. rewrite Hh, Hna. exact Ha. }
  assert (He := eval_sentences_frame test_sentences data_source 0
                  (Fin 0%R, 0%nat) w1 Ha1).
  destruct (eval_sentences float_repr fmt3 Hidden init_hidden forward loss_grad
              show_hidden lr idx2word test_sentences 0 data_source
              (Fin 0%R, 0%nat) w1) as [[[tl nw]|e] w2]; simpl in He.
  - assert (E : w_params w2 = w_params w).
    { destruct He as [He _]. destruct Hh as [Hh _].
      rewrite He, Hh. unfold w_params. rewrite Hn. reflexivity. }
    destruct (view_layer (w_args w2) >=? 0)%Z; exact E.
  - destruct He as [He _]. destruct Hh as [Hh _].
    simpl. rewrite He, Hh. unfold w_params. rewrite Hn. reflexivity.
Qed.

(** The arguments are the same after the loop, with or without [--adapt]. *)
Lemma eval_sentences_args test_sentences : forall data_source i t w,
  w_args (snd (eval_sentences float_repr fmt3 Hidden init_hidden forward
                 loss_grad show_hidden lr idx2word
                 test_sentences i data_source t w)) = w_args w.
Proof.
  induction data_source as [|sent_ids rest IH]; intros i t w.
  - reflexivity.
  - cbn [eval_sentences].
    destruct (match test_sentences with
              | [] => Ret EmptyString
              | _ :: _ => index test_sentences i
              end) as [sent|e]; [|reflexivity].
    destruct (test_get_batch sent_ids) as [data targets].
    destruct (view_layer (w_args w) >=? 0)%Z.
    + assert (Hv := view_words_frame data targets (init_hidden (w_params w)) t w).
      destruct (view_words Hidden forward show_hidden idx2word data targets
                           (init_hidden (w_params w)) t w) as [[[h t']|e] w'];
        simpl in Hv; destruct Hv as [_ Hv]; [|exact Hv].
      rewrite IH. exact Hv.
    + destruct (whole_sentence_net test_sentences i sent data targets
                  (init_hidden (w_params w)) t w) as (Hargs & _).
      destruct (whole_sentence float_repr fmt3 Hidden forward loss_grad lr idx2word
                  test_sentences i sent data targets (init_hidden (w_params w)) t w)
        as [[t'|e] w']; simpl in Hargs; cbn [snd]; [|exact Hargs].
      rewrite IH. exact Hargs.
Qed.

(** The loop over a test set in two parts. *)
Lemma eval_sentences_app test_sentences : forall pre rest i t w,
  eval_sentences float_repr fmt3 Hidden init_hidden forward loss_grad
                 show_hidden lr idx2word test_sentences i (pre ++ rest) t w
  = match eval_sentences float_repr fmt3 Hidden init_hidden forward loss_grad
                         show_hidden lr idx2word test_sentences i pre t w with
    | (Ret t', w') =>
        eval_sentences float_repr fmt3 Hidden init_hidden forward loss_grad
                       show_hidden lr idx2word test_sentences
                       (i + List.length pre) rest t' w'
    | (Raise e, w') => (Raise e, w')
    end.
Proof.
  induction pre as [|sent_ids pre IH]; intros rest i t w.
  - simpl. rewrite Nat.add_0_r. reflexivity.
  - cbn [app eval_sentences List.length].
    destruct (match test_sentences with
              | [] => Ret EmptyString
              | _ :: _ => index test_sentences i
              end) as [sent|e]; [|reflexivity].
    destruct (test_get_batch sent_ids) as [data targets].
    destruct (if (view_layer (w_args w) >=? 0)%Z
              then match view_words Hidden forward show_hidden idx2word data
                                    targets (init_hidden (w_params w)) t w with
                   | (Ret (_, t0), w0) => (Ret t0, w0)
                   | (Raise e, w0) => (Raise e, w0)
                   end
              else whole_sentence float_repr fmt3 Hidden forward loss_grad lr
                                  idx2word test_sentences i sent data targets
                                  (init_hidden (w_params w)) t w)
      as [[t'|e] w']; [|reflexivity].
    rewrite IH. rewrite Nat.add_succ_r. reflexivity.
Qed.

(** The handler passes on what the reshape returns or raises. *)
Lemma reshape_output_result output w :
  fst (reshape_output idx2word output w) = view_rows output (ntokens idx2word).
Proof.
  unfold reshape_output.
  destruct (view_rows output (ntokens idx2word)) as [rows|[]]; reflexivity.
Qed.

Lemma view_rows_raises output n :
  raises (view_rows output n) -> view_rows output n = Raise RuntimeError.
Proof.
  unfold view_rows.
  destruct ((n =? 0)%nat || negb (List.length output mod n =? 0)%nat);
    [reflexivity | intros []].
Qed.

(** A sentence whose output cannot be reshaped ends the sentence-level
    branch with the warning and the exception. *)
Lemma whole_sentence_reshape_fails test_sentences i sent sent_ids t w :
  raises (sentence_reshape Hidden init_hidden forward idx2word w sent_ids) ->
  whole_sentence float_repr fmt3 Hidden forward loss_grad lr idx2word
                 test_sentences i sent (fst (test_get_batch sent_ids))
                 (snd (test_get_batch sent_ids)) (init_hidden (w_params w)) t w
  = (Raise RuntimeError, print [vocabulary_warning] w).
Proof.
  unfold sentence_reshape, whole_sentence. intros Hr.
  destruct (forward (w_params w) (fst (test_get_batch sent_ids))
                    (init_hidden (w_params w))) as [output hidden].
  simpl in Hr. apply view_rows_raises in Hr.
  unfold reshape_output. rewrite Hr. reflexivity.
Qed.

End EvaluationFrame.

(** One gradient step moves a parameter that has a gradient by minus the
    learning rate times that gradient, and leaves the others in place. *)
Lemma add_scaled_nth p : forall a g j x y,
  nth_error p j = Some x -> nth_error g j = Some y ->
  nth_error (add_scaled p a g) j = Some (x + a * y)%R.
Proof.
  induction p as [|x0 p IH]; intros a [|y0 g] [|j] x y Hx Hy; simpl in *;
    try discriminate.
  - congruence.
  - apply IH; assumption.
Qed.

Lemma sgd_step_nth lr net k p :
  nth_error net k = Some p ->
  nth_error (sgd_step lr net) k
  = Some (match snd p with
          | Some g => (add_scaled (fst p) (- lr) g, snd p)
          | None => p
          end).
Proof.
  intros H. unfold sgd_step.
  exact (map_nth_error
           (fun q : param => match snd q with
                             | Some g => (add_scaled (fst q) (- lr) g, snd q)
                             | None => q
                             end) k net H).
Qed.

(** The rows handed to [get_complexity] have one score per word of the
    vocabulary. *)
Lemma chunk_rows_length : forall rows n l,
  List.length l = (rows * n)%nat ->
  forall row, In row (chunk_rows rows n l) -> List.length row = n.
Proof.
  induction rows as [|rows IH]; intros n l Hl row Hin; simpl in *.
  - contradiction.
  - destruct Hin as [<-|Hin].
    + rewrite length_firstn. lia.
    + apply (IH n (skipn n l)); [rewrite length_skipn; lia | exact Hin].
Qed.

Lemma view_rows_length output n rows :
  view_rows output n = Ret rows ->
  forall row, In row rows -> List.length row = n.
Proof.
  unfold view_rows.
  destruct (n =? 0)%nat eqn:E0; [discriminate|].
  destruct (List.length output mod n =? 0)%nat eqn:Em; [|discriminate].
  simpl. intros H. injection H as <-.
  apply Nat.eqb_neq in E0. apply Nat.eqb_eq in Em.
  apply chunk_rows_length.
  rewrite Nat.mul_comm. apply Nat.Div0.div_exact. exact Em.
Qed.

(** ** Statements about test-time evaluation *)

(** C7: without the adapt flag, [test_evaluate] leaves every model
    parameter unchanged, so a parameter changes only when adaptation is
    enabled; with it, a sentence processed by the sentence-level branch
    moves every parameter that has a gradient by minus the learning rate
    times its clipped gradient, once, and leaves the other parameters in
    place. *)
Theorem evaluation_updates_only_when_adapting :
  forall float_repr fmt3 Hidden init_hidden forward loss_grad show_hidden lr
         idx2word test_sentences data_source w,
    (adapt (w_args w) = false ->
     w_params (snd (test_evaluate float_repr fmt3 Hidden init_hidden forward
                      loss_grad show_hidden lr idx2word
                      test_sentences data_source w)) = w_params w) /\
    (w_params (snd (test_evaluate float_repr fmt3 Hidden init_hidden forward
                      loss_grad show_hidden lr idx2word
                      test_sentences data_source w)) <> w_params w ->
     adapt (w_args w) = true) /\
    (forall i sent data targets hidden0 t t',
       adapt (w_args w) = true ->
       fst (whole_sentence float_repr fmt3 Hidden forward loss_grad lr idx2word
              test_sentences i sent data targets hidden0 t w) = Ret t' ->
       forall k p g,
         nth_error (clip_grad_norm
                      (backward (w_net w)
                                (loss_grad (w_params w) data hidden0 targets))
                      (clip (w_args w))) k = Some (p, g) ->
         nth_error (w_net (snd (whole_sentence float_repr fmt3 Hidden forward
                                  loss_grad lr idx2word test_sentences i sent
                                  data targets hidden0 t w))) k
         = Some (match g with
                 | Some grad => add_scaled p (- lr) grad
                 | None => p
                 end, g)).
Proof.
  intros float_repr fmt3 Hidden init_hidden forward loss_grad show_hidden lr
         idx2word test_sentences data_source w.
  split; [|split].
  - apply test_evaluate_frame.
  - intros Hchanged. destruct (adapt (w_args w)) eqn:Ha; [reflexivity|].
    exfalso. apply Hchanged. apply test_evaluate_frame. exact Ha.
  - intros i sent data targets hidden0 t t' Ha Hret k p g Hk.
    destruct (whole_sentence_net float_repr fmt3 Hidden forward loss_grad lr
                idx2word test_sentences i sent data targets hidden0 t w)
      as (_ & _ & Hstep).
    rewrite (Hstep Ha t' Hret), (sgd_step_nth _ _ _ _ Hk).
    destruct g; reflexivity.
Qed.

Lemma evaluation_updates_only_when_adapting_witness :
  w_params (snd (test_evaluate ex_fmt ex_fmt unit ex_init_hidden (ex_forward 2)
                   ex_loss_grad ex_show_hidden 20%R ex_vocab [] ex_data ex_world))
  = [[1; 2]%R].
Proof.
  apply (proj1 (evaluation_updates_only_when_adapting ex_fmt ex_fmt unit
                  ex_init_hidden (ex_forward 2) ex_loss_grad ex_show_hidden
                  20%R ex_vocab [] ex_data ex_world)).
  reflexivity.
Defined.

(** C9 (as amended): in the sentence-level branch of [test_evaluate], the
    handler passes on exactly what the reshape returns or raises; when the
    output of a sentence cannot be reshaped to the vocabulary size, the
    warning is printed after the output of the sentences before it and
    [test_evaluate] ends with the reshape's exception, so the batch run
    ends with it too, while a round of the interactive loop catches it,
    prints its own message and ends normally. *)
Theorem reshape_failure_warns_and_reraises :
  forall float_repr fmt3 Hidden init_hidden forward loss_grad show_hidden lr
         idx2word test_sentences pre sent_ids rest w t1 w1,
    (view_layer (w_args w) < 0)%Z ->
    test_sentences = [] \/ (List.length pre < List.length test_sentences)%nat ->
    eval_sentences float_repr fmt3 Hidden init_hidden forward loss_grad
      show_hidden lr idx2word test_sentences 0 pre (Fin 0%R, 0%nat)
      (print_header (ntokens idx2word) (normalize_beam (ntokens idx2word) w))
    = (Ret t1, w1) ->
    raises (sentence_reshape Hidden init_hidden forward idx2word w1 sent_ids) ->
    (forall output w0,
       fst (reshape_output idx2word output w0)
       = view_rows output (ntokens idx2word)) /\
    test_evaluate float_repr fmt3 Hidden init_hidden forward loss_grad
      show_hidden lr idx2word test_sentences (pre ++ sent_ids :: rest) w
    = (Raise RuntimeError, print [vocabulary_warning] w1) /\
    run_test float_repr fmt3 Hidden init_hidden forward loss_grad
      show_hidden lr idx2word test_sentences (pre ++ sent_ids :: rest) w
    = (Raise RuntimeError, print [vocabulary_warning] w1) /\
    interact_round float_repr fmt3 Hidden init_hidden forward loss_grad
      show_hidden lr idx2word test_sentences (pre ++ sent_ids :: rest) w
    = (Ret tt, print interact_message (print [vocabulary_warning] w1)).
Proof.
  intros float_repr fmt3 Hidden init_hidden forward loss_grad show_hidden lr
         idx2word test_sentences pre sent_ids rest w t1 w1 Hview Hts Hpre Hfail.
  split; [apply reshape_output_result|].
  assert (Hte :
    test_evaluate float_repr fmt3 Hidden init_hidden forward loss_grad
      show_hidden lr idx2word test_sentences (pre ++ sent_ids :: rest) w
    = (Raise RuntimeError, print [vocabulary_warning] w1)).
  { unfold test_evaluate. rewrite eval_sentences_app, Hpre.
    assert (Hargs : view_layer (w_args w1) = view_layer (w_args w)).
    { assert (H := eval_sentences_args float_repr fmt3 Hidden init_hidden forward
                     loss_grad show_hidden lr idx2word test_sentences pre 0
                     (Fin 0%R, 0%nat)
                     (print_header (ntokens idx2word)
                                   (normalize_beam (ntokens idx2word) w))).
      rewrite Hpre in H. simpl in H. rewrite H.
      destruct (print_header_frame (ntokens idx2word)
                  (normalize_beam (ntokens idx2word) w)) as [_ ->].
      destruct (normalize_beam_frame (ntokens idx2word) w) as (_ & _ & _ & Hv & _).
      exact Hv. }
    cbn [eval_sentences Nat.add].
    assert (Hsent : exists sent,
              match test_sentences with
              | [] => Ret EmptyString
              | _ :: _ => index test_sentences (List.length pre)
              end = Ret sent).
    { destruct Hts as [-> | Hlt]; [exists EmptyString; reflexivity|].
      destruct test_sentences as [|s0 ts]; [simpl in Hlt; lia|].
      unfold index. apply nth_error_Some in Hlt.
      destruct (nth_error (s0 :: ts) (List.length pre)) as [sent|];
        [|contradiction].
      exists sent. reflexivity. }
    destruct Hsent as (sent & ->).
    rewrite (surjective_pairing (test_get_batch sent_ids)).
    assert (Hge : (view_layer (w_args w1) >=? 0)%Z = false).
    { rewrite Hargs, Z.geb_leb. apply Z.leb_gt. exact Hview. }
    rewrite Hge.
    rewrite (whole_sentence_reshape_fails float_repr fmt3 Hidden init_hidden
               forward loss_grad lr idx2word test_sentences (List.length pre)
               sent sent_ids t1 w1 Hfail).
    reflexivity. }
  split; [exact Hte|]. split; [exact Hte|].
  unfold interact_round. rewrite Hte. reflexivity.
Qed.

Lemma reshape_failure_warns_and_reraises_witness :
  test_evaluate ex_fmt ex_fmt unit ex_init_hidden (ex_forward 3) ex_loss_grad
    ex_show_hidden 20%R ex_vocab [] ([] ++ [0; 1]%nat :: []) ex_world
  = (Raise RuntimeError,
     print [vocabulary_warning]
           (print_header 2 (normalize_beam 2 ex_world))) /\
  interact_round ex_fmt ex_fmt unit ex_init_hidden (ex_forward 3) ex_loss_grad
    ex_show_hidden 20%R ex_vocab [] ([] ++ [0; 1]%nat :: []) ex_world
  = (Ret tt,
     print interact_message
           (print [vocabulary_warning]
                  (print_header 2 (normalize_beam 2 ex_world)))).
Proof.
  assert (Hview : (view_layer (w_args ex_world) < 0)%Z) by (simpl; lia).
  destruct (reshape_failure_warns_and_reraises ex_fmt ex_fmt unit ex_init_hidden
              (ex_forward 3) ex_loss_grad ex_show_hidden 20%R ex_vocab
              [] [] [0; 1]%nat [] ex_world (Fin 0%R, 0%nat)
              (print_header 2 (normalize_beam 2 ex_world))
              Hview (or_introl eq_refl) eq_refl I)
    as (_ & Hte & _ & Hint).
  split; [exact Hte | exact Hint].
Defined.

(** C9 (as stated) fails: with a network of four classes and a dictionary of
    two words the reshape succeeds, giving two rows for one target, and the
    evaluation raises all the same, in the loss. *)
Lemma evaluation_raises_without_reshape_failure :
  ~ (raises (fst (test_evaluate ex_fmt ex_fmt unit ex_init_hidden (ex_forward 4)
                    ex_loss_grad ex_show_hidden 20%R ex_vocab [] ex_short_data
                    ex_world))
     <-> Exists (fun sent_ids =>
                   raises (sentence_reshape unit ex_init_hidden (ex_forward 4)
                                            ex_vocab ex_world sent_ids))
                ex_short_data).
Proof.
  intros [Hclaim _].
  assert (Hr : fst (test_evaluate ex_fmt ex_fmt unit ex_init_hidden (ex_forward 4)
                      ex_loss_grad ex_show_hidden 20%R ex_vocab [] ex_short_data
                      ex_world) = Raise ValueError) by reflexivity.
  rewrite Hr in Hclaim. specialize (Hclaim I).
  inversion Hclaim as [s l H|s l H]; subst.
  - exact H.
  - inversion H.
Qed.

(** ** The text of the header and of the rows *)

Section Format.

Local Open Scope string_scope.

Lemma append_assoc (s1 s2 s3 : string) : (s1 ++ s2) ++ s3 = s1 ++ (s2 ++ s3).
Proof.
  induction s1 as [|c s1 IH]; simpl; [reflexivity|]. rewrite IH. reflexivity.
Qed.

Lemma append_nil_r (s : string) : s ++ "" = s.
Proof.
  induction s as [|c s IH]; simpl; [reflexivity|]. rewrite IH. reflexivity.
Qed.

Lemma concat_empty_cons (x : string) (l : list string) :
  String.concat "" (x :: l) = x ++ String.concat "" l.
Proof.
  destruct l as [|y l]; simpl; [rewrite append_nil_r|]; reflexivity.
Qed.

Lemma concat_empty_app (l1 l2 : list string) :
  String.concat "" (l1 ++ l2) = String.concat "" l1 ++ String.concat "" l2.
Proof.
  induction l1 as [|x l1 IH].
  - reflexivity.
  - change ((x :: l1) ++ l2)%list with (x :: (l1 ++ l2)%list).
    rewrite !concat_empty_cons, IH, append_assoc. reflexivity.
Qed.

(** Joining with a separator is prefixing every item but the first. *)
Lemma concat_sep_prefix (sep : string) (l : list string) : forall x,
  String.concat sep (x :: l)
  = x ++ String.concat "" (map (fun y => sep ++ y) l).
Proof.
  induction l as [|z l IH]; intros x.
  - simpl. rewrite append_nil_r. reflexivity.
  - change (String.concat sep (x :: z :: l))
      with (x ++ sep ++ String.concat sep (z :: l)).
    rewrite (IH z). cbn [map]. rewrite concat_empty_cons, append_assoc.
    reflexivity.
Qed.

Lemma concat_sep_app (sep x : string) (l1 l2 : list string) :
  String.concat sep ((x :: l1) ++ l2)
  = String.concat sep (x :: l1)
    ++ String.concat "" (map (fun y => sep ++ y) l2).
Proof.
  change ((x :: l1) ++ l2)%list with (x :: (l1 ++ l2)%list).
  rewrite !concat_sep_prefix, map_app, concat_empty_app, append_assoc.
  reflexivity.
Qed.

Lemma header_base_concat a n :
  header_base a n = String.concat (csep a) (header_base_names a n).
Proof.
  unfold header_base, header_base_names.
  destruct (complexn a =? Z.of_nat n)%Z; cbn [String.concat];
    rewrite ?append_assoc; reflexivity.
Qed.

Lemma header_guess_concat a i :
  header_guess a i
  = String.concat "" (map (fun y => csep a ++ y) (header_guess_names a i)).
Proof.
  unfold header_guess, header_guess_names.
  destruct (guessscores a); [|destruct (guessprobs a); [|destruct (guessratios a)]];
    cbn [map String.concat]; rewrite ?append_assoc, ?append_nil_r; reflexivity.
Qed.

(** The header is its column names joined by the separator. *)
Lemma header_text_names a n :
  header_text a n = String.concat (csep a) (header_names a n).
Proof.
  unfold header_text, header_names. rewrite header_base_concat.
  assert (Hb : exists x l, header_base_names a n = x :: l).
  { unfold header_base_names. destruct (complexn a =? Z.of_nat n)%Z;
      eexists; eexists; reflexivity. }
  destruct Hb as (x & l & Hb). rewrite Hb.
  rewrite concat_sep_app. f_equal.
  destruct (guess a); [|reflexivity].
  induction (seq 0 (Z.to_nat (guessn a))) as [|i rest IH]; [reflexivity|].
  cbn [map flat_map]. rewrite map_app, concat_empty_app, concat_empty_cons.
  rewrite IH, header_guess_concat. reflexivity.
Qed.

End Format.

(** A block of joined fields at the end of a row reads as its fields. *)
Lemma concat_joined_block (sep x f : string) (l fs : list string) :
  String.concat sep ((x :: l) ++ [String.concat sep (f :: fs)])
  = String.concat sep ((x :: l) ++ f :: fs).
Proof.
  rewrite !concat_sep_app. f_equal.
  cbn [map]. rewrite !concat_empty_cons, concat_sep_prefix.
  cbn [String.concat]. rewrite append_nil_r, append_assoc. reflexivity.
Qed.

(** The probability of the second of two classes scored 2 and 1 is not the
    ratio 1/2 of their scores. *)
Lemma ex_prob_is_not_ratio :
  (exp (1 - ln (exp 2 + (exp 1 + 0))) <> 1 / 2)%R.
Proof.
  assert (He : (1 < exp 1)%R).
  { rewrite <- exp_0 at 1. apply exp_increasing. lra. }
  assert (H2 : (exp 2 = exp 1 * exp 1)%R).
  { replace 2%R with (1 + 1)%R by lra. apply exp_plus. }
  assert (Hz : (0 < exp 2 + (exp 1 + 0))%R) by (rewrite H2; nra).
  unfold Rminus. rewrite exp_plus, exp_Ropp, exp_ln by exact Hz.
  intros H.
  assert (H' : (2 * exp 1 = exp 2 + (exp 1 + 0))%R).
  { apply (Rmult_eq_compat_r (2 * (exp 2 + (exp 1 + 0)))) in H.
    replace (exp 1 * / (exp 2 + (exp 1 + 0)) * (2 * (exp 2 + (exp 1 + 0))))%R
      with (2 * exp 1)%R in H by (field; lra).
    lra. }
  rewrite H2 in H'. nra.
Qed.

(** C8 at its failing input: with two guesses per word and both
    [--guessratios] and [--guessprobs] set, the header names the score
    columns gprob0 and gprob1 while the rows hold the score ratios 2/2 and
    1/2 in them; with [--guessprobs] alone the same columns hold the
    probabilities, and the second one is not 1/2. *)
Theorem gprob_header_over_ratio_columns :
  forall fmt3,
    header_text ex_args_guess 2
    = "word sentid sentpos wlen surp entropy entred guess0 gprob0 guess1 gprob1"%string
    /\ (exists r,
          In r (fst (get_complexity fmt3 ex_args_guess ex_vocab ex_state_guess
                                    ex_obs 0)) /\
          c_sentpos r = 0%nat /\
          c_guesses r = Some ("a " ++ fmt3 (Fin (2 / 2)%R) ++ " b "
                                   ++ fmt3 (Fin (1 / 2)%R))%string)
    /\ (exists r p0 p1,
          In r (fst (get_complexity fmt3 ex_args_gprob ex_vocab ex_state_guess
                                    ex_obs 0)) /\
          c_sentpos r = 0%nat /\
          c_guesses r = Some ("a " ++ fmt3 (Fin p0) ++ " b "
                                   ++ fmt3 (Fin p1))%string /\
          p1 <> (1 / 2)%R).
Proof.
  intros fmt3. split; [reflexivity|]. split.
  - run_complexity.
    eexists. split; [left; reflexivity|]. split; reflexivity.
  - run_complexity. unfold log_softmax. simpl.
    eexists. eexists. eexists. split; [left; reflexivity|].
    split; [reflexivity|]. split; [reflexivity|].
    exact ex_prob_is_not_ratio.
Qed.

(** With [--guess] and an empty list of guesses the row ends with a
    separator: the joined guesses are one more, empty, field. *)
Lemma row_line_empty_guess_block float_repr args r :
  c_guesses r = Some ""%string ->
  row_line float_repr args r
  = (String.concat (csep args) (firstn 7 (row_fields float_repr r))
     ++ csep args)%string.
Proof.
  intros H. unfold row_line, row_fields. rewrite H.
  rewrite concat_sep_app. cbn [firstn app map String.concat].
  rewrite !append_nil_r. reflexivity.
Qed.

Lemma ex_noguess_row_printed fmt3 :
  header_text ex_args_noguess 2
  = "word sentid sentpos wlen surp entropy entred"%string /\
  exists r,
    In r (fst (get_complexity fmt3 ex_args_noguess ex_vocab ex_state_guess
                              ex_obs 0)) /\
    c_guesses r = Some ""%string.
Proof.
  split; [reflexivity|].
  run_complexity.
  eexists. split; [left; reflexivity | reflexivity].
Qed.

(** ** The training schedule *)

Section Schedule.

Import Training.

Local Open Scope Q_scope.

Variable Model : Type.
Variable train : Model -> Q -> nat -> Model.
Variable evaluate : Model -> Q.

Hypothesis nonzero_loss : forall m, ~ evaluate m == 0.



Lemma trailing_unsaved_snoc pre log :
  trailing_unsaved (pre ++ [log])
  = if e_saved log then 0%nat else S (trailing_unsaved pre).
Proof.
  unfold trailing_unsaved. rewrite rev_app_distr. reflexivity.
Qed.




End Schedule.






(** The save test reads a best loss of zero as no best loss: with a
    validation loss that stays at 0 every epoch saves, although none after
    the first is lower than the ones before it. *)
Lemma zero_loss_saves_every_epoch :
  map Training.e_saved ex_zero_trace = [true; true; true] /\
  map Training.e_val ex_zero_trace = [0%Q; 0%Q; 0%Q].
Proof. split; reflexivity. Qed.

(** ** Result aggregation *)

(** C5 at its failing input: for a file of four sentences whose final words
    have surprisal 1, 2, 3 and 4 the script reports the mean 3 for high_pl,
    the surprisal of the final word of the third sentence, where the claim
    describes 4, the surprisal in the last row of the fourth sentence; the
    other three means are as described. *)
Theorem last_sentence_surprisal_is_repeated :
  exists rep sp described,
    Compile.experiment "replication" ex_results None = Ret (rep, sp) /\
    described_report ex_results = Ret described /\
    final_surps ex_result_rows = [1; 2; 3; 4]%Q /\
    (Compile.HIGH_SG rep == 1 /\ Compile.HIGH_SG described == 1)%Q /\
    (Compile.LOW_SG rep == 2 /\ Compile.LOW_SG described == 2)%Q /\
    (Compile.LOW_PL rep == 3 /\ Compile.LOW_PL described == 3)%Q /\
    (Compile.HIGH_PL rep == 3 /\ Compile.HIGH_PL described == 4)%Q.
Proof.
  eexists. eexists. eexists.
  split; [vm_compute; reflexivity|].
  split; [vm_compute; reflexivity|].
  split; [reflexivity|].
  repeat split; reflexivity.
Qed.

(** The file filter is a substring test on the path: the ic experiment
    also reads the replication files. *)
Lemma ic_experiment_reads_replication_files :
  map Compile.f_path (Compile.red_files "ic" ex_two_experiments)
  = ["results/EN/en_0_replication_measures"; "results/EN/en_0_ic_measures"]%string.
Proof. reflexivity. Qed.

(** * Further properties *)

(** ** Result aggregation: what a file contributes *)

Section CompileFacts.

Import Compile.

Lemma line_loop_app rows1 rows2 v :
  line_loop (rows1 ++ rows2) v
  = (v' <-! line_loop rows1 v ;; line_loop rows2 v').
Proof.
  revert v. induction rows1 as [|l rows1 IH]; intros v; simpl.
  - reflexivity.
  - destruct (line_step l v) as [v1|e]; simpl; [apply IH | reflexivity].
Qed.

(** A row's surprisal is not read when the row is processed: it is only
    kept as [last_line]. *)
Lemma line_step_surp_unread l l' v :
  l_sentid l = l_sentid l' ->
  match line_step l v, line_step l' v with
  | Ret v1, Ret v2 => vars_core v1 = vars_core v2
  | Raise e1, Raise e2 => e1 = e2
  | _, _ => False
  end.
Proof.
  intros Hid. unfold line_step. rewrite <- Hid.
  destruct (if negb (l_sentid l =? sentID v)%Z
            then match last_line v with
                 | Some ll =>
                     append_surp (l_surp ll) true
                       (mkVars (l_sentid l) (last_line v) (surps v) (entries v)
                               (Some (l_surp ll)))
                 | None => Raise TypeError
                 end
            else Ret v) as [v1|e]; reflexivity.
Qed.

Lemma append_surp_core x reset v1 v2 :
  vars_core v1 = vars_core v2 ->
  match append_surp x reset v1, append_surp x reset v2 with
  | Ret a, Ret b => entries a = entries b /\ surp a = surp b
  | Raise e1, Raise e2 => e1 = e2
  | _, _ => False
  end.
Proof.
  unfold vars_core. intros H. injection H as Hid Hs He Hp.
  unfold append_surp. rewrite Hs, He, Hp.
  destruct (List.length (surps v2 ++ [x]) =? 4)%nat; simpl; [|auto].
  destruct (new_entry (surps v2 ++ [x])); simpl; auto.
Qed.

End CompileFacts.

(** X1: the surprisal in the last row of a result file is never used: two
    files that differ only in that value give the same entries and leave
    the same [surp] behind, or raise the same exception. *)
Theorem last_row_surprisal_is_ignored :
  forall path rows id s s' ents sp,
    Compile.file_step
      (Compile.mkFile path (rows ++ [Compile.mkLine id s])) ents sp
    = Compile.file_step
        (Compile.mkFile path (rows ++ [Compile.mkLine id s'])) ents sp.
Proof.
  intros path rows id s s' ents sp. unfold Compile.file_step. simpl.
  rewrite !line_loop_app.
  destruct (Compile.line_loop rows (Compile.mkVars 0 None [] ents sp)) as [v|e];
    simpl; [|reflexivity].
  assert (H := line_step_surp_unread (Compile.mkLine id s) (Compile.mkLine id s')
                 v eq_refl).
  destruct (Compile.line_step (Compile.mkLine id s) v) as [v1|e1];
    destruct (Compile.line_step (Compile.mkLine id s') v) as [v2|e2];
    simpl; try contradiction; [|congruence].
  assert (Hp : Compile.surp v1 = Compile.surp v2).
  { unfold vars_core in H. congruence. }
  rewrite Hp. destruct (Compile.surp v2) as [x|]; [|reflexivity].
  assert (Ha := append_surp_core x false v1 v2 H).
  destruct (Compile.append_surp x false v1) as [a|ea];
    destruct (Compile.append_surp x false v2) as [b|eb];
    simpl; try contradiction; [|congruence].
  destruct Ha as [-> ->]. reflexivity.
Qed.

Section CompileInvariant.

Import Compile.

Lemma append_surp_last x v v' :
  surp v = Some x ->
  append_surp x true v = Ret v' ->
  surp_is_last v'.
Proof.
  intros Hx. unfold append_surp, surp_is_last.
  destruct (List.length (surps v ++ [x]) =? 4)%nat.
  - destruct (new_entry (surps v ++ [x])) as [e|]; simpl; [|discriminate].
    intros H. injection H as <-. simpl. exact I.
  - intros H. injection H as <-. simpl.
    destruct (surps v ++ [x]) eqn:E; [exact I|].
    rewrite <- E, last_last. exact Hx.
Qed.

Lemma line_step_last l v v' :
  surp_is_last v -> line_step l v = Ret v' -> surp_is_last v'.
Proof.
  intros Hinv. unfold line_step. intros H.
  apply obind_ret in H. destruct H as (v1 & H1 & H).
  injection H as <-.
  change (surp_is_last v1).
  destruct (negb (l_sentid l =? sentID v)%Z).
  - destruct (last_line v) as [ll|]; [|discriminate].
    eapply append_surp_last; [|exact H1]. reflexivity.
  - injection H1 as <-. exact Hinv.
Qed.

Lemma line_loop_last rows : forall v v',
  surp_is_last v -> line_loop rows v = Ret v' -> surp_is_last v'.
Proof.
  induction rows as [|l rows IH]; intros v v' Hinv H; simpl in H.
  - injection H as <-. exact Hinv.
  - apply obind_ret in H. destruct H as (v1 & H1 & H).
    exact (IH v1 v' (line_step_last l v v1 Hinv H1) H).
Qed.

End CompileInvariant.

(** X2: the entry that the append after the line loop completes, if there
    is one, has the same value for low_pl and high_pl; otherwise the file
    adds nothing after its loop. *)
Theorem entry_after_loop_repeats_low_pl :
  forall f ents sp v ents' sp',
    Compile.line_loop (Compile.f_rows f) (Compile.mkVars 0 None [] ents sp)
    = Ret v ->
    Compile.file_step f ents sp = Ret (ents', sp') ->
    ents' = Compile.entries v \/
    exists a b c, ents' = Compile.entries v ++ [Compile.mkEntry a b c c].
Proof.
  intros f ents sp v ents' sp' Hloop Hfile.
  assert (Hinv : surp_is_last v).
  { eapply line_loop_last; [|exact Hloop]. exact I. }
  unfold Compile.file_step in Hfile. rewrite Hloop in Hfile. simpl in Hfile.
  destruct (Compile.surp v) as [x|] eqn:Hx; [|discriminate].
  unfold Compile.append_surp in Hfile.
  destruct (List.length (Compile.surps v ++ [x]) =? 4)%nat eqn:E4.
  - apply Nat.eqb_eq in E4. rewrite length_app in E4. simpl in E4.
    unfold surp_is_last in Hinv.
    destruct (Compile.surps v) as [|a [|b [|c [|d s]]]] eqn:Es;
      simpl in E4; try lia.
    rewrite Hx in Hinv. simpl in Hinv. injection Hinv as ->.
    simpl in Hfile. injection Hfile as <- _.
    right. exists a, b, c. reflexivity.
  - simpl in Hfile. injection Hfile as <- _. left. reflexivity.
Qed.

Lemma entry_after_loop_repeats_low_pl_witness :
  [Compile.mkEntry 1 2 3 3]%Q = [] \/
  exists a b c, [Compile.mkEntry 1 2 3 3]%Q = [] ++ [Compile.mkEntry a b c c].
Proof.
  apply (entry_after_loop_repeats_low_pl
           (Compile.mkFile "results/EN/en_0_replication_measures" ex_result_rows)
           [] None
           (Compile.mkVars 3 (Some (Compile.mkLine 3 4)) [1; 2; 3]%Q [] (Some 3%Q))
           [Compile.mkEntry 1 2 3 3]%Q (Some 3%Q)); reflexivity.
Defined.

(** X3: a result file whose first row does not carry sentence id 0 makes
    the script fail with a TypeError: there is no previous line to read. *)
Theorem first_row_with_nonzero_id_raises :
  forall path l rows ents sp,
    Compile.l_sentid l <> 0%Z ->
    Compile.file_step (Compile.mkFile path (l :: rows)) ents sp
    = Raise TypeError.
Proof.
  intros path l rows ents sp Hid. unfold Compile.file_step. simpl.
  unfold Compile.line_step. simpl.
  destruct (Compile.l_sentid l =? 0)%Z eqn:E;
    [apply Z.eqb_eq in E; contradiction | reflexivity].
Qed.

Lemma first_row_with_nonzero_id_raises_witness :
  Compile.file_step
    (Compile.mkFile "results/EN/en_0_rc_measures" [Compile.mkLine 1 2%Q]) [] None
  = Raise TypeError.
Proof.
  apply first_row_with_nonzero_id_raises. discriminate.
Defined.

Section CompileSingleSentence.

Import Compile.

Lemma line_loop_single_id rows : forall ll ents sp,
  (forall l, In l rows -> l_sentid l = 0%Z) ->
  exists ll',
    line_loop rows (mkVars 0 ll [] ents sp) = Ret (mkVars 0 ll' [] ents sp).
Proof.
  induction rows as [|l rows IH]; intros ll ents sp Hall; simpl.
  - exists ll. reflexivity.
  - unfold line_step. simpl.
    rewrite (Hall l (or_introl eq_refl)). simpl.
    apply IH. intros l' Hl'. apply Hall. right. exact Hl'.
Qed.

End CompileSingleSentence.

(** X4: a result file with a single sentence (every row carries id 0, or
    there is no row) adds no entry: it raises a NameError when no earlier
    file has set [surp], and otherwise passes the earlier file's value on. *)
Theorem single_sentence_file_adds_nothing :
  forall path rows ents sp,
    (forall l, In l rows -> Compile.l_sentid l = 0%Z) ->
    Compile.file_step (Compile.mkFile path rows) ents sp
    = match sp with
      | None => Raise NameError
      | Some x => Ret (ents, Some x)
      end.
Proof.
  intros path rows ents sp Hall. unfold Compile.file_step. simpl.
  destruct (line_loop_single_id rows None ents sp Hall) as (ll' & ->).
  simpl. destruct sp as [x|]; reflexivity.
Qed.

Lemma single_sentence_file_adds_nothing_witness :
  Compile.file_step
    (Compile.mkFile "results/ES/es_0_extension_measures"
                    [Compile.mkLine 0 5%Q; Compile.mkLine 0 1%Q]) [] None
  = Raise NameError.
Proof.
  apply (single_sentence_file_adds_nothing
           "results/ES/es_0_extension_measures"
           [Compile.mkLine 0 5%Q; Compile.mkLine 0 1%Q] [] None).
  intros l [<-|[<-|[]]]; reflexivity.
Defined.

(** X5: an experiment for which no result file is selected ends with a
    StatisticsError: the mean of no entry. *)
Theorem experiment_without_files_raises :
  forall exp files sp,
    (forall f, In f files -> Compile.contains exp (Compile.f_path f) = false) ->
    Compile.experiment exp files sp = Raise StatisticsError.
Proof.
  intros exp files sp Hnone. unfold Compile.experiment.
  assert (E : Compile.red_files exp files = []).
  { unfold Compile.red_files. induction files as [|f files IH]; [reflexivity|].
    simpl. rewrite (Hnone f (or_introl eq_refl)).
    apply IH. intros f' Hf'. apply Hnone. right. exact Hf'. }
  rewrite E. reflexivity.
Qed.

Lemma experiment_without_files_raises_witness :
  Compile.experiment "extension" ex_results None = Raise StatisticsError.
Proof.
  apply experiment_without_files_raises.
  intros f [<-|[]]. reflexivity.
Defined.

(** ** The file filter *)

Section Substrings.

Local Open Scope string_scope.

Lemma substring_empty n m : substring n m "" = "".
Proof. destruct n, m; reflexivity. Qed.

Lemma substring_substring : forall s m n k j,
  (k + j <= n)%nat ->
  substring k j (substring m n s) = substring (m + k) j s.
Proof.
  induction s as [|c s IH]; intros m n k j Hle.
  - rewrite !substring_empty. reflexivity.
  - destruct m as [|m].
    + destruct n as [|n].
      * assert (k = 0%nat) by lia. assert (j = 0%nat) by lia. subst. reflexivity.
      * destruct k as [|k]; simpl.
        -- destruct j as [|j]; [reflexivity|]. simpl.
           rewrite (IH 0%nat n 0%nat j) by lia. reflexivity.
        -- apply (IH 0%nat n k j). lia.
    + simpl. apply IH. exact Hle.
Qed.

Lemma substring_length_le : forall s k j,
  (String.length (substring k j s) <= String.length s - k)%nat.
Proof.
  induction s as [|c s IH]; intros k j.
  - rewrite substring_empty. simpl. lia.
  - destruct k as [|k]; simpl.
    + destruct j as [|j]; simpl; [lia|]. specialize (IH 0%nat j). lia.
    + apply IH.
Qed.

Lemma contains_occurs sub s :
  Compile.contains sub s = true ->
  exists m, substring m (String.length sub) s = sub.
Proof.
  unfold Compile.contains.
  destruct (String.index 0%nat sub s) as [m|] eqn:E; [|discriminate].
  intros _. exists m. exact (index_correct1 _ _ _ _ E).
Qed.

Lemma occurs_contains sub s m :
  sub <> "" -> substring m (String.length sub) s = sub ->
  Compile.contains sub s = true.
Proof.
  intros Hne Hsub. unfold Compile.contains.
  destruct (String.index 0%nat sub s) as [p|] eqn:E; [reflexivity|].
  exfalso. exact (index_correct3 0%nat m sub s E Hne (Nat.le_0_l m) Hsub).
Qed.

(** A string that occurs in a string that occurs in [s] occurs in [s]. *)
Lemma contains_trans inner sub s :
  inner <> "" ->
  Compile.contains inner sub = true -> Compile.contains sub s = true ->
  Compile.contains inner s = true.
Proof.
  intros Hne Hin Hsub.
  destruct (contains_occurs _ _ Hin) as (k & Hk).
  destruct (contains_occurs _ _ Hsub) as (m & Hm).
  apply (occurs_contains inner s (m + k) Hne).
  rewrite <- (substring_substring s m (String.length sub) k (String.length inner)).
  - rewrite Hm. exact Hk.
  - assert (Hl := substring_length_le sub k (String.length inner)).
    rewrite Hk in Hl.
    destruct inner as [|c inner]; [contradiction|]. simpl in *. lia.
Qed.

End Substrings.

(** X6: the experiments are told apart by a substring test on the path, and
    "ic" occurs in "replication": every file read for the replication
    experiment is read for the ic experiment as well. *)
Theorem ic_reads_every_replication_file :
  forall files f,
    In f (Compile.red_files "replication" files) ->
    In f (Compile.red_files "ic" files).
Proof.
  intros files f Hin. unfold Compile.red_files in *.
  apply filter_In in Hin. destruct Hin as [Hf Hrep].
  apply filter_In. split; [exact Hf|].
  apply (contains_trans "ic" "replication" (Compile.f_path f));
    [discriminate | reflexivity | exact Hrep].
Qed.

Lemma ic_reads_every_replication_file_witness :
  In (Compile.mkFile "results/EN/en_0_replication_measures" ex_result_rows)
     (Compile.red_files "ic" ex_results).
Proof.
  apply ic_reads_every_replication_file. left. reflexivity.
Defined.

(** ** The training schedule: the checkpoint and the length of a run *)

Section Checkpoint.

Import Training.

Local Open Scope Q_scope.

Variable Model : Type.
Variable train : Model -> Q -> nat -> Model.
Variable evaluate : Model -> Q.

Hypothesis nonzero_loss : forall m, ~ evaluate m == 0.



End Checkpoint.

Section RunLength.

Import Training.

Variable Model : Type.
Variable train : Model -> Q -> nat -> Model.
Variable evaluate : Model -> Q.

Lemma epoch_step_counter pre epoch st :
  counter_inv pre st ->
  let log := fst (epoch_step train evaluate epoch st) in
  let st' := snd (epoch_step train evaluate epoch st) in
  (trailing_unsaved (pre ++ [log]) <= 3)%nat /\
  (e_break log = false -> counter_inv (pre ++ [log]) st').
Proof.
  intros [Hni Hlt]. unfold epoch_step.
  destruct (py_not (best_val_loss st)
            || match best_val_loss st with
               | Some best =>
                   Qltb (evaluate (train (t_model st) (t_lr st) epoch)) best
               | None => false
               end).
  - cbn. rewrite trailing_unsaved_snoc. cbn.
    split; [lia|]. intros _. unfold counter_inv. cbn.
    rewrite trailing_unsaved_snoc. cbn. lia.
  - destruct (3 <=? S (no_improvement st))%nat eqn:E3; cbn;
      rewrite trailing_unsaved_snoc; cbn.
    + split; [lia | discriminate].
    + apply Nat.leb_gt in E3. split; [lia|].
      intros _. unfold counter_inv. cbn.
      rewrite trailing_unsaved_snoc. cbn. lia.
Qed.

Lemma epochs_from_count : forall count first st,
  (List.length (fst (epochs_from train evaluate count first st)) <= count)%nat.
Proof.
  induction count as [|count IH]; intros first st; [simpl; lia|].
  cbn [epochs_from].
  destruct (epoch_step train evaluate first st) as [log st1].
  destruct (e_break log); [simpl; lia|].
  specialize (IH (S first) st1).
  destruct (epochs_from train evaluate count (S first) st1) as [logs st2].
  cbn [fst List.length] in *. lia.
Qed.

(** At every point of the loop at most three epochs have gone by since
    the last save, and after three the loop has ended. *)
Lemma epochs_from_cut : forall count first st pre n,
  counter_inv pre st ->
  (trailing_unsaved
     (pre ++ firstn n (fst (epochs_from train evaluate count first st))) <= 3)%nat /\
  (trailing_unsaved
     (pre ++ firstn n (fst (epochs_from train evaluate count first st))) = 3%nat ->
   firstn n (fst (epochs_from train evaluate count first st))
   = fst (epochs_from train evaluate count first st)).
Proof.
  induction count as [|count IH]; intros first st pre n Hinv.
  - simpl. rewrite firstn_nil, app_nil_r. destruct Hinv as [Hni Hlt].
    split; [lia|]. intros _. reflexivity.
  - destruct n as [|n].
    + cbn [firstn]. rewrite app_nil_r. destruct Hinv as [Hni Hlt].
      split; [lia|]. intros H. lia.
    + cbn [epochs_from].
      destruct (epoch_step_counter pre first st Hinv) as [Htr Hnext].
      destruct (epoch_step train evaluate first st) as [log st1].
      cbn [fst snd] in Htr, Hnext.
      destruct (e_break log) eqn:Ebr.
      * cbn [fst firstn]. rewrite firstn_nil.
        split; [exact Htr|]. intros _. reflexivity.
      * specialize (IH (S first) st1 (pre ++ [log]) n (Hnext eq_refl)).
        destruct (epochs_from train evaluate count (S first) st1) as [logs st2].
        cbn [fst firstn] in *. destruct IH as (Ht & Hend).
        rewrite <- app_assoc in Ht, Hend. cbn [app] in Ht, Hend.
        split; [exact Ht|].
        intros H. rewrite (Hend H). reflexivity.
Qed.

End RunLength.



(** X8: at every point of a training run, so also in a run that Ctrl+C
    or an exception cuts short after some epochs, no more epochs have been
    made than were asked for and no more than three since the last save
    (or the start); and once three epochs in a row have not saved, no epoch
    follows. *)
Theorem training_run_is_bounded :
  forall (Model : Type) (train : Model -> Q -> nat -> Model)
         (evaluate : Model -> Q) (epochs : nat) (m : Model) (lr : Q) (n : nat),
    (List.length (run_cut_after train evaluate epochs m lr n) <= epochs)%nat /\
    (trailing_unsaved (run_cut_after train evaluate epochs m lr n) <= 3)%nat /\
    (trailing_unsaved (run_cut_after train evaluate epochs m lr n) = 3%nat ->
     run_cut_after train evaluate epochs m lr n
     = fst (Training.training train evaluate epochs m lr)).
Proof.
  intros Model train evaluate epochs m lr n.
  assert (Hinv : counter_inv [] (Training.initial m lr)).
  { split; [reflexivity | simpl; lia]. }
  destruct (epochs_from_cut Model train evaluate epochs 1
              (Training.initial m lr) [] n Hinv) as (Ht & Hend).
  pose proof (epochs_from_count Model train evaluate epochs 1
                (Training.initial m lr)) as Hl.
  cbn [app] in Ht, Hend. unfold run_cut_after, Training.training.
  split; [|split; [exact Ht | exact Hend]].
  rewrite length_firstn. lia.
Qed.

(** ** The test driver *)

Section RunTestFacts.

Local Open Scope string_scope.
Local Open Scope Z_scope.

Lemma model_file_out_of_range (lang : string) (n : Z) :
  n < 0 \/ 4 < n -> RunTest.model_file_for lang n = None.
Proof.
  intros Hn. unfold RunTest.model_file_for, RunTest.bind_if.
  assert (E0 : (n =? 0) = false) by (apply Z.eqb_neq; lia).
  assert (E1 : (n =? 1) = false) by (apply Z.eqb_neq; lia).
  assert (E2 : (n =? 2) = false) by (apply Z.eqb_neq; lia).
  assert (E3 : (n =? 3) = false) by (apply Z.eqb_neq; lia).
  assert (E4 : (n =? 4) = false) by (apply Z.eqb_neq; lia).
  rewrite E0, E1, E2, E3, E4.
  destruct (String.eqb lang "en"), (String.eqb lang "es"); reflexivity.
Qed.

Lemma model_file_other_language (lang : string) (n : Z) :
  lang <> "en"%string -> lang <> "es"%string ->
  RunTest.model_file_for lang n = None.
Proof.
  intros Hen Hes. unfold RunTest.model_file_for.
  apply String.eqb_neq in Hen. apply String.eqb_neq in Hes.
  rewrite Hen, Hes. reflexivity.
Qed.

Lemma model_file_in_range (lang : string) (n : Z) (f : string) :
  RunTest.model_file_for lang n = Some f ->
  (lang = "en"%string \/ lang = "es"%string) /\ 0 <= n <= 4.
Proof.
  intros H. split.
  - destruct (String.eqb lang "en") eqn:Een;
      [left; apply String.eqb_eq; exact Een|].
    destruct (String.eqb lang "es") eqn:Ees;
      [right; apply String.eqb_eq; exact Ees|].
    apply String.eqb_neq in Een. apply String.eqb_neq in Ees.
    rewrite (model_file_other_language lang n Een Ees) in H. discriminate.
  - destruct (Z_lt_dec n 0) as [Hlo|Hlo].
    + rewrite (model_file_out_of_range lang n (or_introl Hlo)) in H.
      discriminate.
    + destruct (Z_lt_dec 4 n) as [Hhi|Hhi].
      * rewrite (model_file_out_of_range lang n (or_intror Hhi)) in H.
        discriminate.
      * lia.
Qed.

Lemma small_model_number (n : Z) :
  0 <= n <= 4 -> n = 0 \/ n = 1 \/ n = 2 \/ n = 3 \/ n = 4.
Proof. lia. Qed.

Lemma main_ret_in_range (lang : string) (n : Z) (cmds : list (list string)) :
  lang = "en"%string \/ lang = "es"%string ->
  RunTest.main lang n = Ret cmds -> 0 <= n <= 4.
Proof.
  intros Hlang H.
  destruct (Z_lt_dec n 0) as [Hlo|Hlo];
    [|destruct (Z_lt_dec 4 n) as [Hhi|Hhi]; [|lia]].
  - exfalso. unfold RunTest.main, RunTest.run_all in H.
    destruct Hlang as [-> | ->]; cbn in H;
      unfold RunTest.generate_results in H;
      rewrite (model_file_out_of_range _ n (or_introl Hlo)) in H;
      discriminate.
  - exfalso. unfold RunTest.main, RunTest.run_all in H.
    destruct Hlang as [-> | ->]; cbn in H;
      unfold RunTest.generate_results in H;
      rewrite (model_file_out_of_range _ n (or_intror Hhi)) in H;
      discriminate.
Qed.

End RunTestFacts.

(** X9: with the language [en] or [es], a model number outside 0..4 makes
    the first call of [generate_results] raise a NameError (an unbound
    [modelFile]); this includes 5, which the usage message offers. *)
Theorem model_number_outside_0_to_4_raises (lang : string) (n : Z) :
  lang = "en"%string \/ lang = "es"%string ->
  (n < 0 \/ 4 < n)%Z ->
  RunTest.main lang n = Raise NameError.
Proof.
  intros Hlang Hn. unfold RunTest.main, RunTest.run_all.
  destruct Hlang as [-> | ->]; cbn;
    unfold RunTest.generate_results;
    rewrite (model_file_out_of_range _ n Hn); reflexivity.
Qed.

Lemma model_number_outside_0_to_4_raises_witness :
  RunTest.main "en" 5 = Raise NameError.
Proof.
  apply (model_number_outside_0_to_4_raises "en" 5).
  - left. reflexivity.
  - right. lia.
Defined.

(** X10: a language other than the exact strings [en] and [es] runs no
    command and raises nothing, whatever the model number. *)
Theorem other_language_runs_nothing (lang : string) (n : Z) :
  lang <> "en"%string -> lang <> "es"%string ->
  RunTest.main lang n = Ret [].
Proof.
  intros Hen Hes. unfold RunTest.main.
  apply String.eqb_neq in Hen. apply String.eqb_neq in Hes.
  rewrite Hen, Hes. reflexivity.
Qed.

Lemma other_language_runs_nothing_witness :
  RunTest.main "EN" 0 = Ret [].
Proof.
  apply (other_language_runs_nothing "EN" 0); discriminate.
Defined.

(** X11: a successful run issues one command per experiment of the
    language, in the order of [compile_results.py]'s experiment list; the
    command of an experiment is the test script applied to a model file,
    a stimuli file, the language and a results file that lies directly in
    the directory [compile_results.py] lists for the language and whose
    name contains the experiment's name, so that the experiment's filter
    selects it. *)
Theorem runs_write_what_the_aggregation_reads
  (lang : string) (n : Z) (cmds : list (list string)) :
  lang = "en"%string \/ lang = "es"%string ->
  RunTest.main lang n = Ret cmds ->
  List.length cmds = List.length (exps_of lang) /\
  forall (k : nat) (exp : string),
    nth_error (exps_of lang) k = Some exp ->
    exists modelFile sentsFile name,
      nth_error cmds k =
        Some ["./test_results.sh"%string; modelFile; sentsFile; lang;
              (results_dir lang ++ name)%string] /\
      RunTest.model_file_for lang n = Some modelFile /\
      String.index 0 "/" name = None /\
      Compile.contains exp (results_dir lang ++ name) = true.
Proof.
  intros Hlang H.
  pose proof (small_model_number n (main_ret_in_range lang n cmds Hlang H))
    as Hn.
  destruct Hlang as [-> | ->];
    destruct Hn as [-> | [-> | [-> | [-> | ->]]]];
    vm_compute in H; injection H as <-;
    (split; [reflexivity|]);
    intros k exp Hk;
    repeat (destruct k as [|k];
            [injection Hk as <-;
             eexists; eexists; eexists;
             split; [vm_compute; reflexivity|];
             split; [reflexivity|];
             split; vm_compute; reflexivity|]);
    destruct k; discriminate Hk.
Qed.

Lemma runs_write_what_the_aggregation_reads_witness :
  exists cmds,
    RunTest.main "es" 3 = Ret cmds /\
    List.length cmds = List.length (exps_of "es") /\
    forall (k : nat) (exp : string),
      nth_error (exps_of "es") k = Some exp ->
      exists modelFile sentsFile name,
        nth_error cmds k =
          Some ["./test_results.sh"%string; modelFile; sentsFile; "es"%string;
                (results_dir "es" ++ name)%string] /\
        RunTest.model_file_for "es" 3 = Some modelFile /\
        String.index 0 "/" name = None /\
        Compile.contains exp (results_dir "es" ++ name) = true.
Proof.
  eexists. split; [reflexivity|].
  apply (runs_write_what_the_aggregation_reads "es" 3).
  - right. reflexivity.
  - reflexivity.
Defined.

(** X12: two calls that get the same model file have the same language
    and the same model number: no two of the ten models share a file. *)
Theorem model_files_are_distinct
  (lang lang' : string) (n n' : Z) (f : string) :
  RunTest.model_file_for lang n = Some f ->
  RunTest.model_file_for lang' n' = Some f ->
  lang = lang' /\ n = n'.
Proof.
  intros H H'.
  destruct (model_file_in_range lang n f H) as [Hl Hn].
  destruct (model_file_in_range lang' n' f H') as [Hl' Hn'].
  apply small_model_number in Hn. apply small_model_number in Hn'.
  destruct Hl as [-> | ->];
    destruct Hn as [-> | [-> | [-> | [-> | ->]]]];
    vm_compute in H; injection H as <-;
    destruct Hl' as [-> | ->];
    destruct Hn' as [-> | [-> | [-> | [-> | ->]]]];
    vm_compute in H';
    first [discriminate H' | split; reflexivity].
Qed.

Lemma model_files_are_distinct_witness :
  "es"%string = "es"%string /\ 2%Z = 2%Z.
Proof.
  apply (model_files_are_distinct "es" "es" 2 2
           "models/es_models/es_hidden650_batch64_dropout0.2_lr20_2.pt");
    reflexivity.
Defined.

(** ** Batches *)

Section BatchFacts.

Import Batches.

Lemma rows_of_length {A} (n : nat) : forall (r : nat) (l : list A),
  List.length (rows_of r n l) = r.
Proof. induction r as [|r IH]; intros l; simpl; [reflexivity | now rewrite IH]. Qed.

Lemma rows_of_nth {A} (d : A) (n : nat) : forall (r : nat) (l : list A) (j i : nat),
  (j < r)%nat -> (i < n)%nat ->
  nth i (nth j (rows_of r n l) []) d = nth (j * n + i) l d.
Proof.
  induction r as [|r IH]; intros l j i Hj Hi; [lia|].
  simpl. destruct j as [|j].
  - simpl. rewrite <- (firstn_skipn n l) at 2.
    destruct (Nat.lt_ge_cases i (List.length (firstn n l))) as [Hlt|Hge].
    + rewrite app_nth1 by exact Hlt. reflexivity.
    + rewrite (nth_overflow (firstn n l)) by exact Hge.
      rewrite length_firstn in Hge.
      rewrite firstn_skipn. symmetry. apply nth_overflow. lia.
  - rewrite IH by lia. simpl.
    destruct (Nat.le_gt_cases n (List.length l)) as [Hle|Hgt].
    + rewrite <- (firstn_skipn n l) at 2.
      rewrite app_nth2; rewrite length_firstn, Nat.min_l by exact Hle; [|lia].
      f_equal. lia.
    + rewrite skipn_all2 by lia.
      rewrite (nth_overflow l) by lia. destruct (j * n + i)%nat; reflexivity.
Qed.

Lemma rows_of_row_length {A} (n : nat) : forall (r : nat) (l : list A) (row : list A),
  (r * n <= List.length l)%nat -> In row (rows_of r n l) -> List.length row = n.
Proof.
  induction r as [|r IH]; intros l row Hl Hin; simpl in *; [contradiction|].
  destruct Hin as [<-|Hin].
  - rewrite length_firstn. lia.
  - apply (IH (skipn n l)); [|exact Hin]. rewrite length_skipn. lia.
Qed.

Lemma rows_of_concat {A} (n : nat) : forall (r : nat) (l : list A),
  (r * n <= List.length l)%nat -> concat (rows_of r n l) = firstn (r * n) l.
Proof.
  induction r as [|r IH]; intros l Hl; simpl; [reflexivity|].
  rewrite IH by (rewrite length_skipn; simpl in Hl; lia).
  rewrite <- (firstn_skipn n l) at 3.
  rewrite firstn_app, length_firstn, Nat.min_l by (simpl in Hl; lia).
  rewrite firstn_firstn, Nat.min_r by lia.
  replace (n + r * n - n)%nat with (r * n)%nat by lia. reflexivity.
Qed.

Lemma transpose_length {A} (d : A) (c : nat) (m : list (list A)) :
  List.length (transpose d c m) = c.
Proof. unfold transpose. now rewrite length_map, length_seq. Qed.

Lemma transpose_row {A} (d : A) (c : nat) (m : list (list A)) (i : nat) :
  (i < c)%nat ->
  nth i (transpose d c m) [] = map (fun row => nth i row d) m.
Proof.
  intros Hi. unfold transpose.
  rewrite (nth_indep _ [] (map (fun row => nth 0 row d) m))
    by (now rewrite length_map, length_seq).
  rewrite (map_nth (fun i => map (fun row => nth i row d) m) (seq 0 c) 0%nat i).
  rewrite seq_nth by exact Hi. reflexivity.
Qed.

Lemma transpose_row_length {A} (d : A) (c : nat) (m : list (list A)) (row : list A) :
  In row (transpose d c m) -> List.length row = List.length m.
Proof.
  unfold transpose. intros Hin. apply in_map_iff in Hin.
  destruct Hin as (i & <- & _). now rewrite length_map.
Qed.

Lemma transpose_nth {A} (d : A) (c : nat) (m : list (list A)) (i j : nat) :
  (i < c)%nat -> (j < List.length m)%nat ->
  nth j (nth i (transpose d c m) []) d = nth i (nth j m []) d.
Proof.
  intros Hi Hj. rewrite transpose_row by exact Hi.
  rewrite (nth_indep _ d (nth i [] d)) by (now rewrite length_map).
  rewrite (map_nth (fun row => nth i row d) m [] j). reflexivity.
Qed.

(** Transposing twice gives the matrix back. *)
Lemma transpose_involutive {A} (d : A) (c : nat) (m : list (list A)) :
  (forall row, In row m -> List.length row = c) ->
  transpose d (List.length m) (transpose d c m) = m.
Proof.
  intros Hrows.
  apply (nth_ext _ _ [] []).
  - apply transpose_length.
  - rewrite transpose_length. intros j Hj.
    rewrite transpose_row by exact Hj.
    apply (nth_ext _ _ d d).
    + rewrite length_map, transpose_length. symmetry. apply Hrows, nth_In, Hj.
    + rewrite length_map, transpose_length. intros i Hi.
      rewrite (nth_indep _ d (nth j [] d))
        by (now rewrite length_map, transpose_length).
      rewrite (map_nth (fun row => nth j row d) (transpose d c m) [] i).
      apply transpose_nth; assumption.
Qed.

(** [batchify] with a positive batch size, in natural numbers. *)
Lemma batchify_pos (data : list nat) (bsz : Z) :
  (0 < bsz)%Z ->
  let b := Z.to_nat bsz in
  let nbatch := (List.length data / b)%nat in
  batchify data bsz
  = Ret (transpose 0%nat nbatch (rows_of b nbatch (firstn (nbatch * b) data))).
Proof.
  intros Hb b nbatch. unfold batchify.
  destruct (bsz =? 0)%Z eqn:E0; [apply Z.eqb_eq in E0; lia|].
  destruct (bsz <? 0)%Z eqn:E1; [apply Z.ltb_lt in E1; lia|].
  assert (Hn : Z.to_nat (Z.of_nat (List.length data) / bsz) = nbatch).
  { unfold nbatch, b. rewrite Z2Nat.inj_div by lia. now rewrite Nat2Z.id. }
  assert (Hm : Z.to_nat (Z.of_nat (List.length data) / bsz * bsz)
               = (nbatch * b)%nat).
  { rewrite Z2Nat.inj_mul; [now rewrite Hn| |lia].
    apply Z.div_pos; lia. }
  rewrite Hn, Hm. reflexivity.
Qed.

End BatchFacts.

Section SliceFacts.

Import Batches.

Lemma py_slice_window {A} (l : list A) (i s : nat) :
  (i + s <= List.length l)%nat ->
  py_slice l (Z.of_nat i) (Z.of_nat i + Z.of_nat s) = firstn s (skipn i l).
Proof.
  intros H. unfold py_slice, slice_bound.
  destruct (Z.of_nat i <? 0)%Z eqn:E1; [apply Z.ltb_lt in E1; lia|].
  destruct (Z.of_nat i + Z.of_nat s <? 0)%Z eqn:E2; [apply Z.ltb_lt in E2; lia|].
  rewrite !Z.min_l by lia.
  replace (Z.to_nat (Z.of_nat i + Z.of_nat s - Z.of_nat i)) with s by lia.
  rewrite Nat2Z.id. reflexivity.
Qed.

(** [get_batch] at a position the loops reach. *)
Lemma get_batch_window (bptt : Z) (source : Matrix) (i : nat) :
  (0 < bptt)%Z -> (i < List.length source - 1)%nat ->
  get_batch bptt source (Z.of_nat i)
  = (firstn (Nat.min (Z.to_nat bptt) (List.length source - 1 - i))
            (skipn i source),
     concat (firstn (Nat.min (Z.to_nat bptt) (List.length source - 1 - i))
                    (skipn (S i) source))).
Proof.
  intros Hb Hi. unfold get_batch.
  set (s := Nat.min (Z.to_nat bptt) (List.length source - 1 - i)).
  assert (Hs : Z.min bptt (Z.of_nat (List.length source) - 1 - Z.of_nat i)
               = Z.of_nat s) by (unfold s; lia).
  rewrite Hs.
  rewrite (py_slice_window source i s) by (unfold s; lia).
  replace (Z.of_nat i + 1)%Z with (Z.of_nat (S i)) by lia.
  rewrite (py_slice_window source (S i) s) by (unfold s; lia).
  reflexivity.
Qed.

Lemma py_range_up (stop step : Z) :
  (0 < step)%Z ->
  py_range 0 stop step
  = Ret (map (fun k => Z.of_nat (k * Z.to_nat step))
             (seq 0 (Z.to_nat ((stop + step - 1) / step)))).
Proof.
  intros Hs. unfold py_range.
  destruct (step =? 0)%Z eqn:E0; [apply Z.eqb_eq in E0; lia|].
  destruct (0 <? step)%Z eqn:E1; [|apply Z.ltb_ge in E1; lia].
  rewrite Z.sub_0_r. f_equal. apply map_ext. intros k. lia.
Qed.

(** Windows of width [b] laid end to end from [off] cover what is left of
    the first [m] entries. *)
Lemma windows_concat {A} (l : list A) (b m : nat) :
  (0 < b)%nat -> (m <= List.length l)%nat ->
  forall (c off : nat),
    concat (map (fun k => firstn (Nat.min b (m - (off + k * b)))
                                 (skipn (off + k * b) l))
                (seq 0 c))
    = firstn (Nat.min (c * b) (m - off)) (skipn off l).
Proof.
  intros Hb Hm. induction c as [|c IH]; intros off.
  - reflexivity.
  - rewrite <- cons_seq, <- seq_shift. cbn [map concat]. rewrite map_map.
    rewrite Nat.mul_0_l, Nat.add_0_r.
    rewrite (map_ext _ (fun k => firstn (Nat.min b (m - (off + b + k * b)))
                                        (skipn (off + b + k * b) l))).
    2:{ intros k. replace (off + S k * b)%nat with (off + b + k * b)%nat by lia.
        reflexivity. }
    rewrite IH.
    destruct (Nat.le_gt_cases b (m - off)) as [Hle|Hgt].
    + rewrite (Nat.min_l b) by exact Hle.
      replace (Nat.min (S c * b) (m - off))
        with (b + Nat.min (c * b) (m - (off + b)))%nat by lia.
      rewrite <- (firstn_skipn b (skipn off l)) at 2.
      rewrite firstn_app, length_firstn, length_skipn.
      rewrite (Nat.min_l b) by lia.
      rewrite firstn_firstn.
      rewrite (Nat.min_r (b + Nat.min (c * b) (m - (off + b))) b) by lia.
      replace (b + Nat.min (c * b) (m - (off + b)) - b)%nat
        with (Nat.min (c * b) (m - (off + b))) by lia.
      rewrite skipn_skipn. rewrite (Nat.add_comm b off). reflexivity.
    + rewrite (Nat.min_r b) by lia.
      replace (Nat.min (c * b) (m - (off + b))) with 0%nat by lia.
      replace (Nat.min (S c * b) (m - off)) with (m - off)%nat by lia.
      simpl. apply app_nil_r.
Qed.

Lemma concat_concat {A} (x : list (list (list A))) :
  concat (map (@concat A) x) = concat (concat x).
Proof.
  induction x as [|a x IH]; simpl; [reflexivity|].
  now rewrite concat_app, IH.
Qed.

Lemma range_count (m b : nat) :
  (0 < b)%nat ->
  let c := Z.to_nat ((Z.of_nat m + Z.of_nat b - 1) / Z.of_nat b) in
  (m <= c * b)%nat /\ forall k, (k < c)%nat -> (k * b < m)%nat.
Proof.
  intros Hb c.
  assert (Hc : (Z.of_nat c = (Z.of_nat m + Z.of_nat b - 1) / Z.of_nat b)%Z).
  { unfold c. rewrite Z2Nat.id; [reflexivity|]. apply Z.div_pos; lia. }
  pose proof (Z.div_mod (Z.of_nat m + Z.of_nat b - 1) (Z.of_nat b)) as Hdm.
  pose proof (Z.mod_pos_bound (Z.of_nat m + Z.of_nat b - 1) (Z.of_nat b)) as Hmb.
  rewrite <- Hc in Hdm. split.
  - nia.
  - intros k Hk. nia.
Qed.

End SliceFacts.

(** X13: for a positive batch size [batchify] returns [len(data) // bsz]
    rows of [bsz] entries, and the entry in row [i] and column [j] is token
    number [j * nbatch + i] of the data: column [j] is the [j]-th stretch
    of [nbatch] consecutive tokens. *)
Theorem batchify_arranges_columns (data : list nat) (bsz : Z) :
  (0 < bsz)%Z ->
  exists m,
    Batches.batchify data bsz = Ret m /\
    List.length m = (List.length data / Z.to_nat bsz)%nat /\
    (forall row, In row m -> List.length row = Z.to_nat bsz) /\
    forall i j,
      (i < List.length data / Z.to_nat bsz)%nat -> (j < Z.to_nat bsz)%nat ->
      nth j (nth i m []) 0%nat
      = nth (j * (List.length data / Z.to_nat bsz) + i) data 0%nat.
Proof.
  intros Hb. eexists. split; [apply (batchify_pos data bsz Hb)|].
  set (b := Z.to_nat bsz). set (nb := (List.length data / b)%nat).
  assert (Hle : (nb * b <= List.length data)%nat).
  { unfold nb. rewrite Nat.mul_comm. apply Nat.Div0.mul_div_le. }
  split; [apply transpose_length|]. split.
  - intros row Hin. apply transpose_row_length in Hin.
    rewrite Hin. apply rows_of_length.
  - intros i j Hi Hj.
    rewrite transpose_nth by (rewrite ?rows_of_length; assumption).
    rewrite rows_of_nth by assumption.
    rewrite <- (firstn_skipn (nb * b) data) at 2.
    rewrite app_nth1; [reflexivity|].
    rewrite length_firstn, Nat.min_l by exact Hle. nia.
Qed.

Lemma batchify_arranges_columns_witness :
  exists m,
    Batches.batchify (seq 0 26) 4 = Ret m /\
    List.length m = (List.length (seq 0 26) / Z.to_nat 4)%nat /\
    (forall row, In row m -> List.length row = Z.to_nat 4) /\
    forall i j,
      (i < List.length (seq 0 26) / Z.to_nat 4)%nat -> (j < Z.to_nat 4)%nat ->
      nth j (nth i m []) 0%nat
      = nth (j * (List.length (seq 0 26) / Z.to_nat 4) + i) (seq 0 26) 0%nat.
Proof.
  apply (batchify_arranges_columns (seq 0 26) 4). lia.
Defined.

(** X14: read column by column, the result of [batchify] is the data
    without its last [len(data) % bsz] tokens: nothing else is dropped,
    repeated or reordered. *)
Theorem batchify_keeps_a_prefix (data : list nat) (bsz : Z) :
  (0 < bsz)%Z ->
  exists m,
    Batches.batchify data bsz = Ret m /\
    concat (Batches.transpose 0%nat (Z.to_nat bsz) m)
    = firstn (List.length data - List.length data mod Z.to_nat bsz) data.
Proof.
  intros Hb. eexists. split; [apply (batchify_pos data bsz Hb)|].
  set (b := Z.to_nat bsz). set (nb := (List.length data / b)%nat).
  assert (Hle : (nb * b <= List.length data)%nat).
  { unfold nb. rewrite Nat.mul_comm. apply Nat.Div0.mul_div_le. }
  assert (Hlen : List.length (firstn (nb * b) data) = (nb * b)%nat)
    by (rewrite length_firstn; lia).
  assert (Hb' : b = List.length
                      (Batches.rows_of b nb (firstn (nb * b) data)))
    by (now rewrite rows_of_length).
  rewrite Hb' at 1.
  rewrite transpose_involutive.
  2:{ intros row Hin. apply (rows_of_row_length nb b (firstn (nb * b) data) row); [|exact Hin].
      rewrite Hlen. lia. }
  rewrite rows_of_concat by (rewrite Hlen; lia).
  rewrite (Nat.mul_comm b nb), firstn_firstn, Nat.min_id.
  f_equal. pose proof (Nat.div_mod_eq (List.length data) b). fold nb in H. lia.
Qed.

Lemma batchify_keeps_a_prefix_witness :
  exists m,
    Batches.batchify (seq 0 26) 4 = Ret m /\
    concat (Batches.transpose 0%nat (Z.to_nat 4) m)
    = firstn (List.length (seq 0 26) - List.length (seq 0 26) mod Z.to_nat 4)
             (seq 0 26).
Proof.
  apply (batchify_keeps_a_prefix (seq 0 26) 4). lia.
Defined.

(** X15: at a position [i] that the loops of [train] and [evaluate] reach
    (one with a row after it), [get_batch] returns between one and [bptt]
    consecutive rows starting at row [i], as many as there are before the
    last row, and as targets the same number of rows starting at row
    [i + 1], flattened: the target of every input row is the row after
    it. *)
Theorem batch_targets_are_the_next_rows
  (bptt : Z) (source : Batches.Matrix) (i : nat) :
  (0 < bptt)%Z -> (i < List.length source - 1)%nat ->
  exists data targets,
    Batches.get_batch bptt source (Z.of_nat i) = (data, targets) /\
    List.length data = Nat.min (Z.to_nat bptt) (List.length source - 1 - i) /\
    (1 <= List.length data)%nat /\
    data = firstn (List.length data) (skipn i source) /\
    targets = concat (firstn (List.length data) (skipn (S i) source)).
Proof.
  intros Hb Hi. eexists. eexists.
  split; [apply (get_batch_window bptt source i Hb Hi)|].
  set (s := Nat.min (Z.to_nat bptt) (List.length source - 1 - i)).
  assert (Hlen : List.length (firstn s (skipn i source)) = s).
  { rewrite length_firstn, length_skipn. unfold s. lia. }
  rewrite Hlen. split; [reflexivity|]. split; [unfold s; lia|].
  split; reflexivity.
Qed.

Lemma batch_targets_are_the_next_rows_witness :
  exists data targets,
    Batches.get_batch 2 [[1; 2]; [3; 4]; [5; 6]; [7; 8]]%nat (Z.of_nat 2)
    = (data, targets) /\
    List.length data
    = Nat.min (Z.to_nat 2)
              (List.length [[1; 2]; [3; 4]; [5; 6]; [7; 8]]%nat - 1 - 2) /\
    (1 <= List.length data)%nat /\
    data = firstn (List.length data)
                  (skipn 2 [[1; 2]; [3; 4]; [5; 6]; [7; 8]]%nat) /\
    targets = concat (firstn (List.length data)
                             (skipn 3 [[1; 2]; [3; 4]; [5; 6]; [7; 8]]%nat)).
Proof.
  apply (batch_targets_are_the_next_rows
           2 [[1; 2]; [3; 4]; [5; 6]; [7; 8]]%nat 2).
  - lia.
  - simpl. lia.
Defined.

Lemma py_range_members (stop step : Z) (idxs : list Z) :
  (0 < step)%Z -> Batches.py_range 0 stop step = Ret idxs ->
  forall i, In i idxs -> exists k : nat, i = Z.of_nat k /\ (Z.of_nat k < stop)%Z.
Proof.
  intros Hs Hr i Hi. rewrite (py_range_up stop step Hs) in Hr.
  injection Hr as <-. apply in_map_iff in Hi. destruct Hi as (k & <- & Hk).
  apply in_seq in Hk. exists (k * Z.to_nat step)%nat. split; [reflexivity|].
  set (c := ((stop + step - 1) / step)%Z) in *.
  assert (Hc : (Z.of_nat k < c)%Z) by lia.
  pose proof (Z.div_mod (stop + step - 1) step) as Hdm.
  pose proof (Z.mod_pos_bound (stop + step - 1) step Hs) as Hmb.
  fold c in Hdm.
  rewrite Nat2Z.inj_mul, Z2Nat.id by lia. nia.
Qed.

(** The batches of a source, laid end to end. *)
Lemma batches_cover (bptt : Z) (source : Batches.Matrix) :
  (0 < bptt)%Z -> source <> [] ->
  exists idxs,
    Batches.py_range 0 (Z.of_nat (List.length source) - 1) bptt = Ret idxs /\
    concat (map (fun i => fst (Batches.get_batch bptt source i)) idxs)
    = removelast source /\
    concat (map (fun i => snd (Batches.get_batch bptt source i)) idxs)
    = concat (tl source).
Proof.
  intros Hb Hne. eexists.
  split; [apply (py_range_up _ bptt Hb)|].
  set (b := Z.to_nat bptt).
  set (m := (List.length source - 1)%nat).
  assert (Hb0 : (0 < b)%nat) by (unfold b; lia).
  assert (HN : (1 <= List.length source)%nat).
  { destruct source; [contradiction | simpl; lia]. }
  assert (Hc : Z.to_nat ((Z.of_nat (List.length source) - 1 + bptt - 1) / bptt)
               = Z.to_nat ((Z.of_nat m + Z.of_nat b - 1) / Z.of_nat b)).
  { unfold m, b. f_equal. f_equal; lia. }
  rewrite Hc.
  destruct (range_count m b Hb0) as [Hcov Hin].
  set (c := Z.to_nat ((Z.of_nat m + Z.of_nat b - 1) / Z.of_nat b)) in *.
  rewrite !map_map.
  assert (Hw : forall k, In k (seq 0 c) ->
            Batches.get_batch bptt source (Z.of_nat (k * b))
            = (firstn (Nat.min b (m - (0 + k * b))) (skipn (0 + k * b) source),
               concat (firstn (Nat.min b (m - (0 + k * b)))
                              (skipn (0 + k * b) (tl source))))).
  { intros k Hk. apply in_seq in Hk.
    rewrite (get_batch_window bptt source (k * b) Hb)
      by (fold m; apply Hin; lia).
    fold b. fold m. simpl Nat.add. f_equal.
    destruct source; [contradiction|]. reflexivity. }
  split.
  - rewrite (map_ext_in _ (fun k => firstn (Nat.min b (m - (0 + k * b)))
                                           (skipn (0 + k * b) source))).
    2:{ intros k Hk. rewrite (Hw k Hk). reflexivity. }
    rewrite (windows_concat source b m Hb0) by (unfold m; lia).
    simpl skipn. rewrite Nat.sub_0_r, Nat.min_r by exact Hcov.
    unfold m. rewrite removelast_firstn_len. f_equal. lia.
  - rewrite (map_ext_in _ (fun k => concat (firstn (Nat.min b (m - (0 + k * b)))
                                                   (skipn (0 + k * b) (tl source))))).
    2:{ intros k Hk. rewrite (Hw k Hk). reflexivity. }
    rewrite <- (map_map (fun k => firstn (Nat.min b (m - (0 + k * b)))
                                         (skipn (0 + k * b) (tl source)))
                        (@concat nat)).
    rewrite concat_concat.
    assert (Hl : List.length (tl source) = m).
    { unfold m. destruct source; [contradiction|]. simpl. lia. }
    rewrite (windows_concat (tl source) b m Hb0) by lia.
    simpl skipn. rewrite Nat.sub_0_r, Nat.min_r by exact Hcov.
    rewrite <- Hl, firstn_all. reflexivity.
Qed.

(** X16: with a positive [bptt] and a source that has a row, the
    positions [range(0, len(source) - 1, bptt)] cut the source into
    batches without gap or overlap: the inputs of the batches, one after
    the other, are all rows but the last, and the targets are all rows but
    the first. *)
Theorem batches_cover_the_source (bptt : Z) (source : Batches.Matrix) :
  (0 < bptt)%Z -> source <> [] ->
  exists idxs,
    Batches.py_range 0 (Z.of_nat (List.length source) - 1) bptt = Ret idxs /\
    concat (map (fun i => fst (Batches.get_batch bptt source i)) idxs)
    = removelast source /\
    concat (map (fun i => snd (Batches.get_batch bptt source i)) idxs)
    = concat (tl source).
Proof. exact (batches_cover bptt source). Qed.

Lemma batches_cover_the_source_witness :
  exists idxs,
    Batches.py_range 0 (Z.of_nat (List.length [[1]; [2]; [3]; [4]; [5]; [6]]%nat) - 1) 2
    = Ret idxs /\
    concat (map (fun i => fst (Batches.get_batch 2 [[1]; [2]; [3]; [4]; [5]; [6]]%nat i))
                idxs)
    = removelast [[1]; [2]; [3]; [4]; [5]; [6]]%nat /\
    concat (map (fun i => snd (Batches.get_batch 2 [[1]; [2]; [3]; [4]; [5]; [6]]%nat i))
                idxs)
    = concat (tl [[1]; [2]; [3]; [4]; [5]; [6]]%nat).
Proof.
  apply (batches_cover_the_source 2 [[1]; [2]; [3]; [4]; [5]; [6]]%nat).
  - lia.
  - discriminate.
Defined.

(** X17: a validation set of at least [bsz] and fewer than [2 * bsz]
    tokens becomes a single row, and [evaluate] on it returns the loss 0
    without running the model, whatever the model is. *)
Theorem short_validation_set_scores_zero
  (Hidden : Type) (init_hidden : list tensor -> Z -> Hidden)
  (forward : list tensor -> Batches.Matrix -> Hidden -> list R * Hidden)
  (bptt bsz : Z) (ntokens : nat) (params : list tensor) (data : list nat) :
  bptt <> 0%Z ->
  (0 < bsz)%Z ->
  (bsz <= Z.of_nat (List.length data) < 2 * bsz)%Z ->
  exists val_data,
    Batches.batchify data bsz = Ret val_data /\
    List.length val_data = 1%nat /\
    Batches.evaluate Hidden init_hidden forward bptt bsz ntokens params val_data
    = Ret (Fin 0%R).
Proof.
  intros Hbptt Hb Hlen. eexists.
  split; [apply (batchify_pos data bsz Hb)|].
  assert (Hn : (List.length data / Z.to_nat bsz = 1)%nat).
  { symmetry.
    apply (Nat.div_unique _ _ _ (List.length data - Z.to_nat bsz)); lia. }
  rewrite Hn. split; [reflexivity|].
  unfold Batches.evaluate. rewrite transpose_length.
  unfold Batches.py_range.
  destruct (bptt =? 0)%Z eqn:E0; [apply Z.eqb_eq in E0; contradiction|].
  replace (Z.of_nat 1 - 1)%Z with 0%Z by lia.
  assert (Hc : Z.to_nat (if (0 <? bptt)%Z then ((0 - 0 + bptt - 1) / bptt)%Z
                         else ((0 - 0 - bptt - 1) / - bptt)%Z) = 0%nat).
  { destruct (0 <? bptt)%Z eqn:E1.
    - apply Z.ltb_lt in E1. rewrite Z.div_small by lia. reflexivity.
    - apply Z.ltb_ge in E1. rewrite Z.div_small by lia. reflexivity. }
  rewrite Hc. simpl. f_equal. f_equal. lra.
Qed.

Lemma short_validation_set_scores_zero_witness :
  exists val_data,
    Batches.batchify [4; 7; 1; 3; 9]%nat 3 = Ret val_data /\
    List.length val_data = 1%nat /\
    Batches.evaluate unit (fun _ _ => tt) (fun _ _ h => ([], h)) 35 3 10 []
                     val_data
    = Ret (Fin 0%R).
Proof.
  apply (short_validation_set_scores_zero
           unit (fun _ _ => tt) (fun _ _ h => ([], h)) 35 3 10 []
           [4; 7; 1; 3; 9]%nat).
  - discriminate.
  - lia.
  - simpl. lia.
Defined.

(** ** Ranges of the measures *)

Section MeasureRanges.

Local Open Scope R_scope.

Lemma Rsum_elem_le l x : (forall y, In y l -> 0 <= y) -> In x l -> x <= Rsum l.
Proof.
  induction l as [|a l IH]; simpl; intros Hnn Hin; [contradiction|].
  assert (0 <= a) by (apply Hnn; left; reflexivity).
  assert (0 <= Rsum l)
    by (apply Rsum_nonneg; intros y Hy; apply Hnn; right; exact Hy).
  destruct Hin as [-> | Hin]; [lra|].
  assert (x <= Rsum l) by (apply IH; auto). lra.
Qed.

Lemma Rsum_le_pointwise {A} (f g : A -> R) l :
  (forall a, In a l -> f a <= g a) -> Rsum (map f l) <= Rsum (map g l).
Proof.
  induction l as [|a l IH]; simpl; intros H; [lra|].
  assert (f a <= g a) by (apply H; left; reflexivity).
  assert (Rsum (map f l) <= Rsum (map g l))
    by (apply IH; intros b Hb; apply H; right; exact Hb).
  lra.
Qed.

Lemma Rsum_plus {A} (f g : A -> R) l :
  Rsum (map (fun a => f a + g a) l) = Rsum (map f l) + Rsum (map g l).
Proof. induction l as [|a l IH]; simpl; [lra|]. rewrite IH. lra. Qed.

Lemma Rsum_zero_terms l x :
  (forall y, In y l -> 0 <= y) -> Rsum l = 0 -> In x l -> x = 0.
Proof.
  intros Hnn Hz Hin.
  assert (x <= Rsum l) by (apply Rsum_elem_le; assumption).
  assert (0 <= x) by (apply Hnn; exact Hin). lra.
Qed.

Lemma ln_le_sub1 x : 0 < x -> ln x <= x - 1.
Proof.
  intros Hx. pose proof (exp_ineq1_le (x - 1)) as H.
  replace (1 + (x - 1)) with x in H by lra.
  destruct H as [H|H].
  - left. rewrite <- (ln_exp (x - 1)). apply ln_increasing; assumption.
  - right. rewrite H at 1. apply ln_exp.
Qed.

(** An entry of a restricted distribution is a probability. *)
Lemma topk_dist_entry top row q :
  0 < topk_mass top row -> In q (topk_dist top row) -> 0 <= q <= 1.
Proof.
  intros Hz Hin. unfold topk_dist in Hin. apply in_map_iff in Hin.
  destruct Hin as (p & <- & Hp).
  assert (H0 := topk_weight_nonneg top p).
  assert (H1 : topk_weight top p <= topk_mass top row).
  { unfold topk_mass. apply Rsum_elem_le.
    - intros y Hy. apply in_map_iff in Hy. destruct Hy as (p' & <- & _).
      apply topk_weight_nonneg.
    - apply in_map. exact Hp. }
  split.
  - apply Rmult_le_pos; [exact H0 | left; apply Rinv_0_lt_compat, Hz].
  - apply (Rmult_le_reg_r (topk_mass top row)); [exact Hz|].
    unfold Rdiv. rewrite Rmult_assoc, Rinv_l by lra. lra.
Qed.

Lemma xlog2_nonpos q : 0 <= q <= 1 -> q * log2 q <= 0.
Proof.
  intros [H0 H1]. destruct H0 as [H0 | <-]; [|lra].
  assert (Hl : ln q <= 0).
  { rewrite <- ln_1. destruct H1 as [H1 | ->]; [|lra].
    left. apply ln_increasing; lra. }
  assert (H2 := ln2_pos).
  unfold log2, Rdiv.
  assert (0 <= q * (- ln q) * / ln 2).
  { apply Rmult_le_pos; [apply Rmult_le_pos; lra|].
    left. apply Rinv_0_lt_compat, H2. }
  lra.
Qed.

Lemma shannon_bits_nonneg p :
  (forall q, In q p -> 0 <= q <= 1) -> 0 <= shannon_bits p.
Proof.
  intros H. unfold shannon_bits.
  assert (0 <= Rsum (map (fun q => - (q * log2 q)) p)).
  { apply Rsum_nonneg. intros y Hy. apply in_map_iff in Hy.
    destruct Hy as (q & <- & Hq). pose proof (xlog2_nonpos q (H q Hq)). lra. }
  assert (E : Rsum (map (fun q => - (q * log2 q)) p)
              = - Rsum (map (fun q => q * log2 q) p)).
  { clear. induction p as [|a p IH]; simpl; [lra|]. rewrite IH. lra. }
  lra.
Qed.

Lemma shannon_bits_ln p :
  shannon_bits p = Rsum (map (fun x => - (x * ln x)) p) / ln 2.
Proof.
  assert (H2 := ln2_pos). unfold shannon_bits, log2.
  induction p as [|a p IH]; simpl.
  - unfold Rdiv. ring.
  - unfold Rdiv in *.
    replace (- (a * (ln a * / ln 2) + Rsum (map (fun q => q * (ln q * / ln 2)) p)))
      with (- (a * ln a) * / ln 2 + - Rsum (map (fun q => q * (ln q * / ln 2)) p))
      by ring.
    rewrite IH. ring.
Qed.

(** The number of classes of a vector that lie in a selection. *)
Lemma selected_count (top : list nat) (n : nat) :
  NoDup top -> (forall i, In i top -> (i < n)%nat) ->
  Rsum (map (fun i => if mem i top then 1 else 0) (seq 0 n))
  = INR (List.length top).
Proof.
  intros Hnd Hlt.
  assert (E : forall l,
            Rsum (map (fun i => if mem i top then 1 else 0) l)
            = INR (List.length (filter (fun i => mem i top) l))).
  { induction l as [|a l IH]; [reflexivity|].
    cbn [map filter Rsum fold_right]. fold (Rsum (map (fun i => if mem i top then 1 else 0) l)).
    rewrite IH. destruct (mem a top); [|lra].
    cbn [List.length]. rewrite S_INR. lra. }
  rewrite E. f_equal.
  apply Permutation_length. apply NoDup_Permutation.
  - apply NoDup_filter, seq_NoDup.
  - exact Hnd.
  - intros i. rewrite filter_In, in_seq, mem_In. split.
    + intros [_ H]; exact H.
    + intros H. split; [|exact H]. specialize (Hlt i H). lia.
Qed.

(** Gibbs' inequality on a restricted distribution: its entropy is at most
    the logarithm of the number of selected classes. *)
Lemma topk_dist_entropy_le top row :
  NoDup top -> (forall i, In i top -> (i < List.length row)%nat) ->
  top <> [] ->
  shannon_bits (topk_dist top row) <= log2 (INR (List.length top)).
Proof.
  intros Hnd Hlt Hne.
  set (k := INR (List.length top)).
  assert (Hk : 0 < k).
  { unfold k. apply lt_0_INR. destruct top; [contradiction | simpl; lia]. }
  assert (Hz : 0 < topk_mass top row).
  { destruct top as [|i top]; [contradiction|].
    apply (topk_mass_pos _ _ i); [apply Hlt; left; reflexivity|].
    apply mem_In. left. reflexivity. }
  set (z := topk_mass top row) in *.
  set (q := fun p : R * nat => topk_weight top p / z).
  set (ind := fun p : R * nat => if mem (snd p) top then 1 else 0).
  assert (Hterm : forall p, In p (enumerate row) ->
            - (q p * ln (q p)) <= q p * ln k + (ind p * / k + - q p)).
  { intros p Hp. unfold q, ind, topk_weight.
    destruct (mem (snd p) top).
    - set (x := exp (fst p) / z).
      assert (Hx : 0 < x).
      { unfold x. apply Rmult_lt_0_compat; [apply exp_pos|].
        apply Rinv_0_lt_compat, Hz. }
      assert (Hkx : 0 < / (k * x)).
      { apply Rinv_0_lt_compat, Rmult_lt_0_compat; assumption. }
      pose proof (ln_le_sub1 (/ (k * x)) Hkx) as Hl.
      rewrite ln_Rinv in Hl by (apply Rmult_lt_0_compat; assumption).
      rewrite ln_mult in Hl by assumption.
      assert (Hm : x * (- (ln k + ln x)) <= x * (/ (k * x) - 1))
        by (apply Rmult_le_compat_l; lra).
      replace (x * (/ (k * x) - 1)) with (/ k - x) in Hm by (field; lra).
      lra.
    - replace (0 / z) with 0 by (unfold Rdiv; ring). lra. }
  assert (Hsum : Rsum (map q (enumerate row)) = 1).
  { apply (topk_dist_total top row Hz). }
  assert (Hind : Rsum (map ind (enumerate row)) = k).
  { unfold ind. rewrite <- (map_map snd (fun i => if mem i top then 1 else 0)).
    rewrite enumerate_snd. apply selected_count; assumption. }
  pose proof (Rsum_le_pointwise
                (fun p => - (q p * ln (q p)))
                (fun p => q p * ln k + (ind p * / k + - q p))
                (enumerate row) Hterm) as Hle.
  rewrite Rsum_plus, Rsum_plus in Hle.
  rewrite (Rsum_scale q (ln k)), (Rsum_scale ind (/ k)) in Hle.
  rewrite Hsum, Hind in Hle.
  assert (Hneg : Rsum (map (fun p => - q p) (enumerate row))
                 = - Rsum (map q (enumerate row))).
  { clear. induction (enumerate row) as [|a l IH]; simpl; [lra|].
    rewrite IH. lra. }
  rewrite Hneg, Hsum in Hle.
  replace (1 * ln k + (k * / k + - (1))) with (ln k) in Hle by (field; lra).
  assert (Hbits : shannon_bits (topk_dist top row)
                  = Rsum (map (fun p => - (q p * ln (q p))) (enumerate row)) / ln 2).
  { rewrite shannon_bits_ln. unfold topk_dist. rewrite map_map. reflexivity. }
  rewrite Hbits. unfold log2, Rdiv.
  apply Rmult_le_compat_r; [left; apply Rinv_0_lt_compat, ln2_pos | exact Hle].
Qed.

End MeasureRanges.

Section RowRanges.

Local Open Scope R_scope.

(** What [topk] selects, as the bounds need it. *)
Lemma topk_selection row k vals top :
  (0 < k)%Z -> topk row k = Ret (vals, top) ->
  NoDup top /\ (forall i, In i top -> (i < List.length row)%nat) /\
  top <> [] /\ INR (List.length top) = IZR k /\ 0 < topk_mass top row.
Proof.
  intros Hk Htop.
  destruct (topk_nonempty _ _ _ _ Hk Htop) as (i0 & Hi0 & Hm0).
  apply topk_ret in Htop.
  destruct Htop as (_ & Hl & _ & Hnd & Hval & _).
  split; [exact Hnd|]. split.
  { intros i Hi. apply In_nth_error in Hi. destruct Hi as (j & Hj).
    destruct (Hval _ _ Hj) as (x & _ & Hx).
    apply nth_error_Some. rewrite Hx. discriminate. }
  split.
  { intros ->. simpl in Hl. lia. }
  split.
  { rewrite Hl, INR_IZR_INZ, Z2Nat.id by lia. reflexivity. }
  apply (topk_mass_pos _ _ i0 Hi0 Hm0).
Qed.

(** A probability that is shown with a finite surprisal is positive. *)
Lemma shown_probability top row targ :
  0 < topk_mass top row -> (targ < List.length row)%nat ->
  ~ nth targ (topk_dist top row) 0 < / float_max ->
  0 < nth targ (topk_dist top row) 0 <= 1.
Proof.
  intros Hz Ht Hq.
  assert (Hm : 0 < / float_max) by (apply Rinv_0_lt_compat, float_max_pos).
  split; [lra|].
  apply (topk_dist_entry top row _ Hz). apply nth_In.
  unfold topk_dist. rewrite length_map, enumerate_length. exact Ht.
Qed.

Lemma neg_log2_nonneg q : 0 < q <= 1 -> 0 <= - log2 q.
Proof.
  intros [H0 H1]. pose proof (xlog2_nonpos q (conj (Rlt_le _ _ H0) H1)) as H.
  assert (log2 q <= 0); [|lra].
  apply (Rmult_le_reg_l q); [exact H0|]. lra.
Qed.

(** The conversion of an entropy to bits does not overflow: for a row of
    at most [float_max] classes the float32 exponential of its entropy is
    in range, and [surp_to_bits] agrees with [nats_to_bits] on it. *)
Lemma entropy_conversion_in_range args row h :
  (0 < complexn args <= Z.of_nat (List.length row))%Z ->
  softcliptopk args = false \/ complexn args = Z.of_nat (List.length row) ->
  INR (List.length row) <= float_max ->
  get_entropy args row = Ret h ->
  surp_to_bits h = nats_to_bits h.
Proof.
  intros Hk Hfill Hmax Hh.
  destruct (topk_total row (complexn args)) as (vals & top & Htop); [lia|].
  assert (Hf : softcliptopk args = false \/
               (forall i, (i < List.length row)%nat -> mem i top = true)).
  { destruct Hfill as [Hf|Hf]; [left; exact Hf|].
    right. intros i Hi. rewrite Hf in Htop. exact (topk_full _ _ _ _ Htop Hi). }
  destruct (get_entropy_topk args row vals top (proj1 Hk) Hf Htop)
    as (h0 & Eh & Bh).
  rewrite Hh in Eh. injection Eh as ->.
  destruct (topk_selection row _ vals top (proj1 Hk) Htop)
    as (Hnd & Hlt & Hne & Hcard & Hz).
  pose proof (topk_dist_entropy_le top row Hnd Hlt Hne) as Hle.
  rewrite nats_to_bits_fin in Bh. injection Bh as Bh. rewrite <- Bh in Hle.
  assert (H2 := ln2_pos).
  assert (Hk0 : 0 < INR (List.length top)).
  { apply lt_0_INR. destruct top; [contradiction | simpl; lia]. }
  assert (Hln : h0 <= ln (INR (List.length top))).
  { unfold log2, Rdiv in Hle.
    apply (Rmult_le_reg_r (/ ln 2)); [apply Rinv_0_lt_compat, H2 | exact Hle]. }
  assert (Hexp : exp h0 <= INR (List.length top)).
  { rewrite <- (exp_ln (INR (List.length top))) by exact Hk0.
    destruct Hln as [Hln|Hln]; [left; apply exp_increasing, Hln | right; now rewrite Hln]. }
  assert (Hcap : INR (List.length top) <= INR (List.length row)).
  { rewrite Hcard, INR_IZR_INZ. apply IZR_le. lia. }
  unfold surp_to_bits, nats_to_bits, eexp32, eexp.
  destruct (Rlt_dec float_max (exp h0)); [lra | reflexivity].
Qed.

End RowRanges.

(** X18: with a beam of [k] classes (from 1 to the size of the
    vocabulary, cut off hard or covering the vocabulary), the surprisal of
    a printed row is never negative (it is infinite for a word outside the
    beam), and its entropy lies between 0 and [log2 k] bits. *)
Theorem surprisal_and_entropy_are_in_range :
  forall fmt3 args idx2word state obs sentid r,
    (0 < complexn args <= Z.of_nat (List.length idx2word))%Z ->
    softcliptopk args = false \/ complexn args = Z.of_nat (List.length idx2word) ->
    (forall row, In row state -> List.length row = List.length idx2word) ->
    In r (fst (get_complexity fmt3 args idx2word state obs sentid)) ->
    nonneg (c_surp r) /\
    exists h, c_entropy r = Fin h /\ (0 <= h <= log2 (IZR (complexn args)))%R.
Proof.
  intros fmt3 args idx2word state obs sentid r Hk Hfill Hlen Hin.
  destruct (printed_row_topk fmt3 args idx2word state obs sentid r Hk Hfill Hlen Hin)
    as (targ & row & vals & top & rowprev & valsp & topp & Hobs & Hword & Hrow
        & Htop & _ & _ & Hent & Hsurp & _).
  destruct (topk_selection row _ vals top (proj1 Hk) Htop)
    as (Hnd & Hlt & Hne & Hcard & Hz).
  split.
  - rewrite Hsurp. unfold shown_surprisal.
    destruct (Rlt_dec (nth targ (topk_dist top row) 0%R) (/ float_max))
      as [_|Hq]; [exact I|].
    assert (Ht : (targ < List.length row)%nat).
    { rewrite (Hlen row (nth_error_In _ _ Hrow)).
      apply nth_error_Some. rewrite Hword. discriminate. }
    simpl. apply neg_log2_nonneg.
    apply (shown_probability top row targ Hz Ht Hq).
  - exists (shannon_bits (topk_dist top row)). split; [exact Hent|]. split.
    + apply shannon_bits_nonneg. intros q Hq.
      apply (topk_dist_entry top row q Hz Hq).
    + rewrite <- Hcard. apply topk_dist_entropy_le; assumption.
Qed.

Lemma surprisal_and_entropy_are_in_range_witness :
  exists r,
    In r ex_rows_top1 /\ c_sentpos r = 1%nat /\
    nonneg (c_surp r) /\
    exists h, c_entropy r = Fin h /\
              (0 <= h <= log2 (IZR (complexn ex_args_top1)))%R.
Proof.
  destruct (ex_rows_top1_printed 1) as (r & Hin & Hpos); [lia|].
  exists r. split; [exact Hin|]. split; [exact Hpos|].
  apply (surprisal_and_entropy_are_in_range ex_fmt ex_args_top1 ex_vocab
           ex_state ex_obs 0 r).
  - simpl. lia.
  - left. reflexivity.
  - exact ex_state_rows.
  - exact Hin.
Defined.

(** X19: with a beam of one class, cut off hard, every printed row has
    entropy 0 and entropy reduction 0, and its surprisal is 0 when the
    observed word is the best-scoring class and infinite otherwise. *)
Theorem beam_of_one_has_no_entropy :
  forall fmt3 args idx2word state obs sentid r,
    complexn args = 1%Z -> softcliptopk args = false ->
    (forall row, In row state -> List.length row = List.length idx2word) ->
    In r (fst (get_complexity fmt3 args idx2word state obs sentid)) ->
    c_entropy r = Fin 0%R /\ c_entred r = PyInt 0 /\
    (c_surp r = Fin 0%R \/ c_surp r = PInf).
Proof.
  intros fmt3 args idx2word state obs sentid r Hk1 Hsoft Hlen Hin.
  assert (Hpos : (0 < List.length idx2word)%nat).
  { assert (Hin' := Hin). apply printed_row in Hin'.
    destruct Hin' as (targ0 & _ & _ & _ & _ & _ & _ & _ & Hword0 & _).
    assert (targ0 < List.length idx2word)%nat; [|lia].
    apply nth_error_Some. rewrite Hword0. discriminate. }
  assert (Hk : (0 < complexn args <= Z.of_nat (List.length idx2word))%Z)
    by (rewrite Hk1; lia).
  destruct (printed_row_topk fmt3 args idx2word state obs sentid r Hk
              (or_introl Hsoft) Hlen Hin)
    as (targ & row & vals & top & rowprev & valsp & topp & Hobs & Hword & Hrow
        & Htop & _ & Htopp & Hent & Hsurp & Hred).
  assert (Hzero : forall rw vs tp,
            topk rw (complexn args) = Ret (vs, tp) ->
            (0 < topk_mass tp rw /\ shannon_bits (topk_dist tp rw) = 0)%R).
  { intros rw vs tp Ht.
    destruct (topk_selection rw _ vs tp (proj1 Hk) Ht)
      as (Hnd & Hlt & Hne & Hcard & Hz).
    split; [exact Hz|].
    assert (H0 : (0 <= shannon_bits (topk_dist tp rw))%R).
    { apply shannon_bits_nonneg. intros q Hq.
      apply (topk_dist_entry tp rw q Hz Hq). }
    pose proof (topk_dist_entropy_le tp rw Hnd Hlt Hne) as H1.
    rewrite Hcard, Hk1 in H1. unfold log2 in H1. rewrite ln_1 in H1.
    unfold Rdiv in H1. rewrite Rmult_0_l in H1. lra. }
  destruct (Hzero row vals top Htop) as (Hz & Hrow0).
  destruct (Hzero rowprev valsp topp Htopp) as (_ & Hprev0).
  split; [rewrite Hent, Hrow0; reflexivity|].
  split; [rewrite Hred, Hprev0, Hrow0; apply py_max0_self|].
  rewrite Hsurp. unfold shown_surprisal.
  destruct (Rlt_dec (nth targ (topk_dist top row) 0%R) (/ float_max))
    as [_|Hq]; [right; reflexivity | left].
  assert (Ht : (targ < List.length row)%nat).
  { rewrite (Hlen row (nth_error_In _ _ Hrow)).
    apply nth_error_Some. rewrite Hword. discriminate. }
  destruct (shown_probability top row targ Hz Ht Hq) as [Hq0 Hq1].
  set (q := nth targ (topk_dist top row) 0%R) in *.
  assert (Hterm : (- (q * log2 q) = 0)%R).
  { apply (Rsum_zero_terms (map (fun y => - (y * log2 y))%R (topk_dist top row))).
    - intros y Hy. apply in_map_iff in Hy. destruct Hy as (y0 & <- & Hy0).
      pose proof (xlog2_nonpos y0 (topk_dist_entry top row y0 Hz Hy0)). lra.
    - unfold shannon_bits in Hrow0.
      assert (E : forall l, (Rsum (map (fun y => - (y * log2 y)) l)
                             = - Rsum (map (fun y => y * log2 y) l))%R).
      { induction l as [|a l IH]; simpl; [lra|]. rewrite IH. lra. }
      rewrite E. exact Hrow0.
    - apply in_map_iff. exists q. split; [reflexivity|].
      unfold q. apply nth_In. unfold topk_dist.
      rewrite length_map, enumerate_length. exact Ht. }
  f_equal. assert (log2 q = 0)%R; [|lra].
  apply (Rmult_eq_reg_l q); lra.
Qed.

Lemma beam_of_one_has_no_entropy_witness :
  exists r,
    In r ex_rows_top1 /\ c_sentpos r = 1%nat /\
    c_entropy r = Fin 0%R /\ c_entred r = PyInt 0 /\
    (c_surp r = Fin 0%R \/ c_surp r = PInf).
Proof.
  destruct (ex_rows_top1_printed 1) as (r & Hin & Hpos); [lia|].
  exists r. split; [exact Hin|]. split; [exact Hpos|].
  apply (beam_of_one_has_no_entropy ex_fmt ex_args_top1 ex_vocab
           ex_state ex_obs 0 r).
  - reflexivity.
  - reflexivity.
  - exact ex_state_rows.
  - exact Hin.
Defined.

(** ** The complexity output *)

Section RowOrder.

Variable fmt3 : ereal -> string.
Variable args : Args.
Variable idx2word : list string.

(** The targets of a sentence with their positions and words, [<eos>]
    left out. *)
Lemma complexity_loop_positions Hs surps guesses sentid :
  forall obs pos,
    exists rest,
      filter (fun q => negb (String.eqb (snd q) "<eos>"))
             (combine (seq pos (List.length obs))
                      (map (fun t => nth t idx2word ""%string) obs))
      = map (fun r => (c_sentpos r, c_word r))
            (fst (complexity_loop fmt3 args idx2word Hs surps guesses
                                  sentid pos obs)) ++ rest /\
      (snd (complexity_loop fmt3 args idx2word Hs surps guesses sentid pos obs)
       = Ret tt -> rest = []).
Proof.
  induction obs as [|targ obs IH]; intros pos.
  - exists []. split; [reflexivity | intros _; reflexivity].
  - cbn [complexity_loop List.length seq map combine filter snd].
    unfold index.
    destruct (nth_error idx2word targ) as [word|] eqn:Hw.
    + rewrite (nth_error_nth _ _ ""%string Hw).
      destruct (String.eqb word "<eos>") eqn:Heos; cbn [negb].
      * apply IH.
      * destruct (make_row fmt3 args idx2word Hs surps guesses sentid pos targ word)
          as [r|e] eqn:Hrow.
        -- destruct (IH (S pos)) as (rest & Hf & Hr).
           exists rest. cbn [fst snd map app]. split; [|exact Hr].
           apply make_row_fields in Hrow.
           destruct Hrow as (_ & _ & _ & _ & _ & _ & _ & Hword & _ & Hpos & _).
           rewrite Hword, Hpos, Hf. reflexivity.
        -- eexists. cbn [fst snd map app]. split; [reflexivity|].
           intros H. discriminate H.
    + eexists. cbn [fst snd map app]. split; [reflexivity|].
      intros H. discriminate H.
Qed.

Lemma make_row_one_entropy h surps guesses sentid pos targ word :
  exists e, make_row fmt3 args idx2word [h] surps guesses sentid pos targ word
            = Raise e.
Proof.
  unfold make_row.
  destruct (index surps pos) as [srow|e]; [|exists e; reflexivity]. simpl.
  destruct (index srow targ) as [surp|e]; [|exists e; reflexivity]. simpl.
  destruct (output_guesses fmt3 args idx2word guesses pos) as [og|e];
    [|exists e; reflexivity].
  simpl. exists IndexError. reflexivity.
Qed.

Lemma complexity_loop_one_entropy h surps guesses sentid :
  forall obs pos,
    fst (complexity_loop fmt3 args idx2word [h] surps guesses sentid pos obs) = [] /\
    (snd (complexity_loop fmt3 args idx2word [h] surps guesses sentid pos obs)
     = Ret tt ->
     forall targ, In targ obs -> nth_error idx2word targ = Some "<eos>"%string).
Proof.
  induction obs as [|targ obs IH]; intros pos.
  - split; [reflexivity|]. intros _ t [].
  - cbn [complexity_loop]. unfold index.
    destruct (nth_error idx2word targ) as [word|] eqn:Hw.
    + destruct (String.eqb word "<eos>") eqn:Heos.
      * destruct (IH (S pos)) as [Hf Hs]. split; [exact Hf|].
        intros Hret t [<-|Hin].
        -- apply String.eqb_eq in Heos. rewrite Hw, Heos. reflexivity.
        -- apply (Hs Hret t Hin).
      * destruct (make_row_one_entropy h surps guesses sentid pos targ word)
          as (e & He).
        rewrite He. split; [reflexivity|]. intros H. discriminate H.
    + split; [reflexivity|]. intros H. discriminate H.
Qed.

End RowOrder.

(** X20: the rows that [get_complexity] prints are, in order, the targets
    of the sentence that are not [<eos>], each with its position in the
    sentence (positions count the [<eos>] targets too) and its word; when
    the function ends by an exception the rows printed are the first of
    them, and when it ends normally none is missing. *)
Theorem rows_are_the_non_eos_targets_in_order
  (fmt3 : ereal -> string) (args : Args) (idx2word : list string)
  (state : list (list R)) (obs : list nat) (sentid : nat) :
  exists rest,
    filter (fun q => negb (String.eqb (snd q) "<eos>"))
           (combine (seq 0 (List.length obs))
                    (map (fun t => nth t idx2word ""%string) obs))
    = map (fun r => (c_sentpos r, c_word r))
          (fst (get_complexity fmt3 args idx2word state obs sentid)) ++ rest /\
    (snd (get_complexity fmt3 args idx2word state obs sentid) = Ret tt ->
     rest = []).
Proof.
  unfold get_complexity.
  destruct (complexity_tensors args state) as [[[Hs surps] g]|e].
  - apply complexity_loop_positions.
  - eexists. split; [reflexivity|]. intros H. discriminate H.
Qed.

(** X21: for a score matrix with a single row (a sentence with a single
    target) the entropies are squeezed to a tensor without dimension,
    which cannot be indexed: no row is printed, and the function ends
    normally only when every target is [<eos>]. *)
Theorem single_target_sentence_prints_no_row
  (fmt3 : ereal -> string) (args : Args) (idx2word : list string)
  (row : list R) (obs : list nat) (sentid : nat) :
  fst (get_complexity fmt3 args idx2word [row] obs sentid) = [] /\
  (snd (get_complexity fmt3 args idx2word [row] obs sentid) = Ret tt ->
   forall targ, In targ obs -> nth_error idx2word targ = Some "<eos>"%string).
Proof.
  unfold get_complexity.
  destruct (complexity_tensors args [row]) as [[[Hs surps] g]|e] eqn:Ht.
  - apply complexity_tensors_ret in Ht.
    destruct Ht as (hs & ss & Hhs & _ & -> & _).
    unfold apply in Hhs. simpl in Hhs.
    destruct (get_entropy args row) as [h|e]; [|discriminate].
    simpl in Hhs. injection Hhs as <-.
    apply complexity_loop_one_entropy.
  - split; [reflexivity|]. intros H. discriminate H.
Qed.

(** ** Guesses *)

Section GuessFacts.

Local Open Scope R_scope.

(** The best score comes first: no score of a selection exceeds it. *)
Lemma topk_first_is_best v k vals ixs s0 :
  topk v k = Ret (vals, ixs) -> nth_error vals 0 = Some s0 ->
  forall x, In x vals -> x <= s0.
Proof.
  unfold topk.
  destruct ((k <? 0)%Z || (Z.of_nat (List.length v) <? k)%Z); [discriminate|].
  intros H. injection H as <- _.
  pose proof (sort_desc_sorted (enumerate v)) as Hs.
  destruct (sort_desc (enumerate v)) as [|a srt]; intros H0 x Hx.
  - rewrite firstn_nil in H0. discriminate.
  - destruct (Z.to_nat k) as [|n]; [discriminate|].
    simpl in H0. injection H0 as <-.
    simpl in Hx. destruct Hx as [<-|Hx]; [lra|].
    apply in_map_iff in Hx. destruct Hx as (b & <- & Hb).
    inversion Hs as [|? ? _ Hall]; subst.
    rewrite Forall_forall in Hall. apply (Hall b).
    rewrite <- (firstn_skipn n srt). apply in_or_app. left. exact Hb.
Qed.

Lemma get_entropy_returns args row :
  (0 <= complexn args <= Z.of_nat (List.length row))%Z ->
  exists h, get_entropy args row = Ret h.
Proof.
  intros Hk. unfold get_entropy, beam_of.
  destruct (complexn args =? 0)%Z; [eexists; reflexivity|].
  destruct (topk_total row (complexn args) Hk) as (vals & top & ->).
  simpl. destruct (softcliptopk args); eexists; reflexivity.
Qed.

Lemma get_surps_returns args row :
  (0 <= complexn args <= Z.of_nat (List.length row))%Z ->
  exists ss, get_surps args row = Ret ss.
Proof.
  intros Hk. unfold get_surps, beam_of.
  destruct (complexn args =? 0)%Z; [eexists; reflexivity|].
  destruct (topk_total row (complexn args) Hk) as (vals & top & ->).
  simpl. destruct (softcliptopk args); eexists; reflexivity.
Qed.

Lemma mapM_returns {A B} (f : A -> outcome B) : forall l,
  (forall x, In x l -> exists y, f x = Ret y) -> exists ys, mapM f l = Ret ys.
Proof.
  intros l H.
  destruct (mapM_total f (fun _ => True) l) as (ys & E & _).
  - intros x Hx. destruct (H x Hx) as (y & Hy). exists y. split; [exact Hy | exact I].
  - exists ys. exact E.
Qed.

End GuessFacts.

(** X22: with [--guessratios] (and without [--guessscores]) the number
    printed after a guess is its score divided by the best score of the
    row, the first of the guess scores, so its size depends on the sign of
    that best score: the quotient is at most 1 when the best score is
    positive, at least 1 when it is negative, and the division raises a
    ZeroDivisionError when it is zero. *)
Theorem guess_ratio_depends_on_sign_of_best_score
  (fmt3 : ereal -> string) (args : Args) (row gsc : list R) (s0 : R) :
  guessscores args = false -> guessratios args = true ->
  get_guessscores args row = Ret gsc ->
  nth_error gsc 0 = Some s0 ->
  forall (i : nat) (s : R), nth_error gsc i = Some s ->
    (s0 = 0%R -> guess_score fmt3 args gsc i = Raise ZeroDivisionError) /\
    (s0 <> 0%R ->
     guess_score fmt3 args gsc i = Ret [fmt3 (Fin (s / s0)%R)] /\
     ((0 < s0)%R -> (s / s0 <= 1)%R) /\ ((s0 < 0)%R -> (1 <= s / s0)%R)).
Proof.
  intros Hsc Hra Hg H0 i s Hs.
  unfold get_guessscores in Hg.
  destruct (topk row (guessn args)) as [[vals ixs]|e] eqn:Htop; [|discriminate].
  simpl in Hg. injection Hg as <-.
  assert (Hle : (s <= s0)%R).
  { apply (topk_first_is_best row _ vals ixs s0 Htop H0).
    apply (nth_error_In _ _ Hs). }
  unfold guess_score, index. rewrite Hsc, Hra, Hs, H0. simpl.
  destruct (Req_dec_T s0 0) as [Hz|Hnz].
  - split; [reflexivity | contradiction].
  - split; [contradiction|]. intros _.
    split; [reflexivity|]. split; intros Hsign.
    + apply (Rmult_le_reg_r s0); [exact Hsign|].
      unfold Rdiv. rewrite Rmult_assoc, Rinv_l by exact Hnz. lra.
    + apply (Rmult_le_reg_r (- s0)); [lra|].
      replace (s / s0 * - s0)%R with (- s)%R by (field; exact Hnz). lra.
Qed.

Lemma guess_ratio_depends_on_sign_of_best_score_witness :
  guess_score ex_fmt ex_args_guess [-1; -2]%R 1
  = Ret [ex_fmt (Fin (-2 / -1)%R)] /\
  (1 <= -2 / -1)%R.
Proof.
  destruct (guess_ratio_depends_on_sign_of_best_score
              ex_fmt ex_args_guess [-2; -1]%R [-1; -2]%R (-1)%R)
    with (i := 1%nat) (s := (-2)%R) as [_ H].
  - reflexivity.
  - reflexivity.
  - unfold get_guessscores, topk. simpl. unfold insert_desc. simpl.
    destruct (Rlt_dec (-2) (-1)); [reflexivity | lra].
  - reflexivity.
  - reflexivity.
  - destruct H as (Hq & _ & Hneg); [lra|].
    split; [exact Hq | apply Hneg; lra].
Defined.

(** X23: [test_evaluate] lowers [guessn] to the size of the vocabulary
    only when it also resets [complexn].  With [complexn] in range and
    [guessn] above the size of the vocabulary the arguments stay as they
    are, and with [--guess] the complexity output of a sentence raises a
    RuntimeError in [topk] before any row is printed. *)
Theorem guess_count_is_clamped_only_with_the_beam
  (fmt3 : ereal -> string) (idx2word : list string) (w : World)
  (state : list (list R)) (obs : list nat) (sentid : nat) :
  guess (w_args w) = true ->
  (0 < complexn (w_args w) <= Z.of_nat (List.length idx2word))%Z ->
  (Z.of_nat (List.length idx2word) < guessn (w_args w))%Z ->
  state <> [] ->
  (forall row, In row state -> List.length row = List.length idx2word) ->
  w_args (normalize_beam (List.length idx2word) w) = w_args w /\
  get_complexity fmt3 (w_args (normalize_beam (List.length idx2word) w))
                 idx2word state obs sentid
  = ([], Raise RuntimeError).
Proof.
  intros Hg Hk Hn Hne Hlen.
  rewrite (normalize_beam_in_range _ _ Hk). split; [reflexivity|].
  unfold get_complexity, complexity_tensors, apply.
  destruct state as [|row0 state]; [contradiction|].
  destruct (mapM_returns (get_entropy (w_args w)) (row0 :: state)) as (hs & ->).
  { intros x Hx. apply get_entropy_returns. rewrite (Hlen x Hx). lia. }
  destruct (mapM_returns (get_surps (w_args w)) (row0 :: state)) as (ss & ->).
  { intros x Hx. apply get_surps_returns. rewrite (Hlen x Hx). lia. }
  rewrite Hg. cbn [obind mapM].
  assert (E : get_guesses (w_args w) row0 = Raise RuntimeError).
  { unfold get_guesses, topk.
    rewrite (Hlen row0 (or_introl eq_refl)).
    destruct (guessn (w_args w) <? 0)%Z; [reflexivity|].
    destruct (Z.of_nat (List.length idx2word) <? guessn (w_args w))%Z eqn:E;
      [reflexivity|].
    apply Z.ltb_ge in E. lia. }
  rewrite E. reflexivity.
Qed.

Lemma guess_count_is_clamped_only_with_the_beam_witness :
  w_args (normalize_beam (List.length ex_vocab) ex_world_guess3)
  = w_args ex_world_guess3 /\
  get_complexity ex_fmt
                 (w_args (normalize_beam (List.length ex_vocab) ex_world_guess3))
                 ex_vocab ex_state_guess ex_obs 0
  = ([], Raise RuntimeError).
Proof.
  apply (guess_count_is_clamped_only_with_the_beam
           ex_fmt ex_vocab ex_world_guess3 ex_state_guess ex_obs 0).
  - reflexivity.
  - simpl. lia.
  - simpl. lia.
  - discriminate.
  - intros row [<-|[<-|[]]]; reflexivity.
Defined.

(** ** Test-time evaluation: edges *)

Section EvaluationEdges.

Variable float_repr : ereal -> string.
Variable fmt3 : ereal -> string.
Variable Hidden : Type.
Variable init_hidden : list tensor -> Hidden.
Variable forward : list tensor -> list nat -> Hidden -> list R * Hidden.
Variable loss_grad :
  list tensor -> list nat -> Hidden -> list nat -> nat -> option tensor.
Variable show_hidden : Hidden -> Z -> bool -> string.
Variable lr : R.
Variable idx2word : list string.

(** With [--view_layer] the loop never writes a parameter, whatever
    [--adapt] says. *)
Lemma eval_sentences_view_frame test_sentences : forall data_source i t w,
  (0 <= view_layer (w_args w))%Z ->
  same_model w (snd (eval_sentences float_repr fmt3 Hidden init_hidden forward
                       loss_grad show_hidden lr idx2word
                       test_sentences i data_source t w)).
Proof.
  induction data_source as [|sent_ids rest IH]; intros i t w Hv.
  - apply same_model_refl.
  - cbn [eval_sentences].
    destruct (match test_sentences with
              | [] => Ret EmptyString
              | _ :: _ => index test_sentences i
              end) as [sent|e]; [|apply same_model_refl].
    destruct (test_get_batch sent_ids) as [data targets].
    destruct (view_layer (w_args w) >=? 0)%Z eqn:E;
      [|rewrite Z.geb_leb in E; apply Z.leb_gt in E; lia].
    assert (Hf := view_words_frame Hidden forward show_hidden idx2word
                    data targets (init_hidden (w_params w)) t w).
    destruct (view_words Hidden forward show_hidden idx2word data targets
                         (init_hidden (w_params w)) t w) as [[[h t']|e] w'];
      simpl in Hf; [|exact Hf].
    eapply same_model_trans; [exact Hf|]. apply IH.
    destruct Hf as [_ Hf]. rewrite Hf. exact Hv.
Qed.

End EvaluationEdges.

(** X24: on an empty test set [test_evaluate] reports the beam size,
    prints the header when one is due, and then raises a
    ZeroDivisionError: the total loss is divided by the number of
    sentences (or of words), which is 0. *)
Theorem empty_test_set_raises_after_the_header :
  forall float_repr fmt3 Hidden init_hidden forward loss_grad show_hidden lr
         idx2word test_sentences w,
    fst (test_evaluate float_repr fmt3 Hidden init_hidden forward loss_grad
           show_hidden lr idx2word test_sentences [] w)
    = Raise ZeroDivisionError /\
    snd (test_evaluate float_repr fmt3 Hidden init_hidden forward loss_grad
           show_hidden lr idx2word test_sentences [] w)
    = print_header (List.length idx2word)
                   (normalize_beam (List.length idx2word) w) /\
    w_stdout (print_header (List.length idx2word)
                           (normalize_beam (List.length idx2word) w))
    = (w_stdout w
       ++ if words (w_args w) && negb (nocheader (w_args w))
          then [header_text (w_args (normalize_beam (List.length idx2word) w))
                            (List.length idx2word)]
          else [])%list.
Proof.
  intros float_repr fmt3 Hidden init_hidden forward loss_grad show_hidden lr
         idx2word test_sentences w.
  unfold test_evaluate, ntokens. cbn [eval_sentences].
  set (w1 := print_header (List.length idx2word)
                          (normalize_beam (List.length idx2word) w)).
  split; [destruct (view_layer (w_args w1) >=? 0)%Z; reflexivity|].
  split; [destruct (view_layer (w_args w1) >=? 0)%Z; reflexivity|].
  unfold w1, print_header.
  assert (Ea : words (w_args (normalize_beam (List.length idx2word) w))
               = words (w_args w) /\
               nocheader (w_args (normalize_beam (List.length idx2word) w))
               = nocheader (w_args w) /\
               w_stdout (normalize_beam (List.length idx2word) w) = w_stdout w).
  { unfold normalize_beam.
    destruct ((complexn (w_args w) >? Z.of_nat (List.length idx2word))%Z
              || (complexn (w_args w) <=? 0)%Z); [|repeat split; reflexivity].
    destruct (guessn (set_complexn (w_args w) (Z.of_nat (List.length idx2word)))
              >? Z.of_nat (List.length idx2word))%Z; repeat split; reflexivity. }
  destruct Ea as (Ew & En & Eo). rewrite Ew, En.
  destruct (words (w_args w) && negb (nocheader (w_args w))).
  - cbn [print w_stdout]. rewrite Eo. reflexivity.
  - rewrite Eo. symmetry. apply app_nil_r.
Qed.

(** X25: with [--view_layer] set to a layer (0 or more), [test_evaluate]
    leaves every parameter of the model as it was, also with [--adapt]:
    the word-by-word branch has no update step. *)
Theorem word_by_word_view_never_adapts :
  forall float_repr fmt3 Hidden init_hidden forward loss_grad show_hidden lr
         idx2word test_sentences data_source w,
    (0 <= view_layer (w_args w))%Z ->
    w_params (snd (test_evaluate float_repr fmt3 Hidden init_hidden forward
                     loss_grad show_hidden lr idx2word
                     test_sentences data_source w)) = w_params w.
Proof.
  intros float_repr fmt3 Hidden init_hidden forward loss_grad show_hidden lr
         idx2word test_sentences data_source w Hv.
  unfold test_evaluate.
  destruct (normalize_beam_frame (ntokens idx2word) w) as (Hn & _ & _ & Hnv & _).
  assert (Hh := print_header_frame (ntokens idx2word)
                  (normalize_beam (ntokens idx2word) w)).
  set (w1 := print_header (ntokens idx2word) (normalize_beam (ntokens idx2word) w))
    in *.
  assert (Hv1 : (0 <= view_layer (w_args w1))%Z).
  { destruct Hh as [_ Hh]. rewrite Hh, Hnv. exact Hv. }
  assert (He := eval_sentences_view_frame float_repr fmt3 Hidden init_hidden
                  forward loss_grad show_hidden lr idx2word
                  test_sentences data_source 0 (Fin 0%R, 0%nat) w1 Hv1).
  destruct (eval_sentences float_repr fmt3 Hidden init_hidden forward loss_grad
              show_hidden lr idx2word test_sentences 0 data_source
              (Fin 0%R, 0%nat) w1) as [[[tl nw]|e] w2]; simpl in He.
  - assert (E : w_params w2 = w_params w).
    { destruct He as [He _]. destruct Hh as [Hh _].
      rewrite He, Hh. unfold w_params. rewrite Hn. reflexivity. }
    destruct (view_layer (w_args w2) >=? 0)%Z; exact E.
  - destruct He as [He _]. destruct Hh as [Hh _].
    simpl. rewrite He, Hh. unfold w_params. rewrite Hn. reflexivity.
Qed.

Lemma word_by_word_view_never_adapts_witness :
  w_params (snd (test_evaluate ex_fmt ex_fmt unit ex_init_hidden (ex_forward 2)
                   ex_steep_grad ex_show_hidden 20%R ex_vocab [] ex_data
                   ex_world_view))
  = [[1; 2]%R].
Proof.
  apply (word_by_word_view_never_adapts
           ex_fmt ex_fmt unit ex_init_hidden (ex_forward 2) ex_steep_grad
           ex_show_hidden 20%R ex_vocab [] ex_data ex_world_view).
  simpl. lia.
Defined.

(** ** The size of an adaptation step *)

Section StepBound.

Local Open Scope R_scope.

Lemma sq_norm_nonneg (q : param) : 0 <= sq_norm q.
Proof.
  unfold sq_norm. destruct (snd q) as [t|]; [|lra].
  apply Rsum_nonneg. intros y Hy. apply in_map_iff in Hy.
  destruct Hy as (x & <- & _). apply Rle_0_sqr.
Qed.

Lemma entry_le_total_norm (net : list param) p g x :
  In (p, Some g) net -> In x g -> Rabs x <= total_norm net.
Proof.
  intros Hq Hx. unfold total_norm.
  rewrite <- (sqrt_Rsqr_abs x). apply sqrt_le_1_alt.
  apply Rle_trans with (sq_norm (p, Some g)).
  - unfold sq_norm. simpl.
    apply (Rsum_elem_le (map (fun x => x * x) g) (Rsqr x)).
    + intros y Hy. apply in_map_iff in Hy. destruct Hy as (z & <- & _).
      apply Rle_0_sqr.
    + apply in_map_iff. exists x. split; [reflexivity | exact Hx].
  - apply Rsum_elem_le.
    + intros y Hy. apply in_map_iff in Hy. destruct Hy as (q & <- & _).
      apply sq_norm_nonneg.
    + apply in_map. exact Hq.
Qed.

(** After clipping to a non-negative bound no gradient entry exceeds the
    bound. *)
Lemma clip_entry_bound (net : list param) c p g x :
  0 <= c -> In (p, Some g) (clip_grad_norm net c) -> In x g -> Rabs x <= c.
Proof.
  intros Hc Hq Hx. unfold clip_grad_norm in Hq.
  assert (HT : 0 <= total_norm net) by apply sqrt_pos.
  set (T := total_norm net) in *.
  assert (He : 0 < T + / 1000000) by lra.
  destruct (Rlt_dec (c / (T + / 1000000)) 1) as [Hlt|Hge].
  - apply in_map_iff in Hq. destruct Hq as ([p0 og] & E & Hin).
    simpl in E. injection E as <- E.
    destruct og as [g0|]; [|discriminate]. simpl in E. injection E as <-.
    apply in_map_iff in Hx. destruct Hx as (x0 & <- & Hx0).
    pose proof (entry_le_total_norm net p0 g0 x0 Hin Hx0) as Hb. fold T in Hb.
    assert (Hcoef : 0 <= c / (T + / 1000000)).
    { apply Rmult_le_pos; [exact Hc | left; apply Rinv_0_lt_compat, He]. }
    rewrite Rabs_mult, (Rabs_right (c / (T + / 1000000))) by lra.
    apply Rle_trans with (T * (c / (T + / 1000000))).
    + apply Rmult_le_compat_r; assumption.
    + replace (T * (c / (T + / 1000000))) with (c * (T / (T + / 1000000)))
        by (field; lra).
      rewrite <- (Rmult_1_r c) at 2. apply Rmult_le_compat_l; [exact Hc|].
      apply (Rmult_le_reg_r (T + / 1000000)); [exact He|].
      unfold Rdiv. rewrite Rmult_assoc, Rinv_l by lra. lra.
  - pose proof (entry_le_total_norm net p g x Hq Hx) as Hb. fold T in Hb.
    assert (T + / 1000000 <= c); [|lra].
    apply Rnot_lt_le in Hge.
    apply (Rmult_le_compat_r (T + / 1000000)) in Hge; [|lra].
    unfold Rdiv in Hge. rewrite Rmult_assoc, Rinv_l in Hge by lra. lra.
Qed.

Lemma backward_fst (net : list param) news :
  map fst (backward net news) = map fst net.
Proof.
  unfold backward. rewrite map_map. simpl.
  rewrite <- (map_map fst fst), enumerate_fst. reflexivity.
Qed.

Lemma clip_fst (net : list param) c :
  map fst (clip_grad_norm net c) = map fst net.
Proof.
  unfold clip_grad_norm.
  destruct (Rlt_dec (c / (total_norm net + / 1000000)) 1); [|reflexivity].
  rewrite map_map. reflexivity.
Qed.

(** An entry after the update is the entry before it plus the step times
    an entry of the gradient (or nothing, where the gradient has none). *)
Lemma add_scaled_entry a : forall p g j,
  exists y, (y = 0 \/ In y g) /\
            nth j (add_scaled p a g) 0 = nth j p 0 + a * y.
Proof.
  induction p as [|x p IH]; intros g j.
  - exists 0. split; [left; reflexivity|]. simpl. destruct j; lra.
  - destruct g as [|y0 g].
    + exists 0. split; [left; reflexivity|]. simpl. lra.
    + destruct j as [|j]; simpl.
      * exists y0. split; [right; left; reflexivity | reflexivity].
      * destruct (IH g j) as (y & [Hy|Hy] & E).
        -- exists y. split; [left; exact Hy | exact E].
        -- exists y. split; [right; right; exact Hy | exact E].
Qed.

End StepBound.

(** X26: when the clipping bound [--clip] is not negative, the
    adaptation step at the end of a sentence moves no entry of any
    parameter by more than the learning rate times that bound, whatever
    the gradients are; with [--clip 0] it moves nothing. *)
Theorem adaptation_step_is_bounded :
  forall (Hidden : Type)
         (loss_grad : list tensor -> list nat -> Hidden -> list nat -> nat
                      -> option tensor)
         (lr : R) (data targets : list nat) (hidden0 : Hidden) (w : World)
         (k j : nat),
    (0 <= clip (w_args w))%R ->
    (Rabs (nth j (nth k (w_params (adapt_step Hidden loss_grad lr data targets
                                              hidden0 w)) []) 0
           - nth j (nth k (w_params w) []) 0)
     <= Rabs lr * clip (w_args w))%R.
Proof.
  intros Hidden loss_grad lr data targets hidden0 w k j Hc.
  unfold adapt_step.
  set (N := clip_grad_norm
              (backward (w_net w) (loss_grad (w_params w) data hidden0 targets))
              (clip (w_args w))).
  assert (Hfst : map fst N = w_params w).
  { unfold N. rewrite clip_fst, backward_fst. reflexivity. }
  assert (Hb : (0 <= Rabs lr * clip (w_args w))%R).
  { apply Rmult_le_pos; [apply Rabs_pos | exact Hc]. }
  unfold w_params at 1. cbn [w_net with_net].
  destruct (nth_error N k) as [[p og]|] eqn:Hk.
  - assert (Hp : nth k (w_params w) [] = p).
    { rewrite <- Hfst. apply nth_error_nth.
      exact (map_nth_error fst k N Hk). }
    assert (Hp' : nth k (map fst (sgd_step lr N)) []
                  = match og with
                    | Some g => add_scaled p (- lr) g
                    | None => p
                    end).
    { apply nth_error_nth.
      rewrite (map_nth_error fst k (sgd_step lr N) (sgd_step_nth lr N k _ Hk)).
      simpl. destruct og; reflexivity. }
    rewrite Hp, Hp'. destruct og as [g|].
    + destruct (add_scaled_entry (- lr)%R p g j) as (y & Hy & E).
      rewrite E.
      replace (nth j p 0 + - lr * y - nth j p 0)%R with (- lr * y)%R by ring.
      rewrite Rabs_mult, Rabs_Ropp.
      apply Rmult_le_compat_l; [apply Rabs_pos|].
      destruct Hy as [-> | Hy]; [rewrite Rabs_R0; exact Hc|].
      apply (clip_entry_bound
               (backward (w_net w) (loss_grad (w_params w) data hidden0 targets))
               (clip (w_args w)) p g y Hc); [|exact Hy].
      apply (nth_error_In N k Hk).
    + replace (nth j p 0 - nth j p 0)%R with 0%R by ring.
      rewrite Rabs_R0. exact Hb.
  - assert (Hlen : (List.length N <= k)%nat) by (apply nth_error_None; exact Hk).
    rewrite (nth_overflow (map fst (sgd_step lr N)))
      by (unfold sgd_step; rewrite !length_map; exact Hlen).
    rewrite (nth_overflow (w_params w))
      by (rewrite <- Hfst, length_map; exact Hlen).
    destruct j; simpl; replace (0 - 0)%R with 0%R by ring;
      rewrite Rabs_R0; exact Hb.
Qed.

Lemma adaptation_step_is_bounded_witness :
  (Rabs (nth 1 (nth 0 (w_params (adapt_step unit ex_steep_grad 20 [0; 1]%nat
                                            [1; 0]%nat tt ex_world_adapt)) []) 0
         - nth 1 (nth 0 (w_params ex_world_adapt) []) 0)
   <= Rabs 20 * clip (w_args ex_world_adapt))%R.
Proof.
  apply (adaptation_step_is_bounded unit ex_steep_grad 20%R [0; 1]%nat [1; 0]%nat
           tt ex_world_adapt 0 1).
  simpl. lra.
Defined.

(** ** The validation loss *)

Section EvaluateFacts.

Import Batches.

Local Open Scope R_scope.

Variable Hidden : Type.
Variable init_hidden : list tensor -> Z -> Hidden.
Variable forward : list tensor -> Matrix -> Hidden -> list R * Hidden.
Variable bptt batch_size : Z.
Variable ntokens : nat.
Variable params : list tensor.

(** When every batch has the loss [c], the loop adds [c] once for every
    input row. *)
Lemma evaluate_loop_constant (source : Matrix) (c : R) :
  forall idxs hidden t,
    (forall i h, In i idxs ->
       batch_loss forward params ntokens
                  (fst (get_batch bptt source i)) (snd (get_batch bptt source i)) h
       = Ret (Fin c)) ->
    evaluate_loop Hidden forward bptt ntokens params source idxs hidden (Fin t)
    = Ret (Fin (t + c * INR (List.length
                               (concat (map (fun i => fst (get_batch bptt source i))
                                            idxs))))).
Proof.
  induction idxs as [|i idxs IH]; intros hidden t H.
  - simpl. f_equal. f_equal. lra.
  - cbn [evaluate_loop map concat].
    pose proof (H i hidden (or_introl eq_refl)) as Hi.
    unfold batch_loss in Hi.
    destruct (get_batch bptt source i) as [data targets] eqn:Hgb.
    cbn [fst snd] in *.
    destruct (forward params data hidden) as [output hidden'].
    cbn [fst] in Hi.
    destruct (view_rows output ntokens) as [output_flat|e]; [|discriminate].
    cbn [obind] in *. rewrite Hi. cbn [obind eadd emul].
    rewrite IH by (intros j h Hj; apply H; right; exact Hj).
    f_equal. f_equal. rewrite length_app, plus_INR. ring.
Qed.

End EvaluateFacts.

(** X27: [evaluate] weighs the loss of a batch by its number of input
    rows and divides the total by the number of all rows of the source,
    the last row included, which is never an input: when every batch has
    the loss [c], the result is [c * (N - 1) / N] for a source of [N]
    rows, not [c]. *)
Theorem evaluate_divides_by_all_rows
  (Hidden : Type) (init_hidden : list tensor -> Z -> Hidden)
  (forward : list tensor -> Batches.Matrix -> Hidden -> list R * Hidden)
  (bptt batch_size : Z) (ntokens : nat) (params : list tensor)
  (source : Batches.Matrix) (c : R) :
  (0 < bptt)%Z -> source <> [] ->
  (forall (i : nat) (h : Hidden),
     (i < List.length source - 1)%nat ->
     batch_loss forward params ntokens
                (fst (Batches.get_batch bptt source (Z.of_nat i)))
                (snd (Batches.get_batch bptt source (Z.of_nat i))) h
     = Ret (Fin c)) ->
  Batches.evaluate Hidden init_hidden forward bptt batch_size ntokens params
                   source
  = Ret (Fin (c * INR (List.length source - 1) / INR (List.length source))%R).
Proof.
  intros Hb Hne Hloss.
  destruct (batches_cover bptt source Hb Hne) as (idxs & Hr & Hd & _).
  unfold Batches.evaluate. rewrite Hr. cbn [obind].
  rewrite (evaluate_loop_constant Hidden forward bptt ntokens params source c).
  2:{ intros i h Hi.
      destruct (py_range_members _ _ _ Hb Hr i Hi) as (k & -> & Hk).
      apply Hloss. lia. }
  cbn [obind]. rewrite Hd, removelast_firstn_len, length_firstn.
  rewrite Nat.min_l by lia.
  destruct source as [|row source]; [contradiction|].
  unfold mean_loss. cbn [List.length emul].
  f_equal. f_equal. unfold Rdiv.
  replace (Nat.pred (S (List.length source))) with (S (List.length source) - 1)%nat
    by lia.
  ring.
Qed.

(** The even network has the loss [ln 2] on each of the two batches of the
    example source. *)
Lemma ex_even_loss (i : nat) (h : unit) :
  (i < List.length ex_source - 1)%nat ->
  batch_loss ex_even_forward [] 2
             (fst (Batches.get_batch 35 ex_source (Z.of_nat i)))
             (snd (Batches.get_batch 35 ex_source (Z.of_nat i))) h
  = Ret (Fin (ln 2)).
Proof.
  intros Hi. destruct i as [|[|i]]; [| |simpl in Hi; lia].
  - unfold batch_loss.
    change (Batches.get_batch 35 ex_source (Z.of_nat 0))
      with ([[0]; [1]]%nat, [1; 0]%nat).
    cbn [fst snd ex_even_forward flat_map app].
    unfold view_rows. cbn. unfold criterion. cbn. unfold index, log_softmax. cbn.
    rewrite exp_0. replace (1 + (1 + 0))%R with 2%R by lra.
    f_equal. f_equal. lra.
  - unfold batch_loss.
    change (Batches.get_batch 35 ex_source (Z.of_nat 1))
      with ([[1]]%nat, [0]%nat).
    cbn [fst snd ex_even_forward flat_map app].
    unfold view_rows. cbn. unfold criterion. cbn. unfold index, log_softmax. cbn.
    rewrite exp_0. replace (1 + (1 + 0))%R with 2%R by lra.
    f_equal. f_equal. lra.
Qed.

Lemma evaluate_divides_by_all_rows_witness :
  Batches.evaluate unit (fun _ _ => tt) ex_even_forward 35 1 2 [] ex_source
  = Ret (Fin (ln 2 * INR (List.length ex_source - 1)
              / INR (List.length ex_source))%R).
Proof.
  apply (evaluate_divides_by_all_rows
           unit (fun _ _ => tt) ex_even_forward 35 1 2 [] ex_source (ln 2)).
  - lia.
  - discriminate.
  - exact ex_even_loss.
Defined.
